(** * Self-Curated Registry: a shallow embedding of [src/server.js]

    The two stores ([projects], [signals]), the allow-list cache and the
    Express route handlers are modelled as pure functions over an explicit
    state.  JavaScript numbers are modelled as mathematical integers ([Z]):
    every number the handlers compute is an integer far below 2^53, where
    doubles are exact.  The one number that enters from a request body,
    [amount], is rounded to a double and printed as [parseInt] requires
    ([Js.parseInt_number]).  Strings are modelled as sequences of code
    units below 256 (Latin-1 text). *)

From Stdlib Require Import ZArith List String Ascii Bool Lia Permutation Sorted.
Import ListNotations.

Open Scope string_scope.
Open Scope list_scope.
Open Scope Z_scope.

(* ------------------------------------------------------------------ *)
(** ** JavaScript built-ins used by the server *)

Module Js.

(** The result of [parseInt]: [NaN] or an integer. *)
Inductive number : Type :=
| NaN
| Num (z : Z).

(** [n || d] for a number [n]: [NaN] and [0] are falsy. *)
Definition or_default (n : number) (d : Z) : Z :=
  match n with
  | NaN => d
  | Num z => if z =? 0 then d else z
  end.

(** [x >= y] where [y] may be [NaN] (every comparison with [NaN] is false). *)
Definition geb_number (x : Z) (y : number) : bool :=
  match y with
  | NaN => false
  | Num z => z <=? x
  end.

(** [a || b] on optional strings: [undefined] and the empty string are
    falsy. *)
Definition or_else (a b : option string) : option string :=
  match a with
  | Some s => if (s =? "")%string then b else a
  | None => b
  end.

(** The string held by a truthy value, [None] for a falsy one. *)
Definition truthy (a : option string) : option string :=
  match a with
  | Some s => if (s =? "")%string then None else Some s
  | None => None
  end.

(** The lowercase of a code unit: A-Z, and the accented capitals
    U+00C0-U+00DE other than the multiplication sign U+00D7. *)
Definition lower_ascii (c : ascii) : ascii :=
  let n := nat_of_ascii c in
  if (((65 <=? n)%nat && (n <=? 90)%nat)
      || ((192 <=? n)%nat && (n <=? 222)%nat && negb (n =? 215)%nat))%bool
  then ascii_of_nat (n + 32) else c.

(** [String.prototype.toLowerCase]. *)
Fixpoint toLowerCase (s : string) : string :=
  match s with
  | EmptyString => EmptyString
  | String c s' => String (lower_ascii c) (toLowerCase s')
  end.

(** [s.includes(q)]: [q] occurs in [s] as a contiguous substring. *)
Fixpoint includes (s q : string) : bool :=
  String.prefix q s
  || match s with
     | EmptyString => false
     | String _ s' => includes s' q
     end.

(** *** [parseInt] without a radix argument

    The digits are read as an exact integer.  The engine returns the
    double nearest to it, which is the same number up to 2^53; the
    handlers compare and clamp it, and only [GET /projects] echoes it
    (as [offset]). *)

Definition is_space (c : ascii) : bool :=
  let n := nat_of_ascii c in
  ((9 <=? n)%nat && (n <=? 13)%nat)%bool || (n =? 32)%nat || (n =? 160)%nat.

Fixpoint skip_space (s : string) : string :=
  match s with
  | String c s' => if is_space c then skip_space s' else s
  | EmptyString => s
  end.

Definition digit_value (c : ascii) : option Z :=
  let n := nat_of_ascii c in
  if ((48 <=? n)%nat && (n <=? 57)%nat)%bool then Some (Z.of_nat (n - 48))
  else if ((97 <=? n)%nat && (n <=? 102)%nat)%bool then Some (Z.of_nat (n - 87))
  else if ((65 <=? n)%nat && (n <=? 70)%nat)%bool then Some (Z.of_nat (n - 55))
  else None.

(** The value of the longest prefix of digits of the radix, [None] when
    that prefix is empty. *)
Fixpoint digits (radix : Z) (s : string) (acc : option Z) : option Z :=
  match s with
  | EmptyString => acc
  | String c s' =>
      match digit_value c with
      | Some d =>
          if d <? radix
          then digits radix s' (Some (match acc with Some a => a | None => 0 end * radix + d))
          else acc
      | None => acc
      end
  end.

Definition parseInt_string (s : string) : number :=
  let s1 := skip_space s in
  let '(negative, s2) :=
    match s1 with
    | String "-"%char r => (true, r)
    | String "+"%char r => (false, r)
    | _ => (false, s1)
    end in
  let '(radix, s3) :=
    match s2 with
    | String "0"%char (String "x"%char r) => (16, r)
    | String "0"%char (String "X"%char r) => (16, r)
    | _ => (10, s2)
    end in
  match digits radix s3 None with
  | None => NaN
  | Some v => Num (if negative then - v else v)
  end.

(** A query-string parameter: absent ([undefined]) or a string. *)
Definition parseInt (v : option string) : number :=
  match v with
  | None => NaN
  | Some s => parseInt_string s
  end.

(** *** [parseInt] of a number

    [parseInt(x)] first converts [x] to a string.  A number of a JSON body
    is a double: [JSON.parse] rounds the literal to the nearest double,
    ties to the even significand, and to [Infinity] beyond the largest
    double. *)

(** The double nearest to a non-negative integer; [None] is [Infinity]. *)
Definition nearest_double (z : Z) : option Z :=
  if z <? 2 ^ 53 then Some z
  else
    let e := Z.log2 z - 52 in
    let q := z / 2 ^ e in
    let r := z mod 2 ^ e in
    let m :=
      if ((2 ^ (e - 1) <? r) || ((r =? 2 ^ (e - 1)) && Z.odd q))%bool
      then q + 1 else q in
    if 2 ^ 1024 <=? m * 2 ^ e then None else Some (m * 2 ^ e).

(** The number of decimal digits of a positive integer, less one. *)
Fixpoint magnitude_from (fuel : nat) (z : Z) : Z :=
  match fuel with
  | O => 0
  | S fuel' => if z <? 10 then 0 else 1 + magnitude_from fuel' (z / 10)
  end.

Definition magnitude (z : Z) : Z := magnitude_from (Z.to_nat (Z.log2 z)) z.

(** The digits [Number::toString] prints for the double [v]: the decimal
    [s * 10^p] with the fewest digits [s] that converts back to [v], and
    the closest to [v] (an even [s] on a tie) when two of that length do.
    The search goes from one digit ([p] the magnitude of [v]) to all of
    them ([p = 0]). *)
Fixpoint shortest_decimal (fuel : nat) (p : Z) (v : Z) : Z :=
  match fuel with
  | O => v
  | S fuel' =>
      let lo := v / 10 ^ p * 10 ^ p in
      let hi := lo + 10 ^ p in
      let converts c :=
        match nearest_double c with
        | Some d => d =? v
        | None => false
        end in
      if (converts lo && converts hi)%bool
      then if ((v - lo <? hi - v) || ((v - lo =? hi - v) && Z.even (v / 10 ^ p)))%bool
           then lo else hi
      else if converts lo then lo
      else if converts hi then hi
      else shortest_decimal fuel' (p - 1) v
  end.

(** The most significant decimal digit of a positive integer. *)
Fixpoint first_digit_from (fuel : nat) (z : Z) : Z :=
  match fuel with
  | O => z
  | S fuel' => if z <? 10 then z else first_digit_from fuel' (z / 10)
  end.

Definition first_digit (z : Z) : Z := first_digit_from (Z.to_nat (Z.log2 z)) z.

(** [parseInt(z)] for the integer literal [z] of a JSON body.  A double
    below 10^21 is printed in plain decimal digits, which [parseInt] reads
    back as that double.  From 10^21 on it is printed in exponent notation
    ([1e+21], [1.1805916207174113e+21]), of which [parseInt] reads the
    digit before the point or the [e]; [Infinity] does not parse. *)
Definition parseInt_number (z : Z) : number :=
  match nearest_double (Z.abs z) with
  | None => NaN
  | Some v =>
      if v <? 10 ^ 21 then Num (Z.sgn z * v)
      else
        let p := magnitude v in
        Num (Z.sgn z * first_digit (shortest_decimal (S (Z.to_nat p)) p v))
  end.

(** *** [Array.prototype.slice] *)

Definition relative_index (len i : Z) : Z :=
  if i <? 0 then Z.max (len + i) 0 else Z.min i len.

Definition slice {A : Type} (l : list A) (start finish : Z) : list A :=
  let len := Z.of_nat (List.length l) in
  let k := relative_index len start in
  let final := relative_index len finish in
  firstn (Z.to_nat (final - k)) (skipn (Z.to_nat k) l).

(** *** [Array.prototype.sort] with a comparator

    The sort of the engine is stable; it is modelled as a stable
    insertion sort. *)

Fixpoint insert {A : Type} (cmp : A -> A -> Z) (x : A) (l : list A) : list A :=
  match l with
  | [] => [x]
  | y :: l' => if cmp x y <=? 0 then x :: y :: l' else y :: insert cmp x l'
  end.

Fixpoint sort {A : Type} (cmp : A -> A -> Z) (l : list A) : list A :=
  match l with
  | [] => []
  | x :: l' => insert cmp x (sort cmp l')
  end.

End Js.

(** ** [Map]: a keyed collection that iterates in insertion order *)

Module JsMap.

Definition t (V : Type) : Type := list (string * V).

Definition empty {V : Type} : t V := [].

Definition has_key {V : Type} (k : string) (e : string * V) : bool :=
  (fst e =? k)%string.

Definition get {V : Type} (k : string) (m : t V) : option V :=
  option_map snd (find (has_key k) m).

(** [m.set(k, v)]: an existing key keeps its position, a new key goes last. *)
Fixpoint set {V : Type} (k : string) (v : V) (m : t V) : t V :=
  match m with
  | [] => [(k, v)]
  | e :: m' => if has_key k e then (k, v) :: m' else e :: set k v m'
  end.

Definition delete {V : Type} (k : string) (m : t V) : t V :=
  filter (fun e => negb (has_key k e)) m.

Definition keys {V : Type} (m : t V) : list string := map fst m.

Definition values {V : Type} (m : t V) : list V := map snd m.

(** Mutation in place of the first stored object that satisfies [sel]
    (the object returned by [Array.from(m.values()).find(sel)]). *)
Fixpoint mutate {V : Type} (sel : V -> bool) (f : V -> V) (m : t V) : t V :=
  match m with
  | [] => []
  | (k, v) :: m' => if sel v then (k, f v) :: m' else (k, v) :: mutate sel f m'
  end.

End JsMap.

(* ------------------------------------------------------------------ *)
(** ** Data model *)

Module Project.
Record t : Type := mk {
  id : string;
  name : string;
  description : string;
  url : option string;
  logo : option string;
  category : string;
  tags : list string;
  owner : string;
  supportCount : Z;
  totalSignal : Z;
  createdAt : Z;
  updatedAt : Z
}.
End Project.

Module Signal.
Record t : Type := mk {
  id : string;
  projectId : string;
  address : string;
  amount : Z;
  message : option string;
  createdAt : Z;
  updatedAt : option Z
}.
End Signal.

(** The [amount] of a body as [parseInt] receives it.  [parseInt] first
    converts its argument to a string.  [Number z] is a number written in
    the body as the integer literal [z], of any magnitude.  [Str s] is a
    string; any other value is given by the string it converts to (a
    fraction as [Str "2.5"], [true] as [Str "true"]). *)
Inductive value : Type :=
| Undefined
| Number (z : Z)
| Str (s : string).

Definition parseInt_value (v : value) : Js.number :=
  match v with
  | Undefined => Js.NaN
  | Number z => Js.parseInt_number z
  | Str s => Js.parseInt_string s
  end.

(** [req.body] with every field typed as the handlers expect it: a field
    that is absent is [None] ([undefined]); [tags] is [None] when absent
    or not an array.  Bodies whose address fields hold other JSON values,
    on which a handler throws, are [RawBody.t] further down. *)
Module Body.
Record t : Type := mk {
  name : option string;
  description : option string;
  url : option string;
  category : option string;
  owner : option string;
  logo : option string;
  tags : option (list string);
  address : option string;
  creator : option string;
  participant : option string;
  sender : option string;
  from : option string;
  amount : value;
  message : option string
}.

Definition empty : t :=
  mk None None None None None None None None None None None None Undefined None.
End Body.

(** [req.query] of [GET /projects] and [GET /search]. *)
Module Query.
Record t : Type := mk {
  category : option string;
  tag : option string;
  minSupport : option string;
  sort : option string;
  limit : option string;
  offset : option string;
  q : option string
}.

Definition empty : t := mk None None None None None None None.
End Query.

(** The trimmed project summary returned with a signal. *)
Module Summary.
Record t : Type := mk {
  id : string;
  name : string;
  supportCount : Z;
  totalSignal : Z
}.
End Summary.

(** A signal annotated for [GET /supporters/:address]. *)
Module SupporterSignal.
Record t : Type := mk {
  signal : Signal.t;
  projectName : option string;
  projectCategory : option string
}.
End SupporterSignal.

Inductive payload : Type :=
| ErrorJson (error : string)
| ProjectJson (project : Project.t)
| DeletedJson (deleted : string)
| SignalJson (signal : Signal.t) (project : Summary.t)
| RemovedJson (removed : string)
| DetailJson (project : Project.t) (recentSupporters : list Signal.t)
| ListJson (projects : list Project.t) (total offset limit : Z)
| SupporterJson (address : string) (projectsSupported totalSignal : Z)
    (signals : list SupporterSignal.t)
| SearchJson (results : list Project.t).

Record response : Type := mkResponse {
  status : Z;
  json : payload
}.

Definition error (code : Z) (msg : string) : response :=
  mkResponse code (ErrorJson msg).

(** *** Process state: the two stores and the allow-list cache *)

Record state : Type := mkState {
  projects : JsMap.t Project.t;
  signals : JsMap.t Signal.t;
  _whitelistCache : option (list string);
  _whitelistCacheTime : Z
}.

Definition initial : state := mkState JsMap.empty JsMap.empty None 0.

Definition with_projects (ps : JsMap.t Project.t) (st : state) : state :=
  mkState ps (signals st) (_whitelistCache st) (_whitelistCacheTime st).

Definition with_signals (ss : JsMap.t Signal.t) (st : state) : state :=
  mkState (projects st) ss (_whitelistCache st) (_whitelistCacheTime st).

Definition categories : list string :=
  ["public-goods"; "defi"; "nft"; "social"; "infrastructure"; "tooling"; "other"].

Definition has (set : list string) (x : string) : bool :=
  existsb (String.eqb x) set.

(** [ethers.isAddress], a predicate of the external library. *)
Class Ethers : Type := { isAddress : string -> bool }.

(* ------------------------------------------------------------------ *)
(** ** Effects of the allow-list middleware *)

(** An entry of the remote list: a plain string or an object that may
    expose an [address] field. *)
Inductive entry : Type :=
| EntryString (s : string)
| EntryObject (address : option string).

(** What [fetch] followed by [res.json()] produces: the decoded array, or
    an exception (network failure, invalid JSON, a body that is no array). *)
Inductive fetch_result : Type :=
| FetchOk (data : list entry)
| FetchError.

Inductive io (A : Type) : Type :=
| Ret (a : A)
| Fetch (url : string) (k : fetch_result -> io A)
| ConsoleError (line : string) (k : io A).

Arguments Ret {A} a.
Arguments Fetch {A} url k.
Arguments ConsoleError {A} line k.

Fixpoint bind {A B : Type} (m : io A) (f : A -> io B) : io B :=
  match m with
  | Ret a => f a
  | Fetch u k => Fetch u (fun r => bind (k r) f)
  | ConsoleError l k => ConsoleError l (bind k f)
  end.

Notation "x <- m ;; k" := (bind m (fun x => k))
  (at level 61, m at next level, right associativity).

(** Running a program against the answer the remote service gives. *)
Fixpoint run {A : Type} (answer : fetch_result) (m : io A) : A :=
  match m with
  | Ret a => a
  | Fetch _ k => run answer (k answer)
  | ConsoleError _ k => run answer k
  end.

(** The number of external calls made during that run. *)
Fixpoint fetches {A : Type} (answer : fetch_result) (m : io A) : nat :=
  match m with
  | Ret _ => 0%nat
  | Fetch _ k => S (fetches answer (k answer))
  | ConsoleError _ k => fetches answer k
  end.

(** The lines written to the error console during that run. *)
Fixpoint console {A : Type} (answer : fetch_result) (m : io A) : list string :=
  match m with
  | Ret _ => []
  | Fetch _ k => console answer (k answer)
  | ConsoleError l k => l :: console answer k
  end.

Definition WHITELIST_CACHE_TTL : Z := 5 * 60 * 1000.

(** [(e.address || e).toLowerCase()]; [None] when the call throws because
    the receiver is an object. *)
Definition entry_address (e : entry) : option string :=
  match e with
  | EntryString s => Some (Js.toLowerCase s)
  | EntryObject a => option_map Js.toLowerCase (Js.truthy a)
  end.

(** [data.map(...)]: throws as soon as one entry does. *)
Fixpoint map_entries (data : list entry) : option (list string) :=
  match data with
  | [] => Some []
  | e :: data' =>
      match entry_address e with
      | Some a => option_map (cons a) (map_entries data')
      | None => None
      end
  end.

(** The [catch] branch of [fetchWhitelist]. *)
Definition fetch_failed (st : state) : io (list string * state) :=
  ConsoleError "Whitelist fetch failed:"
    (match _whitelistCache st with
     | Some cache => Ret (cache, st)
     | None => Ret ([], st)
     end).

(** The [try] branch of [fetchWhitelist]. *)
Definition refresh (now : Z) (st : state) : io (list string * state) :=
  Fetch "https://www.owockibot.xyz/api/whitelist"
    (fun res =>
       match res with
       | FetchOk data =>
           match map_entries data with
           | Some set => Ret (set, mkState (projects st) (signals st) (Some set) now)
           | None => fetch_failed st
           end
       | FetchError => fetch_failed st
       end).

Definition fetchWhitelist (now : Z) (st : state) : io (list string * state) :=
  match _whitelistCache st with
  | Some cache =>
      if now - _whitelistCacheTime st <? WHITELIST_CACHE_TTL
      then Ret (cache, st)
      else refresh now st
  | None => refresh now st
  end.

(** The outcome of a middleware: call [next()] or answer the request. *)
Inductive gate : Type :=
| Next
| Respond (r : response).

(** The candidate address: the first truthy value in the priority order. *)
Definition candidate (addressField : Body.t -> option string) (b : Body.t) : option string :=
  Js.or_else (addressField b)
    (Js.or_else (Body.creator b)
       (Js.or_else (Body.participant b)
          (Js.or_else (Body.sender b)
             (Js.or_else (Body.from b) (Body.address b))))).

Definition requireWhitelist (addressField : Body.t -> option string)
    (b : Body.t) (now : Z) (st : state) : io (gate * state) :=
  match Js.truthy (candidate addressField b) with
  | None => Ret (Respond (error 400 "Address required"), st)
  | Some addr =>
      r <- fetchWhitelist now st ;;
      let '(whitelist, st') := r in
      if has whitelist (Js.toLowerCase addr)
      then Ret (Next, st')
      else Ret (Respond (error 403 "Invite-only. Tag @owockibot on X to request access."), st')
  end.

(* ------------------------------------------------------------------ *)
(** ** Route handlers *)

Definition set_counters (supportCount totalSignal : Z) (p : Project.t) : Project.t :=
  Project.mk (Project.id p) (Project.name p) (Project.description p) (Project.url p)
    (Project.logo p) (Project.category p) (Project.tags p) (Project.owner p)
    supportCount totalSignal (Project.createdAt p) (Project.updatedAt p).

Definition summary (p : Project.t) : Summary.t :=
  Summary.mk (Project.id p) (Project.name p) (Project.supportCount p) (Project.totalSignal p).

(** [projects.set(project.id, project)] after [project], the object stored
    under [key], has been mutated into [p]. *)
Definition store_project (key : string) (p : Project.t) (st : state) : state :=
  with_projects (JsMap.set (Project.id p) p (JsMap.set key p (projects st))) st.

(** The signal of [address] on the project, as the [find] callbacks test it. *)
Definition is_signal_of (pid address : string) (s : Signal.t) : bool :=
  ((Signal.projectId s =? pid)%string && (Signal.address s =? address)%string)%bool.

Definition signalAmount (amount : value) : Z :=
  Z.max 1 (Z.min 100 (Js.or_default (parseInt_value amount) 1)).

(** The assignments to [existing] when an address signals again. *)
Definition accumulate (amount : Z) (message : option string) (now : Z)
    (s : Signal.t) : Signal.t :=
  Signal.mk (Signal.id s) (Signal.projectId s) (Signal.address s)
    (Signal.amount s + amount)
    (Js.or_else message (Signal.message s))
    (Signal.createdAt s) (Some now).

Section Handlers.

Context {E : Ethers}.

(** [POST /projects].  The line logged after the store has been updated
    interpolates the identifier, [name] and a prefix of [owner], strings
    all three; it changes neither the response nor the state. *)
Definition post_projects (b : Body.t) (now : Z) (uuid : string) (st : state)
  : response * state :=
  match Js.truthy (Body.name b), Js.truthy (Body.owner b) with
  | Some name, Some owner =>
      if negb (isAddress owner) then (error 400 "Invalid owner address", st)
      else
        let projectCategory :=
          match Body.category b with
          | Some c => if has categories c then c else "other"
          | None => "other"
          end in
        let project :=
          Project.mk uuid name
            (match Js.truthy (Body.description b) with Some d => d | None => "" end)
            (Js.truthy (Body.url b))
            (Js.truthy (Body.logo b))
            projectCategory
            (match Body.tags b with Some l => Js.slice l 0 10 | None => [] end)
            (Js.toLowerCase owner)
            0 0 now now in
        (mkResponse 201 (ProjectJson project),
         with_projects (JsMap.set (Project.id project) project (projects st)) st)
  | _, _ => (error 400 "name and owner address required", st)
  end.

(** The field assignments of [PUT /projects/:id]. *)
Definition apply_update (b : Body.t) (now : Z) (p : Project.t) : Project.t :=
  Project.mk (Project.id p)
    (match Js.truthy (Body.name b) with Some n => n | None => Project.name p end)
    (match Body.description b with Some d => d | None => Project.description p end)
    (match Body.url b with Some u => Some u | None => Project.url p end)
    (match Body.logo b with Some l => Some l | None => Project.logo p end)
    (match Js.truthy (Body.category b) with
     | Some c => if has categories c then c else Project.category p
     | None => Project.category p
     end)
    (match Body.tags b with Some l => Js.slice l 0 10 | None => Project.tags p end)
    (Project.owner p)
    (Project.supportCount p) (Project.totalSignal p)
    (Project.createdAt p) now.

(** The owner test shared by update and delete:
    [owner && owner.toLowerCase() !== project.owner]. *)
Definition owner_mismatch (b : Body.t) (p : Project.t) : bool :=
  match Js.truthy (Body.owner b) with
  | Some owner => negb (Js.toLowerCase owner =? Project.owner p)%string
  | None => false
  end.

(** [PUT /projects/:id] *)
Definition put_project (id : string) (b : Body.t) (now : Z) (st : state)
  : response * state :=
  match JsMap.get id (projects st) with
  | None => (error 404 "Project not found", st)
  | Some project =>
      if owner_mismatch b project then (error 403 "Not project owner", st)
      else
        let project' := apply_update b now project in
        (mkResponse 200 (ProjectJson project'), store_project id project' st)
  end.

(** [DELETE /projects/:id] *)
Definition delete_project (id : string) (b : Body.t) (st : state)
  : response * state :=
  match JsMap.get id (projects st) with
  | None => (error 404 "Project not found", st)
  | Some project =>
      if owner_mismatch b project then (error 403 "Not project owner", st)
      else
        let projects' := JsMap.delete (Project.id project) (projects st) in
        let doomed :=
          filter (fun e => (Signal.projectId (snd e) =? Project.id project)%string)
            (signals st) in
        let signals' :=
          fold_left (fun m e => JsMap.delete (fst e) m) doomed (signals st) in
        (mkResponse 200 (DeletedJson (Project.id project)),
         with_signals signals' (with_projects projects' st))
  end.

(** [POST /projects/:id/signal].  The line logged for a first signal
    interpolates a prefix of [address], the stored name and the amount. *)
Definition post_signal (id : string) (b : Body.t) (now : Z) (uuid : string)
    (st : state) : response * state :=
  match JsMap.get id (projects st) with
  | None => (error 404 "Project not found", st)
  | Some project =>
      match Js.truthy (Body.address b) with
      | None => (error 400 "address required", st)
      | Some address =>
          if negb (isAddress address) then (error 400 "Invalid address", st)
          else
            let amount := signalAmount (Body.amount b) in
            let sel := is_signal_of (Project.id project) (Js.toLowerCase address) in
            match find sel (JsMap.values (signals st)) with
            | Some existing =>
                let update := accumulate amount (Body.message b) now in
                let existing' := update existing in
                let signals' :=
                  JsMap.set (Signal.id existing') existing'
                    (JsMap.mutate sel update (signals st)) in
                let project' :=
                  set_counters (Project.supportCount project)
                    (Project.totalSignal project + amount) project in
                (mkResponse 200 (SignalJson existing' (summary project')),
                 store_project id project' (with_signals signals' st))
            | None =>
                let signal :=
                  Signal.mk uuid (Project.id project) (Js.toLowerCase address)
                    amount (Js.truthy (Body.message b)) now None in
                let signals' := JsMap.set (Signal.id signal) signal (signals st) in
                let project' :=
                  set_counters (Project.supportCount project + 1)
                    (Project.totalSignal project + amount) project in
                (mkResponse 201 (SignalJson signal (summary project')),
                 store_project id project' (with_signals signals' st))
            end
      end
  end.

(** [DELETE /projects/:id/signal] *)
Definition delete_signal (id : string) (b : Body.t) (st : state)
  : response * state :=
  match JsMap.get id (projects st) with
  | None => (error 404 "Project not found", st)
  | Some project =>
      match Js.truthy (Body.address b) with
      | None => (error 400 "address required", st)
      | Some address =>
          let sel := is_signal_of (Project.id project) (Js.toLowerCase address) in
          match find sel (JsMap.values (signals st)) with
          | None => (error 404 "Signal not found", st)
          | Some existing =>
              let project' :=
                set_counters (Z.max 0 (Project.supportCount project - 1))
                  (Z.max 0 (Project.totalSignal project - Signal.amount existing))
                  project in
              let st' := store_project id project' st in
              (mkResponse 200 (RemovedJson (Signal.id existing)),
               with_signals (JsMap.delete (Signal.id existing) (signals st')) st')
          end
      end
  end.

(** [GET /projects/:id] *)
Definition get_project (id : string) (st : state) : response :=
  match JsMap.get id (projects st) with
  | None => error 404 "Project not found"
  | Some project =>
      let projectSignals :=
        Js.slice
          (Js.sort (fun a b => Signal.createdAt b - Signal.createdAt a)
             (filter (fun s => (Signal.projectId s =? Project.id project)%string)
                (JsMap.values (signals st))))
          0 20 in
      mkResponse 200 (DetailJson project projectSignals)
  end.

(** [GET /supporters/:address] *)
Definition get_supporters (address : string) (st : state) : response :=
  if negb (isAddress address) then error 400 "Invalid address"
  else
    let addr := Js.toLowerCase address in
    let annotate s :=
      let project := JsMap.get (Signal.projectId s) (projects st) in
      SupporterSignal.mk s (option_map Project.name project)
        (option_map Project.category project) in
    let supporterSignals :=
      Js.sort
        (fun a b => Signal.createdAt (SupporterSignal.signal b)
                    - Signal.createdAt (SupporterSignal.signal a))
        (map annotate
           (filter (fun s => (Signal.address s =? addr)%string)
              (JsMap.values (signals st)))) in
    let totalSignal :=
      fold_left (fun sum s => sum + Signal.amount (SupporterSignal.signal s))
        supporterSignals 0 in
    mkResponse 200
      (SupporterJson addr (Z.of_nat (List.length supporterSignals)) totalSignal
         supporterSignals).

End Handlers.

(** [GET /projects] *)
Definition list_filter (qs : Query.t) (results : list Project.t) : list Project.t :=
  let results :=
    match Js.truthy (Query.category qs) with
    | Some category => filter (fun p => (Project.category p =? category)%string) results
    | None => results
    end in
  let results :=
    match Js.truthy (Query.tag qs) with
    | Some tag => filter (fun p => has (Project.tags p) (Js.toLowerCase tag)) results
    | None => results
    end in
  match Js.truthy (Query.minSupport qs) with
  | Some minSupport =>
      let min := Js.parseInt_string minSupport in
      filter (fun p => Js.geb_number (Project.supportCount p) min) results
  | None => results
  end.

Definition list_sort (sort : option string) (results : list Project.t) : list Project.t :=
  match sort with
  | Some "support" =>
      Js.sort (fun a b => Project.supportCount b - Project.supportCount a) results
  | Some "signal" =>
      Js.sort (fun a b => Project.totalSignal b - Project.totalSignal a) results
  | Some "oldest" =>
      Js.sort (fun a b => Project.createdAt a - Project.createdAt b) results
  | _ =>
      Js.sort (fun a b => Project.createdAt b - Project.createdAt a) results
  end.

Definition get_projects (qs : Query.t) (st : state) : response :=
  let results := list_sort (Query.sort qs) (list_filter qs (JsMap.values (projects st))) in
  let start := Js.or_default (Js.parseInt (Query.offset qs)) 0 in
  let count := Z.min (Js.or_default (Js.parseInt (Query.limit qs)) 50) 100 in
  let total := Z.of_nat (List.length results) in
  mkResponse 200 (ListJson (Js.slice results start (start + count)) total start count).

(** The filter callback of [GET /search]. *)
Definition search_match (query : string) (p : Project.t) : bool :=
  Js.includes (Js.toLowerCase (Project.name p)) query
  || Js.includes (Js.toLowerCase (Project.description p)) query
  || existsb (fun t => Js.includes t query) (Project.tags p).

(** [GET /search] *)
Definition get_search (qs : Query.t) (st : state) : response :=
  match Js.truthy (Query.q qs) with
  | None => error 400 "Query must be at least 2 characters"
  | Some q =>
      if (String.length q <? 2)%nat
      then error 400 "Query must be at least 2 characters"
      else
        let query := Js.toLowerCase q in
        let results :=
          Js.slice
            (Js.sort (fun a b => Project.supportCount b - Project.supportCount a)
               (filter (search_match query) (JsMap.values (projects st))))
            0 (Js.or_default (Js.parseInt (Query.limit qs)) 20) in
        mkResponse 200 (SearchJson results)
  end.

(* ------------------------------------------------------------------ *)
(** ** Requests, routes and reachable states *)

Inductive request : Type :=
| PostProjects (b : Body.t)
| PutProject (id : string) (b : Body.t)
| DeleteProject (id : string) (b : Body.t)
| PostSignal (id : string) (b : Body.t)
| DeleteSignal (id : string) (b : Body.t).

(** What the environment supplies while a request is served: the clock,
    the identifier [uuidv4()] returns, and the remote service's answer. *)
Record env : Type := mkEnv {
  now : Z;
  uuid : string;
  remote : fetch_result
}.

Section Routes.

Context {E : Ethers}.

(** A handler behind [requireWhitelist()] (default field: [address]).
    The middleware suspends at its [await]; the handler then runs to
    completion without yielding.  The middleware neither reads nor writes
    the two stores, so serving a request is modelled as one step taken
    when its handler runs. *)
Definition gated (b : Body.t) (e : env) (st : state)
    (handler : state -> response * state) : io (response * state) :=
  g <- requireWhitelist Body.address b (now e) st ;;
  match fst g with
  | Next => Ret (handler (snd g))
  | Respond r => Ret (r, snd g)
  end.

Definition route (r : request) (e : env) (st : state) : io (response * state) :=
  match r with
  | PostProjects b => gated b e st (post_projects b (now e) (uuid e))
  | PutProject id b => gated b e st (put_project id b (now e))
  | DeleteProject id b => Ret (delete_project id b st)
  | PostSignal id b => gated b e st (post_signal id b (now e) (uuid e))
  | DeleteSignal id b => Ret (delete_signal id b st)
  end.

Definition serve (r : request) (e : env) (st : state) : response * state :=
  run (remote e) (route r e st).

(** [uuidv4()] returns an identifier that is not in use. *)
Definition fresh (u : string) (st : state) : Prop :=
  JsMap.get u (projects st) = None /\ JsMap.get u (signals st) = None.

Inductive reachable : state -> Prop :=
| reachable_initial : reachable initial
| reachable_serve (st : state) (r : request) (e : env) :
    reachable st -> fresh (uuid e) st -> reachable (snd (serve r e st)).

End Routes.

(* ------------------------------------------------------------------ *)
(** ** Properties of the stores *)

(** The live signals that reference a project. *)
Definition signals_of (pid : string) (ss : JsMap.t Signal.t) : list Signal.t :=
  filter (fun s => (Signal.projectId s =? pid)%string) (JsMap.values ss).

Definition live_count (pid : string) (ss : JsMap.t Signal.t) : Z :=
  Z.of_nat (List.length (signals_of pid ss)).

Definition live_total (pid : string) (ss : JsMap.t Signal.t) : Z :=
  fold_right (fun s acc => Signal.amount s + acc) 0 (signals_of pid ss).

(** The denormalised counters of every stored project agree with the
    signal store. *)
Definition counters_ok (st : state) : Prop :=
  forall p, In p (JsMap.values (projects st)) ->
    Project.supportCount p = live_count (Project.id p) (signals st)
    /\ Project.totalSignal p = live_total (Project.id p) (signals st).

Definition indicator (b : bool) : Z := if b then 1 else 0.

(** The number of stored signals of one address on one project. *)
Definition pair_count (pid address : string) (ss : JsMap.t Signal.t) : nat :=
  List.length (filter (is_signal_of pid address) (JsMap.values ss)).

(** The live signals of one address on one project. *)
Definition signals_by (pid address : string) (st : state) : list Signal.t :=
  filter (is_signal_of pid address) (JsMap.values (signals st)).

(** At most one live signal per (project, address). *)
Definition one_signal_per_pair (st : state) : Prop :=
  forall pid address, (List.length (signals_by pid address st) <= 1)%nat.

(** Each store maps an identifier to the record that carries it, once. *)
Definition keyed {V : Type} (id : V -> string) (m : JsMap.t V) : Prop :=
  NoDup (JsMap.keys m) /\ Forall (fun e => id (snd e) = fst e) m.

(** The invariant of the two stores that every route maintains. *)
Record invariant (st : state) : Prop := mkInvariant {
  inv_projects : keyed Project.id (projects st);
  inv_signals : keyed Signal.id (signals st);
  inv_reference :
    Forall (fun s => JsMap.get (Signal.projectId s) (projects st) <> None)
      (JsMap.values (signals st));
  inv_owner :
    Forall (fun p => Js.toLowerCase (Project.owner p) = Project.owner p)
      (JsMap.values (projects st));
  inv_amount :
    Forall (fun s => 1 <= Signal.amount s) (JsMap.values (signals st));
  inv_unique : one_signal_per_pair st;
  inv_counters : counters_ok st
}.











(** The first non-empty value of a list of optional fields. *)
Fixpoint first_nonempty (vs : list (option string)) : option string :=
  match vs with
  | [] => None
  | Some s :: vs' => if (s =? "")%string then first_nonempty vs' else Some s
  | None :: vs' => first_nonempty vs'
  end.

(** The body fields the access gate reads, in priority order. *)
Definition gate_fields (addressField : Body.t -> option string) (b : Body.t)
  : list (option string) :=
  [addressField b; Body.creator b; Body.participant b; Body.sender b;
   Body.from b; Body.address b].

(** A refresh of the allow-list fails when the call throws or when the
    decoded list cannot be normalised. *)
Definition fetch_fails (answer : fetch_result) : Prop :=
  match answer with
  | FetchError => True
  | FetchOk data => map_entries data = None
  end.

(** [q] occurs in [s] as a substring. *)
Definition occurs (q s : string) : Prop :=
  exists pre post, s = (pre ++ q ++ post)%string.

(** [q] occurs in [s] as a substring, up to the case of letters. *)
Definition occurs_ci (q s : string) : Prop :=
  exists pre mid post,
    s = (pre ++ mid ++ post)%string /\ Js.toLowerCase mid = Js.toLowerCase q.

(** The match of the search claim: case-insensitive on name, description
    and tags alike. *)
Definition search_claim_match (q : string) (p : Project.t) : Prop :=
  occurs_ci q (Project.name p)
  \/ occurs_ci q (Project.description p)
  \/ exists t, In t (Project.tags p) /\ occurs_ci q t.

(** The match the handler implements: tags are compared as stored. *)
Definition search_code_match (q : string) (p : Project.t) : Prop :=
  occurs_ci q (Project.name p)
  \/ occurs_ci q (Project.description p)
  \/ exists t, In t (Project.tags p) /\ occurs (Js.toLowerCase q) t.

(** The pagination claim for one query: the page fits between the offset
    and the total, and within the requested limit (50 by default) capped
    at 100. *)
Definition pagination_claim (qs : Query.t) (st : state) : Prop :=
  exists page total offset limit,
    json (get_projects qs st) = ListJson page total offset limit
    /\ offset + Z.of_nat (List.length page) <= total
    /\ Z.of_nat (List.length page)
       <= Z.min (Js.or_default (Js.parseInt (Query.limit qs)) 50) 100.

(** The owner claim for one update request: a supplied owner that differs
    from the stored one yields an authorization error and leaves the
    record as it was. *)
Definition owner_claim {E : Ethers} (id : string) (b : Body.t) (e : env)
    (st : state) : Prop :=
  forall p o,
    JsMap.get id (projects st) = Some p ->
    Body.owner b = Some o ->
    Js.toLowerCase o <> Js.toLowerCase (Project.owner p) ->
    status (fst (serve (PutProject id b) e st)) = 403
    /\ JsMap.get id (projects (snd (serve (PutProject id b) e st))) = Some p.


(** The search claim for one query [q], read on a store that holds fewer
    projects than the limit: the stored projects in the result are exactly
    those the query matches. *)
Definition search_claim (qs : Query.t) (st : state) (q : string) : Prop :=
  exists results,
    json (get_search qs st) = SearchJson results
    /\ forall p, In p (JsMap.values (projects st)) ->
                 (In p results <-> search_claim_match q p).

(** A list in descending order of [key]. *)
Definition descending {A : Type} (key : A -> Z) : list A -> Prop :=
  StronglySorted (fun a b => key b <= key a).

(** The snapshot of the allow-list the middleware obtains. *)
Definition snapshot (e : env) (st : state) : list string * state :=
  run (remote e) (fetchWhitelist (now e) st).

(** The outcomes of the signal handler on a state that satisfies the
    store invariant. *)
Inductive signal_outcome {E : Ethers} (id : string) (b : Body.t) (now : Z) (u : string)
    (st : state) (out : response * state) : Prop :=
| signal_rejected (code : Z) (msg : string) :
    fst out = error code msg -> 400 <= code -> snd out = st ->
    signal_outcome id b now u st out
| signal_accumulated (p : Project.t) (a : string) (ex : Signal.t)
    (s1 s2 : JsMap.t Signal.t) :
    JsMap.get id (projects st) = Some p ->
    Js.truthy (Body.address b) = Some a ->
    isAddress a = true ->
    signals st = s1 ++ (Signal.id ex, ex) :: s2 ->
    is_signal_of id (Js.toLowerCase a) ex = true ->
    pair_count id (Js.toLowerCase a) s1 = 0%nat ->
    pair_count id (Js.toLowerCase a) s2 = 0%nat ->
    let amount := signalAmount (Body.amount b) in
    let ex' := accumulate amount (Body.message b) now ex in
    let p' := set_counters (Project.supportCount p) (Project.totalSignal p + amount) p in
    fst out = mkResponse 200 (SignalJson ex' (summary p')) ->
    signals (snd out) = s1 ++ (Signal.id ex, ex') :: s2 ->
    JsMap.get id (projects (snd out)) = Some p' ->
    signal_outcome id b now u st out
| signal_created (p : Project.t) (a : string) :
    JsMap.get id (projects st) = Some p ->
    Js.truthy (Body.address b) = Some a ->
    isAddress a = true ->
    pair_count id (Js.toLowerCase a) (signals st) = 0%nat ->
    let amount := signalAmount (Body.amount b) in
    let s := Signal.mk u id (Js.toLowerCase a) amount (Js.truthy (Body.message b)) now None in
    let p' := set_counters (Project.supportCount p + 1) (Project.totalSignal p + amount) p in
    fst out = mkResponse 201 (SignalJson s (summary p')) ->
    signals (snd out) = signals st ++ [(u, s)] ->
    JsMap.get id (projects (snd out)) = Some p' ->
    signal_outcome id b now u st out.

(* ------------------------------------------------------------------ *)
(** ** A concrete run of the service

    [plain_address] stands in for [ethers.isAddress] when the routes are
    run on concrete requests: it accepts [0x] followed by forty lowercase
    hexadecimal digits, strings the library accepts as well. *)

Definition is_lower_hex (c : ascii) : bool :=
  let n := nat_of_ascii c in
  (((48 <=? n)%nat && (n <=? 57)%nat) || ((97 <=? n)%nat && (n <=? 102)%nat))%bool.

Definition plain_address (s : string) : bool :=
  match s with
  | String "0"%char (String "x"%char r) =>
      ((String.length r =? 40)%nat && forallb is_lower_hex (list_ascii_of_string r))%bool
  | _ => false
  end.

Definition plainEthers : Ethers := {| isAddress := plain_address |}.

Definition alice : string := "0xaaaaaaaaaaaaaaaaaaaaaaaaaaaaaaaaaaaaaaaa".
Definition bob : string := "0xbbbbbbbbbbbbbbbbbbbbbbbbbbbbbbbbbbbbbbbb".
Definition carol : string := "0xcccccccccccccccccccccccccccccccccccccccc".

(** The remote list names [alice] and [bob]; [carol] is not on it. *)
Definition listing : fetch_result :=
  FetchOk [EntryString alice; EntryObject (Some bob)].

Definition at_time (t : Z) (u : string) : env := mkEnv t u listing.

Definition project_body (name owner address : string) (tags : list string) : Body.t :=
  Body.mk (Some name) None None None (Some owner) None (Some tags)
    (Some address) None None None None Undefined None.

Definition signal_body (address : string) (amount : value) : Body.t :=
  Body.mk None None None None None None None
    (Some address) None None None None amount None.

Definition update_body (name : string) (owner address : option string) : Body.t :=
  Body.mk (Some name) None None None owner None None
    address None None None None Undefined None.

(** [alice] registers a project, then signals it with 5 and again with 3. *)
Definition registered : state :=
  snd (serve (E := plainEthers)
         (PostProjects (project_body "Foo" alice alice ["DeFi"])) (at_time 1000 "p-1") initial).

Definition signaled_once : state :=
  snd (serve (E := plainEthers)
         (PostSignal "p-1" (signal_body alice (Number 5))) (at_time 2000 "s-1") registered).

Definition signaled_twice : state :=
  snd (serve (E := plainEthers)
         (PostSignal "p-1" (signal_body alice (Number 3))) (at_time 3000 "s-2") signaled_once).

(** The project and the signal the run leaves in the stores. *)
Definition foo : Project.t :=
  Project.mk "p-1" "Foo" "" None None "other" ["DeFi"] alice 0 0 1000 1000.

Definition first_signal : Signal.t :=
  Signal.mk "s-1" "p-1" alice 5 None 2000 None.

Definition search_query (q : string) (limit : option string) : Query.t :=
  Query.mk None None None None limit None (Some q).

Definition list_query (sort limit offset : option string) : Query.t :=
  Query.mk None None None sort limit offset None.

(* ------------------------------------------------------------------ *)
(** ** Discovery, statistics and the landing page *)

(** An entry [{ name, count }] of the category and tag listings. *)
Module Count.
Record t : Type := mk {
  name : string;
  count : Z
}.
End Count.

(** The entries of a table of counts as [{ name, count }] records, in
    insertion order.  For [GET /tags] the table is a [Map]; for
    [GET /categories] it is a plain object whose keys are the fixed
    category names and the categories of the stored projects (which
    creation and update keep within the fixed set): none of them is an
    array index or an inherited property, so [Object.entries] enumerates
    them in insertion order as well. *)
Definition count_entries (counts : JsMap.t Z) : list Count.t :=
  map (fun e => Count.mk (fst e) (snd e)) counts.

(** [counts[k] = (counts[k] || 0) + 1] *)
Definition bump (k : string) (counts : JsMap.t Z) : JsMap.t Z :=
  JsMap.set k
    (Js.or_default
       (match JsMap.get k counts with Some n => Js.Num n | None => Js.NaN end) 0
     + 1)
    counts.

Definition by_count (a b : Count.t) : Z := Count.count b - Count.count a.

(** The [counts] object of [GET /categories] before it is sorted. *)
Definition category_counts (st : state) : JsMap.t Z :=
  fold_left (fun counts p => bump (Project.category p) counts)
    (JsMap.values (projects st))
    (fold_left (fun counts c => JsMap.set c 0 counts) categories JsMap.empty).

(** [GET /categories] *)
Definition get_categories (st : state) : list Count.t :=
  Js.sort by_count (count_entries (category_counts st)).

(** The [tagCounts] map of [GET /tags] before it is sorted. *)
Definition tag_counts (st : state) : JsMap.t Z :=
  fold_left
    (fun tagCounts p => fold_left (fun tc tag => bump tag tc) (Project.tags p) tagCounts)
    (JsMap.values (projects st)) JsMap.empty.

(** [GET /tags] *)
Definition get_tags (st : state) : list Count.t :=
  Js.slice (Js.sort by_count (count_entries (tag_counts st))) 0 50.

(** [new Set(list)]: the distinct elements in order of first occurrence. *)
Definition set_of (l : list string) : list string :=
  fold_left (fun set x => if has set x then set else set ++ [x]) l [].

Module Stats.
Record t : Type := mk {
  totalProjects : Z;
  totalSignals : Z;
  totalSignalAmount : Z;
  uniqueSupporters : Z;
  categories : Z
}.
End Stats.

(** [GET /stats] *)
Definition get_stats (st : state) : Stats.t :=
  let allProjects := JsMap.values (projects st) in
  let allSignals := JsMap.values (signals st) in
  let totalSignal := fold_left (fun sum s => sum + Signal.amount s) allSignals 0 in
  let uniqueSupporters :=
    Z.of_nat (List.length (set_of (map Signal.address allSignals))) in
  Stats.mk (Z.of_nat (List.length allProjects)) (Z.of_nat (List.length allSignals))
    totalSignal uniqueSupporters (Z.of_nat (List.length categories)).

(** [topProjects] of the landing page. *)
Definition topProjects (st : state) : list Project.t :=
  Js.slice
    (Js.sort (fun a b => Project.supportCount b - Project.supportCount a)
       (JsMap.values (projects st)))
    0 5.

(** *** Predicates used to state what the routes keep *)

(** The fields of a stored project that creation and update control. *)
Record project_ok (p : Project.t) : Prop := mkProjectOk {
  ok_name : Project.name p <> "";
  ok_category : In (Project.category p) categories;
  ok_tags : (List.length (Project.tags p) <= 10)%nat;
  ok_owner : Project.owner p <> "";
  ok_owner_lower : Js.toLowerCase (Project.owner p) = Project.owner p
}.

(** The fields of a stored signal that signaling controls. *)
Record signal_ok (s : Signal.t) : Prop := mkSignalOk {
  ok_amount : 1 <= Signal.amount s;
  ok_address : Signal.address s <> "";
  ok_address_lower : Js.toLowerCase (Signal.address s) = Signal.address s
}.

(** The number of stored projects of a category. *)
Definition projects_in (c : string) (st : state) : Z :=
  Z.of_nat (List.length
              (filter (fun p => (Project.category p =? c)%string)
                 (JsMap.values (projects st)))).

(** The number of times a tag occurs in the tag lists of the stored
    projects. *)
Definition tag_uses (t : string) (st : state) : Z :=
  Z.of_nat (List.length
              (filter (String.eqb t)
                 (flat_map Project.tags (JsMap.values (projects st))))).

(** The sort key of [GET /projects] for each value of [sort]; the page is
    in descending order of it. *)
Definition sort_key (sort : option string) (p : Project.t) : Z :=
  match sort with
  | Some "support" => Project.supportCount p
  | Some "signal" => Project.totalSignal p
  | Some "oldest" => - Project.createdAt p
  | _ => Project.createdAt p
  end.

(** The filters of [GET /projects], filter by filter. *)
Definition passes_filters (qs : Query.t) (p : Project.t) : Prop :=
  (forall c, Js.truthy (Query.category qs) = Some c -> Project.category p = c)
  /\ (forall t, Js.truthy (Query.tag qs) = Some t ->
                In (Js.toLowerCase t) (Project.tags p))
  /\ (forall m, Js.truthy (Query.minSupport qs) = Some m ->
                exists n, Js.parseInt_string m = Js.Num n /\ n <= Project.supportCount p).

(** The body of a state-changing request, and whether its route sits
    behind [requireWhitelist()]. *)
Definition body_of (r : request) : Body.t :=
  match r with
  | PostProjects b => b
  | PutProject _ b => b
  | DeleteProject _ b => b
  | PostSignal _ b => b
  | DeleteSignal _ b => b
  end.

Definition is_gated (r : request) : bool :=
  match r with
  | PostProjects _ | PutProject _ _ | PostSignal _ _ => true
  | DeleteProject _ _ | DeleteSignal _ _ => false
  end.

(** The cache has to be refreshed at [now]: it is empty or has expired. *)
Definition needs_refresh (now : Z) (st : state) : Prop :=
  match _whitelistCache st with
  | Some _ => WHITELIST_CACHE_TTL <= now - _whitelistCacheTime st
  | None => True
  end.

(** The handler of a request, as it runs once the gate has let it pass. *)
Definition handler_of {E : Ethers} (r : request) (e : env) (st : state) : response * state :=
  match r with
  | PostProjects b => post_projects b (now e) (uuid e) st
  | PutProject id b => put_project id b (now e) st
  | DeleteProject id b => delete_project id b st
  | PostSignal id b => post_signal id b (now e) (uuid e) st
  | DeleteSignal id b => delete_signal id b st
  end.

(** The sum of [f] over a list, as [reduce((sum, x) => sum + f(x), 0)]
    computes it. *)
Definition total_of {A : Type} (f : A -> Z) (l : list A) : Z :=
  fold_right (fun x acc => f x + acc) 0 l.

(** Counting a list of names into a map of counts, one [bump] per name. *)
Definition bump_all (names : list string) (counts : JsMap.t Z) : JsMap.t Z :=
  fold_left (fun tc name => bump name tc) names counts.

(** The number of occurrences of a name in a list. *)
Definition occurrences (name : string) (names : list string) : Z :=
  Z.of_nat (List.length (filter (String.eqb name) names)).

(** *** More of the concrete run *)

(** [bob] registers a second project after [alice] has signaled twice. *)
Definition two_projects : state :=
  snd (serve (E := plainEthers)
         (PostProjects
            (Body.mk (Some "Bar") None None (Some "defi") (Some bob) None
               (Some ["defi"; "tools"]) (Some bob) None None None None Undefined None))
         (at_time 4000 "p-2") signaled_twice).

(** [alice] in capitals, as the remote list or a request may spell it. *)
Definition alice_upper : string := "0XAAAAAAAAAAAAAAAAAAAAAAAAAAAAAAAAAAAAAAAA".

(** A remote service that is down. *)
Definition offline (t : Z) (u : string) : env := mkEnv t u FetchError.
(* ------------------------------------------------------------------ *)
(** ** Bodies whose address fields are not strings

    [Body.t] types every field as the handlers expect it.  A JSON body can
    carry any value in a field.  The handlers call a string method,
    [x.toLowerCase()], on the candidate address of the gate, on [owner]
    and on [address]; on a value that is truthy and no string that call
    throws a [TypeError], which the handler does not catch.  [RawBody.t]
    lets these fields ([address], [creator], [participant], [sender],
    [from], [owner]) hold any JSON value, and the routes below tell the
    completion of a request (a response, or the exception) apart.  The
    fields whose value a handler stores ([name], [description], [url],
    [logo], [category], [tags], [message]) and [amount] stay typed as in
    [Body.t]: what a request stores when they are no strings is not
    modelled, and with them the log lines written after a store has been
    updated interpolate strings and numbers only. *)

(** A number that [JSON.parse] yields: a finite double [m * 2^e], or
    an infinity for a literal beyond the largest double. *)
Inductive double : Type :=
| Finite (m e : Z)
| Infinite (negative : bool).

#[warnings="-register-all"] Inductive json_value : Type :=
| JNull
| JBool (b : bool)
| JNumber (x : double)
| JString (s : string)
| JArray (items : list json_value)
| JObject (fields : list (string * json_value)).

(** [!!v] for a field of the body ([None] is [undefined]): [undefined],
    [null], [false], zero and the empty string are falsy. *)
Definition truthy_json (v : option json_value) : bool :=
  match v with
  | None => false
  | Some JNull => false
  | Some (JBool b) => b
  | Some (JNumber (Finite m _)) => negb (m =? 0)
  | Some (JNumber (Infinite _)) => true
  | Some (JString s) => negb (s =? "")%string
  | Some (JArray _) => true
  | Some (JObject _) => true
  end.

(** [a || b] *)
Definition or_json (a b : option json_value) : option json_value :=
  if truthy_json a then a else b.

(** The string a field holds, if it holds one. *)
Definition text (v : option json_value) : option string :=
  match v with
  | Some (JString s) => Some s
  | _ => None
  end.

Module RawBody.
Record t : Type := mk {
  name : option string;
  description : option string;
  url : option string;
  category : option string;
  owner : option json_value;
  logo : option string;
  tags : option (list string);
  address : option json_value;
  creator : option json_value;
  participant : option json_value;
  sender : option json_value;
  from : option json_value;
  amount : value;
  message : option string
}.

(** The body as a handler reads it once the fields it calls string
    methods on are known to be strings or falsy. *)
Definition typed (b : t) : Body.t :=
  Body.mk (name b) (description b) (url b) (category b) (text (owner b)) (logo b)
    (tags b) (text (address b)) (text (creator b)) (text (participant b))
    (text (sender b)) (text (from b)) (amount b) (message b).

(** A typed body as a JSON body. *)
Definition of_typed (b : Body.t) : t :=
  mk (Body.name b) (Body.description b) (Body.url b) (Body.category b)
    (option_map JString (Body.owner b)) (Body.logo b) (Body.tags b)
    (option_map JString (Body.address b)) (option_map JString (Body.creator b))
    (option_map JString (Body.participant b)) (option_map JString (Body.sender b))
    (option_map JString (Body.from b)) (Body.amount b) (Body.message b).
End RawBody.

(** How the evaluation of a handler or middleware completes: normally,
    or with the [TypeError] of a call [x.toLowerCase()] on a value that
    has no such method.  The handler sends no response then; what the
    framework makes of the exception (a 500 of its own for a handler, a
    rejected promise for the asynchronous gate) is not part of
    [src/server.js]. *)
Inductive completion (A : Type) : Type :=
| Normal (a : A)
| TypeError.

Arguments Normal {A} a.
Arguments TypeError {A}.

Definition normal {A S : Type} (x : A * S) : completion A * S :=
  (Normal (fst x), snd x).

(** [x.toLowerCase()] is evaluated and throws: [x] is truthy and no string. *)
Definition throws_toLowerCase (v : option json_value) : bool :=
  (truthy_json v && match v with Some (JString _) => false | _ => true end)%bool.

(** The candidate address of the gate, as the chain of [||] leaves it. *)
Definition candidate_json (addressField : RawBody.t -> option json_value) (b : RawBody.t)
  : option json_value :=
  or_json (addressField b)
    (or_json (RawBody.creator b)
       (or_json (RawBody.participant b)
          (or_json (RawBody.sender b)
             (or_json (RawBody.from b) (RawBody.address b))))).

(** [requireWhitelist(addressField)] on a JSON body.  The allow-list is
    awaited before [addr.toLowerCase()] is evaluated. *)
Definition requireWhitelist_json (addressField : RawBody.t -> option json_value)
    (b : RawBody.t) (now : Z) (st : state) : io (completion gate * state) :=
  let addr := candidate_json addressField b in
  if negb (truthy_json addr)
  then Ret (Normal (Respond (error 400 "Address required")), st)
  else
    r <- fetchWhitelist now st ;;
    let '(whitelist, st') := r in
    match addr with
    | Some (JString a) =>
        if has whitelist (Js.toLowerCase a)
        then Ret (Normal Next, st')
        else Ret (Normal (Respond (error 403 "Invite-only. Tag @owockibot on X to request access.")), st')
    | _ => Ret (TypeError, st')
    end.

Section UntypedHandlers.

Context {E : Ethers}.

(** [POST /projects]: [ethers.isAddress] answers [false] for a value that
    is no string, so that [owner] is a string where the record is built. *)
Definition post_projects_json (b : RawBody.t) (now : Z) (uuid : string) (st : state)
  : completion response * state :=
  match Js.truthy (RawBody.name b), truthy_json (RawBody.owner b) with
  | Some _, true =>
      match RawBody.owner b with
      | Some (JString _) => normal (post_projects (RawBody.typed b) now uuid st)
      | _ => (Normal (error 400 "Invalid owner address"), st)
      end
  | _, _ => (Normal (error 400 "name and owner address required"), st)
  end.

(** [PUT /projects/:id]: [owner && owner.toLowerCase() !== project.owner]
    is evaluated once the project has been found. *)
Definition put_project_json (id : string) (b : RawBody.t) (now : Z) (st : state)
  : completion response * state :=
  match JsMap.get id (projects st) with
  | None => (Normal (error 404 "Project not found"), st)
  | Some _ =>
      if throws_toLowerCase (RawBody.owner b) then (TypeError, st)
      else normal (put_project id (RawBody.typed b) now st)
  end.

(** [DELETE /projects/:id] *)
Definition delete_project_json (id : string) (b : RawBody.t) (st : state)
  : completion response * state :=
  match JsMap.get id (projects st) with
  | None => (Normal (error 404 "Project not found"), st)
  | Some _ =>
      if throws_toLowerCase (RawBody.owner b) then (TypeError, st)
      else normal (delete_project id (RawBody.typed b) st)
  end.

(** [POST /projects/:id/signal]: [address] has passed [ethers.isAddress]
    where [address.toLowerCase()] is evaluated. *)
Definition post_signal_json (id : string) (b : RawBody.t) (now : Z) (uuid : string)
    (st : state) : completion response * state :=
  match JsMap.get id (projects st) with
  | None => (Normal (error 404 "Project not found"), st)
  | Some _ =>
      if negb (truthy_json (RawBody.address b))
      then (Normal (error 400 "address required"), st)
      else
        match RawBody.address b with
        | Some (JString _) => normal (post_signal id (RawBody.typed b) now uuid st)
        | _ => (Normal (error 400 "Invalid address"), st)
        end
  end.

(** [DELETE /projects/:id/signal]: the callback of [find] evaluates
    [address.toLowerCase()] at the first signal that references the
    project, and not at all when there is none. *)
Definition delete_signal_json (id : string) (b : RawBody.t) (st : state)
  : completion response * state :=
  match JsMap.get id (projects st) with
  | None => (Normal (error 404 "Project not found"), st)
  | Some project =>
      if negb (truthy_json (RawBody.address b))
      then (Normal (error 400 "address required"), st)
      else
        match RawBody.address b with
        | Some (JString _) => normal (delete_signal id (RawBody.typed b) st)
        | _ =>
            if existsb (fun s => (Signal.projectId s =? Project.id project)%string)
                 (JsMap.values (signals st))
            then (TypeError, st)
            else (Normal (error 404 "Signal not found"), st)
        end
  end.

End UntypedHandlers.

Inductive json_request : Type :=
| JsonPostProjects (b : RawBody.t)
| JsonPutProject (id : string) (b : RawBody.t)
| JsonDeleteProject (id : string) (b : RawBody.t)
| JsonPostSignal (id : string) (b : RawBody.t)
| JsonDeleteSignal (id : string) (b : RawBody.t).

Definition json_body_of (r : json_request) : RawBody.t :=
  match r with
  | JsonPostProjects b => b
  | JsonPutProject _ b => b
  | JsonDeleteProject _ b => b
  | JsonPostSignal _ b => b
  | JsonDeleteSignal _ b => b
  end.

Definition json_is_gated (r : json_request) : bool :=
  match r with
  | JsonPostProjects _ | JsonPutProject _ _ | JsonPostSignal _ _ => true
  | JsonDeleteProject _ _ | JsonDeleteSignal _ _ => false
  end.

(** The request with its body read as a typed body, and a typed request
    as a JSON request. *)
Definition typed_request (r : json_request) : request :=
  match r with
  | JsonPostProjects b => PostProjects (RawBody.typed b)
  | JsonPutProject id b => PutProject id (RawBody.typed b)
  | JsonDeleteProject id b => DeleteProject id (RawBody.typed b)
  | JsonPostSignal id b => PostSignal id (RawBody.typed b)
  | JsonDeleteSignal id b => DeleteSignal id (RawBody.typed b)
  end.

Definition json_request_of (r : request) : json_request :=
  match r with
  | PostProjects b => JsonPostProjects (RawBody.of_typed b)
  | PutProject id b => JsonPutProject id (RawBody.of_typed b)
  | DeleteProject id b => JsonDeleteProject id (RawBody.of_typed b)
  | PostSignal id b => JsonPostSignal id (RawBody.of_typed b)
  | DeleteSignal id b => JsonDeleteSignal id (RawBody.of_typed b)
  end.

(** The fields on which a route may call [toLowerCase()]. *)
Definition address_fields (b : RawBody.t) : list (option json_value) :=
  [RawBody.address b; RawBody.creator b; RawBody.participant b; RawBody.sender b;
   RawBody.from b; RawBody.owner b].

Section UntypedRoutes.

Context {E : Ethers}.

Definition json_handler_of (r : json_request) (e : env) (st : state)
  : completion response * state :=
  match r with
  | JsonPostProjects b => post_projects_json b (now e) (uuid e) st
  | JsonPutProject id b => put_project_json id b (now e) st
  | JsonDeleteProject id b => delete_project_json id b st
  | JsonPostSignal id b => post_signal_json id b (now e) (uuid e) st
  | JsonDeleteSignal id b => delete_signal_json id b st
  end.

(** A handler behind [requireWhitelist()]. *)
Definition gated_json (b : RawBody.t) (e : env) (st : state)
    (handler : state -> completion response * state)
  : io (completion response * state) :=
  g <- requireWhitelist_json RawBody.address b (now e) st ;;
  match fst g with
  | Normal Next => Ret (handler (snd g))
  | Normal (Respond r) => Ret (Normal r, snd g)
  | TypeError => Ret (TypeError, snd g)
  end.

Definition route_json (r : json_request) (e : env) (st : state)
  : io (completion response * state) :=
  match r with
  | JsonPostProjects b => gated_json b e st (post_projects_json b (now e) (uuid e))
  | JsonPutProject id b => gated_json b e st (put_project_json id b (now e))
  | JsonDeleteProject id b => Ret (delete_project_json id b st)
  | JsonPostSignal id b => gated_json b e st (post_signal_json id b (now e) (uuid e))
  | JsonDeleteSignal id b => Ret (delete_signal_json id b st)
  end.

Definition serve_json (r : json_request) (e : env) (st : state)
  : completion response * state :=
  run (remote e) (route_json r e st).

End UntypedRoutes.

(** A signal body whose [address] is the number 7, and one whose [owner]
    is an array. *)
Definition numeric_address : RawBody.t :=
  RawBody.mk None None None None None None None
    (Some (JNumber (Finite 7 0))) None None None None Undefined None.

Definition array_owner : RawBody.t :=
  RawBody.mk (Some "Bar") None None None (Some (JArray [])) None None
    None None None None None Undefined None.

(** A signal body whose [address] is [null] and whose [creator] names
    [alice]. *)
Definition falsy_address : RawBody.t :=
  RawBody.mk None None None None None None None
    (Some JNull) (Some (JString alice)) None None None (Number 2) None.


(* ------------------------------------------------------------------ *)
(** * Proofs *)

(** ** Facts about the insertion-ordered map *)

Module JsMapFacts.
Section Facts.

Context {V : Type}.
Implicit Types (m : JsMap.t V) (k : string) (v : V).

Lemma get_none_iff k m : JsMap.get k m = None <-> ~ In k (JsMap.keys m).
Proof.
  unfold JsMap.get, JsMap.keys.
  induction m as [|[k' v'] m IH]; simpl.
  - tauto.
  - unfold JsMap.has_key at 1; simpl.
    destruct (String.eqb_spec k' k) as [->|Hne]; simpl.
    + split; [discriminate | tauto].
    + rewrite IH. tauto.
Qed.

Lemma get_some_in_keys k m : JsMap.get k m <> None <-> In k (JsMap.keys m).
Proof.
  rewrite get_none_iff. split; [|tauto].
  intros H. destruct (in_dec string_dec k (JsMap.keys m)); tauto.
Qed.

Lemma get_in k v m : JsMap.get k m = Some v -> In (k, v) m.
Proof.
  unfold JsMap.get.
  destruct (find (JsMap.has_key k) m) as [[k' v']|] eqn:Hf; simpl; [|discriminate].
  intros [= ->]. apply find_some in Hf as [Hin Hk].
  unfold JsMap.has_key in Hk; simpl in Hk.
  apply String.eqb_eq in Hk. now subst.
Qed.

Lemma set_fresh k v m : JsMap.get k m = None -> JsMap.set k v m = m ++ [(k, v)].
Proof.
  unfold JsMap.get.
  induction m as [|e m IH]; simpl; [reflexivity|].
  destruct (JsMap.has_key k e); simpl; [discriminate|].
  intros H. now rewrite IH.
Qed.

Lemma get_split k v m :
  JsMap.get k m = Some v ->
  exists m1 m2, m = m1 ++ (k, v) :: m2 /\ JsMap.get k m1 = None.
Proof.
  unfold JsMap.get.
  induction m as [|[k' v'] m IH]; simpl; [discriminate|].
  unfold JsMap.has_key at 1; simpl.
  destruct (String.eqb_spec k' k) as [->|Hne]; simpl.
  - intros [= ->]. now exists [], m.
  - intros H. destruct (IH H) as (m1 & m2 & -> & Hm1).
    exists ((k', v') :: m1), m2. split; [reflexivity|].
    simpl. unfold JsMap.has_key at 1; simpl.
    destruct (String.eqb_spec k' k); [contradiction|exact Hm1].
Qed.

Lemma get_app_here k v m1 m2 :
  JsMap.get k m1 = None -> JsMap.get k (m1 ++ (k, v) :: m2) = Some v.
Proof.
  unfold JsMap.get.
  induction m1 as [|e m1 IH]; simpl.
  - unfold JsMap.has_key; simpl. now rewrite String.eqb_refl.
  - destruct (JsMap.has_key k e); simpl; [discriminate|exact IH].
Qed.

Lemma set_split k v v' m1 m2 :
  JsMap.get k m1 = None ->
  JsMap.set k v' (m1 ++ (k, v) :: m2) = m1 ++ (k, v') :: m2.
Proof.
  unfold JsMap.get.
  induction m1 as [|e m1 IH]; simpl.
  - unfold JsMap.has_key; simpl. now rewrite String.eqb_refl.
  - destruct (JsMap.has_key k e); simpl; [discriminate|].
    intros H. now rewrite IH.
Qed.

Lemma get_set_same k v m : JsMap.get k (JsMap.set k v m) = Some v.
Proof.
  unfold JsMap.get.
  induction m as [|e m IH]; simpl.
  - unfold JsMap.has_key; simpl. now rewrite String.eqb_refl.
  - destruct (JsMap.has_key k e) eqn:He; simpl.
    + unfold JsMap.has_key; simpl. now rewrite String.eqb_refl.
    + now rewrite He.
Qed.

Lemma delete_absent k m : ~ In k (JsMap.keys m) -> JsMap.delete k m = m.
Proof.
  unfold JsMap.delete, JsMap.keys.
  induction m as [|[k' v'] m IH]; simpl; [reflexivity|].
  intros H. unfold JsMap.has_key at 1; simpl.
  destruct (String.eqb_spec k' k) as [->|Hne]; simpl; [tauto|].
  rewrite IH; tauto.
Qed.

Lemma delete_split k v m1 m2 :
  ~ In k (JsMap.keys m1) -> ~ In k (JsMap.keys m2) ->
  JsMap.delete k (m1 ++ (k, v) :: m2) = m1 ++ m2.
Proof.
  intros H1 H2. unfold JsMap.delete.
  rewrite filter_app. simpl.
  unfold JsMap.has_key at 2; simpl. rewrite String.eqb_refl. simpl.
  fold (JsMap.delete k m1). fold (JsMap.delete k m2).
  now rewrite !delete_absent.
Qed.

Lemma get_delete k m : JsMap.get k (JsMap.delete k m) = None.
Proof.
  apply get_none_iff. unfold JsMap.keys, JsMap.delete.
  intros H. apply in_map_iff in H as (e & <- & He).
  apply filter_In in He as [_ He].
  unfold JsMap.has_key in He. now rewrite String.eqb_refl in He.
Qed.

Lemma find_split (sel : V -> bool) v m :
  find sel (JsMap.values m) = Some v ->
  exists k m1 m2,
    m = m1 ++ (k, v) :: m2
    /\ Forall (fun e => sel (snd e) = false) m1
    /\ sel v = true
    /\ forall f, JsMap.mutate sel f m = m1 ++ (k, f v) :: m2.
Proof.
  unfold JsMap.values.
  induction m as [|[k' v'] m IH]; simpl; [discriminate|].
  destruct (sel v') eqn:Hs.
  - intros [= ->]. exists k', [], m. repeat split; auto.
  - intros H. destruct (IH H) as (k & m1 & m2 & -> & Hm1 & Hv & Hmut).
    exists k, ((k', v') :: m1), m2. repeat split; auto.
    intros f. simpl. rewrite ?Hs. now rewrite Hmut.
Qed.

(** Deleting, one after the other, the keys of the entries [doomed]. *)
Lemma fold_delete (doomed m : JsMap.t V) :
  fold_left (fun acc e => JsMap.delete (fst e) acc) doomed m
  = filter (fun e => negb (existsb (String.eqb (fst e)) (JsMap.keys doomed))) m.
Proof.
  revert m. induction doomed as [|d doomed IH]; intros m; simpl.
  - induction m as [|e m IHm]; simpl; [reflexivity|]. now f_equal.
  - rewrite IH. unfold JsMap.delete.
    induction m as [|e m IHm]; simpl; [reflexivity|].
    unfold JsMap.has_key at 1 3.
    destruct (String.eqb_spec (fst e) (fst d)) as [Heq|Hne]; simpl.
    + exact IHm.
    + destruct (existsb (String.eqb (fst e)) (JsMap.keys doomed)); simpl;
        [exact IHm | now f_equal].
Qed.

Lemma fold_delete_selected (sel : string * V -> bool) m :
  NoDup (JsMap.keys m) ->
  fold_left (fun acc e => JsMap.delete (fst e) acc) (filter sel m) m
  = filter (fun e => negb (sel e)) m.
Proof.
  intros Hnd. rewrite fold_delete. apply filter_ext_in.
  intros e He. f_equal.
  destruct (sel e) eqn:Hs.
  - apply existsb_exists. exists (fst e). split; [|apply String.eqb_refl].
    unfold JsMap.keys. apply in_map. now apply filter_In.
  - apply not_true_is_false. intros Hex.
    apply existsb_exists in Hex as (k & Hk & Heq).
    apply String.eqb_eq in Heq. subst k.
    unfold JsMap.keys in Hk. apply in_map_iff in Hk as (e' & Hfst & He').
    apply filter_In in He' as [He' Hs'].
    assert (e' = e) as ->; [|congruence].
    clear Hs Hs'. unfold JsMap.keys in Hnd.
    induction m as [|x m IHm]; [contradiction|].
    simpl in Hnd. inversion Hnd as [|? ? Hx Hnd']; subst.
    destruct He as [->|He], He' as [->|He']; auto.
    * exfalso. apply Hx. rewrite <- Hfst. now apply in_map.
    * exfalso. apply Hx. rewrite Hfst. now apply in_map.
Qed.

Lemma keyed_uncons (id : V -> string) m1 k v m2 :
  keyed id (m1 ++ (k, v) :: m2) ->
  ~ In k (JsMap.keys m1) /\ ~ In k (JsMap.keys m2) /\ id v = k
  /\ keyed id (m1 ++ m2).
Proof.
  unfold keyed, JsMap.keys. intros [Hnd Hall].
  rewrite map_app in Hnd. simpl in Hnd.
  pose proof (NoDup_remove_1 _ _ _ Hnd) as Hnd1.
  pose proof (NoDup_remove_2 _ _ _ Hnd) as Hnd2.
  rewrite in_app_iff in Hnd2.
  apply Forall_app in Hall as [Ha1 Ha2].
  inversion Ha2 as [|? ? Hv Ha2']; subst. simpl in Hv.
  repeat split; try tauto.
  - now rewrite map_app.
  - apply Forall_app. now split.
Qed.

Lemma keyed_replace (id : V -> string) m1 k v v' m2 :
  keyed id (m1 ++ (k, v) :: m2) -> id v' = k ->
  keyed id (m1 ++ (k, v') :: m2).
Proof.
  unfold keyed, JsMap.keys. intros [Hnd Hall] Hid.
  rewrite map_app in *. simpl in *. split; [exact Hnd|].
  apply Forall_app in Hall as [Ha1 Ha2].
  inversion Ha2; subst.
  apply Forall_app. split; [assumption|]. now constructor.
Qed.

Lemma keyed_snoc (id : V -> string) m k v :
  keyed id m -> JsMap.get k m = None -> id v = k -> keyed id (m ++ [(k, v)]).
Proof.
  unfold keyed, JsMap.keys. intros [Hnd Hall] Hget Hid.
  apply get_none_iff in Hget. unfold JsMap.keys in Hget.
  split.
  - rewrite map_app. simpl.
    apply (Permutation_NoDup (Permutation_cons_append _ _)).
    now constructor.
  - apply Forall_app. split; [assumption|]. now repeat constructor.
Qed.

Lemma keyed_filter (id : V -> string) (f : string * V -> bool) m :
  keyed id m -> keyed id (filter f m).
Proof.
  unfold keyed, JsMap.keys. intros [Hnd Hall]. split.
  - clear Hall. induction m as [|e m IH]; simpl; [constructor|].
    inversion Hnd as [|? ? Hx Hnd']; subst.
    destruct (f e); simpl; auto.
    constructor; auto.
    intros Hin. apply Hx. apply in_map_iff in Hin as (e' & <- & He').
    apply in_map. now apply filter_In in He'.
  - apply Forall_forall. intros e He. apply filter_In in He as [He _].
    rewrite Forall_forall in Hall. auto.
Qed.

End Facts.
End JsMapFacts.

(** ** Counting the live signals of a project *)

Section Counting.

Implicit Types (ss : JsMap.t Signal.t) (s : Signal.t) (pid k : string).

Lemma live_count_nil pid : live_count pid [] = 0.
Proof. reflexivity. Qed.

Lemma live_total_nil pid : live_total pid [] = 0.
Proof. reflexivity. Qed.

Lemma live_count_cons pid k s ss :
  live_count pid ((k, s) :: ss)
  = indicator (Signal.projectId s =? pid)%string + live_count pid ss.
Proof.
  unfold live_count, signals_of, JsMap.values. cbn [map snd filter].
  destruct (Signal.projectId s =? pid)%string; cbn [indicator List.length]; lia.
Qed.

Lemma live_total_cons pid k s ss :
  live_total pid ((k, s) :: ss)
  = indicator (Signal.projectId s =? pid)%string * Signal.amount s + live_total pid ss.
Proof.
  unfold live_total, signals_of, JsMap.values. cbn [map snd filter].
  destruct (Signal.projectId s =? pid)%string; cbn [indicator fold_right]; lia.
Qed.

Lemma live_count_app pid ss1 ss2 :
  live_count pid (ss1 ++ ss2) = live_count pid ss1 + live_count pid ss2.
Proof.
  induction ss1 as [|[k s] ss1 IH]; simpl app.
  - rewrite live_count_nil. lia.
  - rewrite !live_count_cons, IH. lia.
Qed.

Lemma live_total_app pid ss1 ss2 :
  live_total pid (ss1 ++ ss2) = live_total pid ss1 + live_total pid ss2.
Proof.
  induction ss1 as [|[k s] ss1 IH]; simpl app.
  - rewrite live_total_nil. lia.
  - rewrite !live_total_cons, IH. lia.
Qed.

Lemma live_count_nonneg pid ss : 0 <= live_count pid ss.
Proof. unfold live_count. lia. Qed.

(** No signal references a project that is not stored. *)
Lemma unreferenced pid (ps : JsMap.t Project.t) ss :
  Forall (fun s => JsMap.get (Signal.projectId s) ps <> None) (JsMap.values ss) ->
  JsMap.get pid ps = None ->
  signals_of pid ss = [].
Proof.
  unfold signals_of, JsMap.values. intros Hall Hget.
  induction ss as [|[k s] ss IH]; simpl; [reflexivity|].
  simpl in Hall. inversion Hall as [|? ? Hs Hall']; subst.
  destruct (String.eqb_spec (Signal.projectId s) pid) as [Heq|Hne].
  - rewrite Heq in Hs. contradiction.
  - now apply IH.
Qed.

(** Removing the signals of one project leaves the others' untouched. *)
Lemma signals_of_cascade pid pid' ss :
  pid' <> pid ->
  signals_of pid'
    (filter (fun e => negb (Signal.projectId (snd e) =? pid)%string) ss)
  = signals_of pid' ss.
Proof.
  unfold signals_of, JsMap.values. intros Hne.
  induction ss as [|[k s] ss IH]; simpl; [reflexivity|].
  destruct (String.eqb_spec (Signal.projectId s) pid) as [Heq|Hne']; simpl.
  - destruct (String.eqb_spec (Signal.projectId s) pid'); [congruence|exact IH].
  - destruct (Signal.projectId s =? pid')%string; now rewrite IH.
Qed.

Lemma pair_count_cons pid address k s ss :
  pair_count pid address ((k, s) :: ss)
  = ((if is_signal_of pid address s then 1 else 0) + pair_count pid address ss)%nat.
Proof.
  unfold pair_count. simpl. now destruct (is_signal_of pid address s).
Qed.

Lemma pair_count_app pid address ss1 ss2 :
  pair_count pid address (ss1 ++ ss2)
  = (pair_count pid address ss1 + pair_count pid address ss2)%nat.
Proof.
  unfold pair_count, JsMap.values. now rewrite map_app, filter_app, length_app.
Qed.

Lemma pair_count_filter pid address (f : string * Signal.t -> bool) ss :
  (pair_count pid address (filter f ss) <= pair_count pid address ss)%nat.
Proof.
  induction ss as [|[k s] ss IH]; simpl; [lia|].
  destruct (f (k, s)); rewrite ?pair_count_cons; lia.
Qed.

Lemma pair_count_none pid address ss :
  find (is_signal_of pid address) (JsMap.values ss) = None ->
  pair_count pid address ss = 0%nat.
Proof.
  unfold pair_count, JsMap.values.
  induction ss as [|[k s] ss IH]; simpl; [reflexivity|].
  destruct (is_signal_of pid address s); [discriminate|exact IH].
Qed.

Lemma is_signal_of_true pid address s :
  is_signal_of pid address s = true <->
  Signal.projectId s = pid /\ Signal.address s = address.
Proof.
  unfold is_signal_of. rewrite andb_true_iff, !String.eqb_eq. tauto.
Qed.

End Counting.

(** ** Facts about the string built-ins *)

Module JsFacts.

Lemma lower_ascii_idem c : Js.lower_ascii (Js.lower_ascii c) = Js.lower_ascii c.
Proof. destruct c as [[] [] [] [] [] [] [] []]; reflexivity. Qed.

Lemma toLowerCase_idem s : Js.toLowerCase (Js.toLowerCase s) = Js.toLowerCase s.
Proof.
  induction s as [|c s IH]; simpl; [reflexivity|].
  now rewrite lower_ascii_idem, IH.
Qed.

Lemma toLowerCase_append s1 s2 :
  Js.toLowerCase (s1 ++ s2)%string = (Js.toLowerCase s1 ++ Js.toLowerCase s2)%string.
Proof. induction s1 as [|c s1 IH]; simpl; congruence. Qed.

Lemma truthy_some a s : Js.truthy a = Some s -> a = Some s /\ s <> "".
Proof.
  destruct a as [x|]; simpl; [|discriminate].
  destruct (String.eqb_spec x ""); [discriminate|].
  intros [= ->]. auto.
Qed.

Lemma truthy_of_nonempty s : s <> "" -> Js.truthy (Some s) = Some s.
Proof.
  intros H. simpl. destruct (String.eqb_spec s ""); [contradiction|reflexivity].
Qed.

End JsFacts.

(** ** The store invariant is preserved by every handler *)

Section Preservation.

Context {E : Ethers}.

Lemma invariant_ext st st' :
  projects st' = projects st -> signals st' = signals st ->
  invariant st -> invariant st'.
Proof.
  intros Hp Hs [H1 H2 H3 H4 H5 H6 H7].
  constructor; unfold counters_ok, one_signal_per_pair, signals_by in *;
    rewrite ?Hp, ?Hs; assumption.
Qed.

Lemma invariant_initial : invariant initial.
Proof.
  constructor.
  - split; constructor.
  - split; constructor.
  - constructor.
  - constructor.
  - constructor.
  - intros pid a. cbn. lia.
  - intros p [].
Qed.

Lemma keyed_get {V : Type} (idf : V -> string) (m : JsMap.t V) k v :
  keyed idf m -> JsMap.get k m = Some v -> idf v = k.
Proof.
  intros [_ Hall] Hget. apply JsMapFacts.get_in in Hget.
  rewrite Forall_forall in Hall. exact (Hall _ Hget).
Qed.

Lemma in_values_split {V : Type} (m1 m2 : JsMap.t V) k v q :
  In q (JsMap.values (m1 ++ (k, v) :: m2)) ->
  q = v \/ In q (JsMap.values (m1 ++ m2)).
Proof.
  unfold JsMap.values. rewrite !map_app, !in_app_iff. simpl. intuition.
Qed.

Lemma in_values_keep {V : Type} (m1 m2 : JsMap.t V) e q :
  In q (JsMap.values (m1 ++ m2)) -> In q (JsMap.values (m1 ++ e :: m2)).
Proof.
  unfold JsMap.values. rewrite !map_app, !in_app_iff. simpl. intuition.
Qed.

Lemma other_id {V : Type} (idf : V -> string) (m1 m2 : JsMap.t V) k v q :
  keyed idf (m1 ++ (k, v) :: m2) ->
  In q (JsMap.values (m1 ++ m2)) -> idf q <> k.
Proof.
  intros Hk Hq.
  apply JsMapFacts.keyed_uncons in Hk as (H1 & H2 & _ & [_ Hall]).
  unfold JsMap.values in Hq. apply in_map_iff in Hq as (e & <- & He).
  rewrite Forall_forall in Hall. rewrite (Hall _ He).
  apply in_app_iff in He as [He|He]; intros <-.
  - apply H1. unfold JsMap.keys. now apply in_map.
  - apply H2. unfold JsMap.keys. now apply in_map.
Qed.

Lemma store_project_split st id p p' :
  keyed Project.id (projects st) ->
  JsMap.get id (projects st) = Some p ->
  Project.id p' = id ->
  exists p1 p2,
    projects st = p1 ++ (id, p) :: p2
    /\ projects (store_project id p' st) = p1 ++ (id, p') :: p2.
Proof.
  intros Hk Hget Hid.
  destruct (JsMapFacts.get_split _ _ _ Hget) as (p1 & p2 & Hps & Hp1).
  exists p1, p2. split; [exact Hps|].
  unfold store_project. simpl. rewrite Hid, Hps.
  rewrite (JsMapFacts.set_split _ _ _ _ _ Hp1).
  now rewrite (JsMapFacts.set_split _ _ _ _ _ Hp1).
Qed.

Lemma counters_at st id p :
  invariant st -> JsMap.get id (projects st) = Some p ->
  Project.id p = id
  /\ Project.supportCount p = live_count id (signals st)
  /\ Project.totalSignal p = live_total id (signals st).
Proof.
  intros Hinv Hget.
  pose proof (keyed_get _ _ _ _ (inv_projects _ Hinv) Hget) as Hid.
  split; [exact Hid|]. rewrite <- Hid.
  apply (inv_counters _ Hinv).
  apply JsMapFacts.get_in in Hget. unfold JsMap.values.
  now apply (in_map snd) in Hget.
Qed.

Lemma store_project_signals st id p : signals (store_project id p st) = signals st.
Proof. reflexivity. Qed.

(** The common shape of an update: the project stored under [id] is
    replaced by [p'] and the signal store becomes that of [st']. *)
Lemma replace_project_invariant st st' p1 id p p' p2 :
  invariant st ->
  projects st = p1 ++ (id, p) :: p2 ->
  projects st' = p1 ++ (id, p') :: p2 ->
  Project.id p' = id ->
  Project.owner p' = Project.owner p ->
  keyed Signal.id (signals st') ->
  Forall (fun s => In (Signal.projectId s) (JsMap.keys (projects st)))
    (JsMap.values (signals st')) ->
  Forall (fun s => 1 <= Signal.amount s) (JsMap.values (signals st')) ->
  (forall pid a, (pair_count pid a (signals st') <= 1)%nat) ->
  (forall pid, pid <> id ->
     live_count pid (signals st') = live_count pid (signals st)
     /\ live_total pid (signals st') = live_total pid (signals st)) ->
  Project.supportCount p' = live_count id (signals st') ->
  Project.totalSignal p' = live_total id (signals st') ->
  invariant st'.
Proof.
  intros Hinv Hp Hp' Hid Howner Hks Href Hamt Hpair Hframe Hcount Htotal.
  destruct Hinv as [I1 I2 I3 I4 I5 I6 I7].
  constructor.
  - rewrite Hp'. apply JsMapFacts.keyed_replace with (v := p); [|exact Hid].
    now rewrite <- Hp.
  - exact Hks.
  - eapply Forall_impl; [|exact Href]. intros s Hs. simpl in Hs.
    apply JsMapFacts.get_some_in_keys.
    rewrite Hp in Hs. rewrite Hp'. unfold JsMap.keys in *.
    rewrite map_app in *. exact Hs.
  - rewrite Hp'. rewrite Hp in I4. unfold JsMap.values in *.
    rewrite map_app in *. apply Forall_app in I4 as [Ha Hb].
    apply Forall_app. split; [exact Ha|].
    simpl in *. inversion Hb; subst. constructor; [congruence|assumption].
  - exact Hamt.
  - exact Hpair.
  - intros q Hq. rewrite Hp' in Hq.
    apply in_values_split in Hq as [->|Hq].
    + rewrite Hid. now split.
    + assert (Hne : Project.id q <> id).
      { eapply other_id; [|exact Hq]. rewrite <- Hp. exact I1. }
      destruct (Hframe _ Hne) as [-> ->].
      apply I7. rewrite Hp. now apply in_values_keep.
Qed.

Lemma post_projects_invariant b now u st :
  invariant st -> fresh u st -> invariant (snd (post_projects b now u st)).
Proof.
  intros Hinv [Hfp _]. unfold post_projects.
  destruct (Js.truthy (Body.name b)) as [name|]; [|exact Hinv].
  destruct (Js.truthy (Body.owner b)) as [owner|]; [|exact Hinv].
  destruct (isAddress owner); [|exact Hinv].
  cbn [negb snd Project.id].
  set (project := Project.mk _ _ _ _ _ _ _ _ _ _ _ _).
  destruct Hinv as [I1 I2 I3 I4 I5 I6 I7].
  constructor; cbn [projects signals with_projects].
  - rewrite (JsMapFacts.set_fresh _ _ _ Hfp).
    now apply JsMapFacts.keyed_snoc.
  - exact I2.
  - eapply Forall_impl; [|exact I3]. intros s Hs. simpl in Hs.
    apply JsMapFacts.get_some_in_keys. apply JsMapFacts.get_some_in_keys in Hs.
    rewrite (JsMapFacts.set_fresh _ _ _ Hfp). unfold JsMap.keys in *.
    rewrite map_app, in_app_iff. now left.
  - rewrite (JsMapFacts.set_fresh _ _ _ Hfp). unfold JsMap.values in *.
    rewrite map_app. apply Forall_app. split; [exact I4|].
    repeat constructor. simpl. apply JsFacts.toLowerCase_idem.
  - exact I5.
  - exact I6.
  - intros q Hq. cbn [projects signals with_projects] in *.
    rewrite (JsMapFacts.set_fresh _ _ _ Hfp) in Hq.
    unfold JsMap.values in Hq. rewrite map_app, in_app_iff in Hq.
    destruct Hq as [Hq|[<-|[]]].
    + now apply I7.
    + unfold live_count, live_total. simpl.
      now rewrite (unreferenced u _ _ I3 Hfp).
Qed.

Lemma put_project_invariant id b now st :
  invariant st -> invariant (snd (put_project id b now st)).
Proof.
  intros Hinv. unfold put_project.
  destruct (JsMap.get id (projects st)) as [p|] eqn:Hget; [|exact Hinv].
  destruct (owner_mismatch b p); [exact Hinv|].
  cbn [snd].
  pose proof (keyed_get _ _ _ _ (inv_projects _ Hinv) Hget) as Hid.
  destruct (store_project_split st id p (apply_update b now p)
              (inv_projects _ Hinv) Hget Hid) as (p1 & p2 & Hp & Hp').
  eapply replace_project_invariant; try eassumption; try reflexivity.
  - rewrite store_project_signals. apply Hinv.
  - rewrite store_project_signals.
    eapply Forall_impl; [|exact (inv_reference _ Hinv)].
    intros s. apply JsMapFacts.get_some_in_keys.
  - apply Hinv.
  - apply (inv_unique _ Hinv).
  - intros; now rewrite store_project_signals.
  - rewrite store_project_signals. simpl.
    apply (counters_at _ _ _ Hinv Hget).
  - rewrite store_project_signals. simpl.
    apply (counters_at _ _ _ Hinv Hget).
Qed.

Lemma signalAmount_bounds a : 1 <= signalAmount a <= 100.
Proof. unfold signalAmount. lia. Qed.

(** The stored signal that a [find] returns, and what mutating or
    deleting it does to the store. *)
Lemma existing_split ss (sel : Signal.t -> bool) ex (f : Signal.t -> Signal.t) :
  keyed Signal.id ss ->
  find sel (JsMap.values ss) = Some ex ->
  Signal.id (f ex) = Signal.id ex ->
  exists s1 s2,
    ss = s1 ++ (Signal.id ex, ex) :: s2
    /\ sel ex = true
    /\ Forall (fun e => sel (snd e) = false) s1
    /\ JsMap.set (Signal.id (f ex)) (f ex) (JsMap.mutate sel f ss)
       = s1 ++ (Signal.id ex, f ex) :: s2
    /\ JsMap.delete (Signal.id ex) ss = s1 ++ s2.
Proof.
  intros Hk Hfind Hid.
  destruct (JsMapFacts.find_split _ _ _ Hfind) as (k & s1 & s2 & -> & Hs1 & Hsel & Hmut).
  destruct (JsMapFacts.keyed_uncons _ _ _ _ _ Hk) as (Hk1 & Hk2 & Hkid & _).
  rewrite Hkid. exists s1, s2. repeat split; auto.
  - rewrite Hmut, Hid, Hkid.
    apply JsMapFacts.set_split. now apply JsMapFacts.get_none_iff.
  - subst k. now apply JsMapFacts.delete_split.
Qed.

Lemma reference_keys st :
  invariant st ->
  Forall (fun s => In (Signal.projectId s) (JsMap.keys (projects st)))
    (JsMap.values (signals st)).
Proof.
  intros Hinv. eapply Forall_impl; [|exact (inv_reference _ Hinv)].
  intros s. apply JsMapFacts.get_some_in_keys.
Qed.

Lemma Forall_values_split {V : Type} (P : V -> Prop) (m1 m2 : JsMap.t V) k v :
  Forall P (JsMap.values (m1 ++ (k, v) :: m2)) <->
  P v /\ Forall P (JsMap.values (m1 ++ m2)).
Proof.
  unfold JsMap.values. rewrite !map_app, !Forall_app. simpl.
  rewrite Forall_cons_iff. tauto.
Qed.

Lemma post_signal_invariant id b now u st :
  invariant st -> fresh u st -> invariant (snd (post_signal id b now u st)).
Proof.
  intros Hinv [_ Hfs]. unfold post_signal.
  destruct (JsMap.get id (projects st)) as [p|] eqn:Hget; [|exact Hinv].
  destruct (Js.truthy (Body.address b)) as [address|]; [|exact Hinv].
  destruct (isAddress address); [|exact Hinv].
  cbn [negb].
  destruct (counters_at _ _ _ Hinv Hget) as (Hid & Hcount & Htotal).
  pose proof (signalAmount_bounds (Body.amount b)) as Hamount.
  set (amount := signalAmount (Body.amount b)) in *.
  destruct (find _ (JsMap.values (signals st))) as [ex|] eqn:Hfind; cbn [snd].
  - (* the address signals again *)
    set (f := accumulate amount (Body.message b) now).
    destruct (existing_split _ _ _ f (inv_signals _ Hinv) Hfind eq_refl)
      as (s1 & s2 & Hss & Hsel & _ & Hset & _).
    apply is_signal_of_true in Hsel as [Hpid _].
    set (p' := set_counters _ _ p).
    set (st1 := with_signals _ st).
    destruct (store_project_split st1 id p p' (inv_projects _ Hinv) Hget Hid)
      as (p1 & p2 & Hp & Hp').
    assert (Hsig : signals (store_project id p' st1) = s1 ++ (Signal.id ex, f ex) :: s2)
      by (cbn [signals store_project with_projects st1 with_signals]; exact Hset).
    eapply replace_project_invariant with (st := st); try eassumption; try reflexivity;
      rewrite Hsig.
    + apply JsMapFacts.keyed_replace with (v := ex); [|reflexivity].
      rewrite <- Hss. apply Hinv.
    + pose proof (reference_keys _ Hinv) as Href. rewrite Hss in Href.
      apply Forall_values_split in Href. apply Forall_values_split. exact Href.
    + pose proof (inv_amount _ Hinv) as Ha. rewrite Hss in Ha.
      apply Forall_values_split in Ha as [Ha1 Ha2].
      apply Forall_values_split. split; [simpl; lia|exact Ha2].
    + intros pid a. pose proof (inv_unique _ Hinv pid a) as Hu.
      unfold signals_by in Hu. fold (pair_count pid a (signals st)) in Hu.
      rewrite Hss in Hu. rewrite pair_count_app, pair_count_cons in *.
      exact Hu.
    + intros pid Hne. rewrite Hss.
      rewrite !live_count_app, !live_total_app, !live_count_cons, !live_total_cons.
      cbn [f accumulate Signal.projectId Signal.amount].
      rewrite Hpid, Hid.
      destruct (String.eqb_spec id pid); [congruence|]. simpl indicator. lia.
    + cbn [p' set_counters Project.supportCount]. rewrite Hcount, Hss.
      now rewrite !live_count_app, !live_count_cons.
    + cbn [p' set_counters Project.totalSignal]. rewrite Htotal, Hss.
      rewrite !live_total_app, !live_total_cons.
      cbn [f accumulate Signal.projectId Signal.amount].
      rewrite Hpid, Hid, String.eqb_refl. simpl indicator. lia.
  - (* a first signal *)
    set (s := Signal.mk u _ _ _ _ _ _).
    set (p' := set_counters _ _ p).
    set (st1 := with_signals _ st).
    destruct (store_project_split st1 id p p' (inv_projects _ Hinv) Hget Hid)
      as (p1 & p2 & Hp & Hp').
    assert (Hsig : signals (store_project id p' st1) = signals st ++ [(u, s)]).
    { cbn [signals store_project with_projects st1 with_signals].
      cbn [s Signal.id]. now apply JsMapFacts.set_fresh. }
    eapply replace_project_invariant with (st := st); try eassumption; try reflexivity;
      rewrite Hsig.
    + apply JsMapFacts.keyed_snoc; [apply Hinv|exact Hfs|reflexivity].
    + unfold JsMap.values. rewrite map_app. apply Forall_app. split.
      * apply (reference_keys _ Hinv).
      * repeat constructor. cbn [snd s Signal.projectId]. rewrite Hid.
        apply JsMapFacts.get_some_in_keys. cbn [projects st1 with_signals] in Hp.
        congruence.
    + unfold JsMap.values. rewrite map_app. apply Forall_app. split.
      * apply (inv_amount _ Hinv).
      * repeat constructor. cbn [snd s Signal.amount]. lia.
    + intros pid a. rewrite pair_count_app, pair_count_cons.
      pose proof (inv_unique _ Hinv pid a) as Hu.
      unfold signals_by in Hu. fold (pair_count pid a (signals st)) in Hu.
      destruct (is_signal_of pid a s) eqn:Hsel; cbn [pair_count].
      * apply is_signal_of_true in Hsel as [<- <-]. cbn [s Signal.projectId Signal.address].
        rewrite (pair_count_none _ _ _ Hfind). cbn. lia.
      * cbn. lia.
    + intros pid Hne.
      rewrite !live_count_app, !live_total_app, !live_count_cons, !live_total_cons.
      cbn [s Signal.projectId Signal.amount]. rewrite Hid.
      destruct (String.eqb_spec id pid); [congruence|].
      rewrite live_count_nil, live_total_nil. simpl indicator. lia.
    + cbn [p' set_counters Project.supportCount]. rewrite Hcount.
      rewrite !live_count_app, !live_count_cons.
      cbn [s Signal.projectId]. rewrite Hid, String.eqb_refl, live_count_nil.
      simpl indicator. lia.
    + cbn [p' set_counters Project.totalSignal]. rewrite Htotal.
      rewrite !live_total_app, !live_total_cons.
      cbn [s Signal.projectId Signal.amount].
      rewrite Hid, String.eqb_refl, live_total_nil. simpl indicator. lia.
Qed.

Lemma live_total_nonneg pid ss :
  Forall (fun s => 1 <= Signal.amount s) (JsMap.values ss) ->
  0 <= live_total pid ss.
Proof.
  induction ss as [|[k s] ss IH]; intros Hall.
  - rewrite live_total_nil. lia.
  - unfold JsMap.values in Hall. simpl in Hall.
    inversion Hall as [|? ? Hs Hall']; subst.
    rewrite live_total_cons. specialize (IH Hall').
    destruct (Signal.projectId s =? pid)%string; simpl indicator; lia.
Qed.

Lemma delete_signal_invariant id b st :
  invariant st -> invariant (snd (delete_signal id b st)).
Proof.
  intros Hinv. unfold delete_signal.
  destruct (JsMap.get id (projects st)) as [p|] eqn:Hget; [|exact Hinv].
  destruct (Js.truthy (Body.address b)) as [address|]; [|exact Hinv].
  destruct (find _ (JsMap.values (signals st))) as [ex|] eqn:Hfind; [|exact Hinv].
  cbn [snd].
  destruct (counters_at _ _ _ Hinv Hget) as (Hid & Hcount & Htotal).
  destruct (existing_split _ _ _ (fun s => s) (inv_signals _ Hinv) Hfind eq_refl)
    as (s1 & s2 & Hss & Hsel & _ & _ & Hdel).
  apply is_signal_of_true in Hsel as [Hpid _].
  set (p' := set_counters _ _ p).
  destruct (store_project_split st id p p' (inv_projects _ Hinv) Hget Hid)
    as (p1 & p2 & Hp & Hp').
  pose proof (inv_amount _ Hinv) as Ha. rewrite Hss in Ha.
  apply Forall_values_split in Ha as [Ha1 Ha2].
  eapply replace_project_invariant with (st := st) (p := p) (p' := p');
    try eassumption; try reflexivity;
    cbn [signals with_signals store_project with_projects]; rewrite Hdel.
  - pose proof (inv_signals _ Hinv) as Hk. rewrite Hss in Hk.
    now apply JsMapFacts.keyed_uncons in Hk.
  - pose proof (reference_keys _ Hinv) as Href. rewrite Hss in Href.
    now apply Forall_values_split in Href.
  - exact Ha2.
  - intros pid a. pose proof (inv_unique _ Hinv pid a) as Hu.
    unfold signals_by in Hu. fold (pair_count pid a (signals st)) in Hu.
    rewrite Hss in Hu. rewrite pair_count_app, pair_count_cons in Hu.
    rewrite pair_count_app. lia.
  - intros pid Hne. rewrite Hss.
    rewrite !live_count_app, !live_total_app, !live_count_cons, !live_total_cons.
    rewrite Hpid, Hid.
    destruct (String.eqb_spec id pid); [congruence|]. simpl indicator. lia.
  - cbn [p' set_counters Project.supportCount]. rewrite Hcount, Hss.
    rewrite !live_count_app, !live_count_cons.
    rewrite Hpid, Hid, String.eqb_refl. simpl indicator.
    pose proof (live_count_nonneg id s1). pose proof (live_count_nonneg id s2). lia.
  - cbn [p' set_counters Project.totalSignal]. rewrite Htotal, Hss.
    rewrite !live_total_app, !live_total_cons.
    rewrite Hpid, Hid, String.eqb_refl. simpl indicator.
    assert (0 <= live_total id (s1 ++ s2)) by now apply live_total_nonneg.
    rewrite live_total_app in H. lia.
Qed.

(** The cascade of [DELETE /projects/:id] keeps exactly the signals of
    the other projects. *)
Lemma cascade_filter pid ss :
  NoDup (JsMap.keys ss) ->
  fold_left (fun m e => JsMap.delete (fst e) m)
    (filter (fun e => (Signal.projectId (snd e) =? pid)%string) ss) ss
  = filter (fun e => negb (Signal.projectId (snd e) =? pid)%string) ss.
Proof. apply JsMapFacts.fold_delete_selected. Qed.

Lemma delete_project_invariant id b st :
  invariant st -> invariant (snd (delete_project id b st)).
Proof.
  intros Hinv. unfold delete_project.
  destruct (JsMap.get id (projects st)) as [p|] eqn:Hget; [|exact Hinv].
  destruct (owner_mismatch b p); [exact Hinv|].
  cbn [snd].
  destruct (counters_at _ _ _ Hinv Hget) as (Hid & _ & _).
  rewrite Hid.
  rewrite (cascade_filter id _ (proj1 (inv_signals _ Hinv))).
  destruct (JsMapFacts.get_split _ _ _ Hget) as (p1 & p2 & Hp & _).
  pose proof (inv_projects _ Hinv) as Hk. rewrite Hp in Hk.
  destruct (JsMapFacts.keyed_uncons _ _ _ _ _ Hk) as (Hk1 & Hk2 & _ & Hk').
  assert (Hdel : JsMap.delete id (projects st) = p1 ++ p2)
    by (rewrite Hp; now apply JsMapFacts.delete_split).
  constructor; cbn [projects signals with_signals with_projects]; rewrite ?Hdel.
  - exact Hk'.
  - apply JsMapFacts.keyed_filter, Hinv.
  - pose proof (reference_keys _ Hinv) as Href.
    rewrite Forall_forall in *. intros s Hs.
    unfold JsMap.values in Hs. apply in_map_iff in Hs as ([k s'] & <- & He).
    apply filter_In in He as [He Hne]. cbn [snd] in *.
    apply negb_true_iff in Hne. apply String.eqb_neq in Hne.
    apply JsMapFacts.get_some_in_keys.
    assert (Hin : In (Signal.projectId s') (JsMap.keys (projects st))).
    { apply Href. unfold JsMap.values. now apply (in_map snd) in He. }
    rewrite Hp in Hin. unfold JsMap.keys in *.
    rewrite map_app, in_app_iff in *. simpl in Hin. intuition congruence.
  - pose proof (inv_owner _ Hinv) as Ho. rewrite Hp in Ho.
    now apply Forall_values_split in Ho.
  - pose proof (inv_amount _ Hinv) as Ha.
    rewrite Forall_forall in *. intros s Hs. apply Ha.
    unfold JsMap.values in *. apply in_map_iff in Hs as (e & <- & He).
    apply filter_In in He as [He _]. now apply in_map.
  - intros pid a. unfold signals_by. cbn [signals with_signals].
    fold (pair_count pid a
            (filter (fun e => negb (Signal.projectId (snd e) =? id)%string) (signals st))).
    pose proof (inv_unique _ Hinv pid a) as Hu.
    unfold signals_by in Hu. fold (pair_count pid a (signals st)) in Hu.
    pose proof (pair_count_filter pid a
                  (fun e => negb (Signal.projectId (snd e) =? id)%string) (signals st)).
    lia.
  - intros q Hq. cbn [projects signals with_signals with_projects] in *.
    rewrite ?Hdel in Hq.
    assert (Hne : Project.id q <> id) by (eapply other_id; eassumption).
    unfold live_count, live_total. rewrite (signals_of_cascade id _ _ Hne).
    apply (inv_counters _ Hinv). rewrite Hp. now apply in_values_keep.
Qed.

(** *** The middleware leaves the two stores alone *)

Lemma run_bind {A B : Type} answer (m : io A) (f : A -> io B) :
  run answer (m' <- m ;; f m') = run answer (f (run answer m)).
Proof.
  induction m as [a|url k IH|line k IH]; simpl; auto.
Qed.

Lemma fetchWhitelist_stores answer now st :
  let st' := snd (run answer (fetchWhitelist now st)) in
  projects st' = projects st /\ signals st' = signals st.
Proof.
  unfold fetchWhitelist, refresh, fetch_failed.
  destruct (_whitelistCache st) as [cache|];
    [destruct (now - _whitelistCacheTime st <? WHITELIST_CACHE_TTL)|];
    simpl; auto;
    destruct answer as [data|]; simpl; auto;
    destruct (map_entries data); simpl; auto.
Qed.

Lemma requireWhitelist_stores field b answer now st :
  let st' := snd (run answer (requireWhitelist field b now st)) in
  projects st' = projects st /\ signals st' = signals st.
Proof.
  unfold requireWhitelist.
  destruct (Js.truthy (candidate field b)) as [addr|]; simpl; auto.
  rewrite run_bind.
  pose proof (fetchWhitelist_stores answer now st) as H.
  destruct (run answer (fetchWhitelist now st)) as [whitelist st'].
  simpl in H. destruct (has whitelist (Js.toLowerCase addr)); simpl; exact H.
Qed.

Lemma fresh_ext u st st' :
  projects st' = projects st -> signals st' = signals st ->
  fresh u st -> fresh u st'.
Proof. unfold fresh. now intros -> ->. Qed.

Lemma gated_invariant b e st handler :
  invariant st ->
  (forall st', invariant st' -> fresh (uuid e) st' -> invariant (snd (handler st'))) ->
  fresh (uuid e) st ->
  invariant (snd (run (remote e) (gated b e st handler))).
Proof.
  intros Hinv Hh Hfresh. unfold gated. rewrite run_bind.
  destruct (requireWhitelist_stores Body.address b (remote e) (now e) st) as [Hp Hs].
  destruct (run (remote e) (requireWhitelist Body.address b (now e) st)) as [g st'].
  cbn [fst snd] in *.
  assert (invariant st') by (eapply invariant_ext; eassumption).
  destruct g; cbn [run snd]; auto.
  apply Hh; auto. eapply fresh_ext; eassumption.
Qed.

Lemma serve_invariant r e st :
  invariant st -> fresh (uuid e) st -> invariant (snd (serve r e st)).
Proof.
  intros Hinv Hfresh. unfold serve.
  destruct r as [b|id b|id b|id b|id b]; cbn [route run].
  - apply gated_invariant; auto. intros; now apply post_projects_invariant.
  - apply gated_invariant; auto. intros; now apply put_project_invariant.
  - now apply delete_project_invariant.
  - apply gated_invariant; auto. intros; now apply post_signal_invariant.
  - now apply delete_signal_invariant.
Qed.

Lemma reachable_invariant st : reachable st -> invariant st.
Proof.
  induction 1 as [|st r e Hr IH Hfresh].
  - apply invariant_initial.
  - now apply serve_invariant.
Qed.

End Preservation.

(** ** Facts about [sort], [slice] and [includes] *)

Module ArrayFacts.
Section Sorting.

Context {A : Type}.
Implicit Types (cmp : A -> A -> Z) (l : list A).

Lemma insert_perm cmp x l : Permutation (x :: l) (Js.insert cmp x l).
Proof.
  induction l as [|y l IH]; simpl; [reflexivity|].
  destruct (cmp x y <=? 0); [reflexivity|].
  rewrite perm_swap. now constructor.
Qed.

Lemma sort_perm cmp l : Permutation l (Js.sort cmp l).
Proof.
  induction l as [|x l IH]; simpl; [constructor|].
  rewrite <- insert_perm. now constructor.
Qed.

Lemma sort_in cmp l x : In x (Js.sort cmp l) <-> In x l.
Proof.
  split; apply Permutation_in; [symmetry|]; apply sort_perm.
Qed.

Lemma sort_length cmp l : List.length (Js.sort cmp l) = List.length l.
Proof. symmetry. apply Permutation_length, sort_perm. Qed.

(** Sorting with [(a, b) => key(b) - key(a)] puts the keys in
    descending order. *)
Lemma insert_descending (key : A -> Z) x l :
  descending key l ->
  descending key (Js.insert (fun a b => key b - key a) x l).
Proof.
  unfold descending.
  induction l as [|y l IH]; intros Hs; simpl.
  - repeat constructor.
  - inversion Hs as [|? ? Hs' Hall]; subst.
    destruct (Z.leb_spec (key y - key x) 0) as [Hle|Hgt].
    + constructor; [exact Hs|].
      constructor; [lia|].
      eapply Forall_impl; [|exact Hall]. simpl. intros; lia.
    + constructor; [now apply IH|].
      eapply Permutation_Forall; [apply insert_perm|].
      constructor; [lia|exact Hall].
Qed.

Lemma sort_descending (key : A -> Z) l :
  descending key (Js.sort (fun a b => key b - key a) l).
Proof.
  induction l as [|x l IH]; simpl; [constructor|].
  now apply insert_descending.
Qed.

Lemma slice_length l start finish :
  0 <= finish - start ->
  Z.of_nat (List.length (Js.slice l start finish)) <= finish - start.
Proof.
  intros H. unfold Js.slice, Js.relative_index.
  rewrite length_firstn, length_skipn.
  destruct (Z.ltb_spec start 0), (Z.ltb_spec finish 0); lia.
Qed.

Lemma slice_within l start finish :
  0 <= finish - start ->
  start + Z.of_nat (List.length (Js.slice l start finish))
  <= Z.max start (Z.of_nat (List.length l)).
Proof.
  intros H. unfold Js.slice, Js.relative_index.
  rewrite length_firstn, length_skipn.
  destruct (Z.ltb_spec start 0), (Z.ltb_spec finish 0); lia.
Qed.

Lemma slice_prefix l n :
  0 <= n -> Js.slice l 0 n = firstn (Z.to_nat n) l.
Proof.
  intros H. unfold Js.slice, Js.relative_index.
  change (0 <? 0) with false. cbv iota.
  destruct (Z.ltb_spec n 0); [lia|].
  rewrite (Z.min_l 0) by lia. change (Z.to_nat 0) with 0%nat. cbn [skipn].
  rewrite Z.sub_0_r.
  destruct (Z.le_ge_cases n (Z.of_nat (List.length l))).
  - now rewrite Z.min_l by lia.
  - rewrite Z.min_r by lia. rewrite Nat2Z.id.
    rewrite firstn_all. symmetry. apply firstn_all2. lia.
Qed.

End Sorting.
End ArrayFacts.

Module StringFacts.

Lemma prefix_iff p s :
  String.prefix p s = true <-> exists post, s = (p ++ post)%string.
Proof.
  revert s. induction p as [|c p IH]; intros s.
  - split; [intros _; now exists s|]. intros _. now destruct s.
  - destruct s as [|d s]; simpl.
    + split; [discriminate|]. intros [post H]. discriminate.
    + destruct (Ascii.ascii_dec c d) as [->|Hne].
      * rewrite IH. split; intros [post H]; exists post; [now subst|].
        now injection H.
      * split; [discriminate|]. intros [post H]. injection H. congruence.
Qed.

(** [includes] decides the occurrence of a contiguous substring. *)
Lemma includes_iff s q :
  Js.includes s q = true <->
  exists pre post, s = (pre ++ q ++ post)%string.
Proof.
  induction s as [|c s IH]; cbn [Js.includes].
  - rewrite orb_false_r. rewrite prefix_iff. split.
    + intros [post H]. now exists "", post.
    + intros (pre & post & H). destruct pre; simpl in H; [now exists post|discriminate].
  - rewrite orb_true_iff, IH.
    rewrite prefix_iff. split.
    + intros [[post H]|(pre & post & H)].
      * now exists "", post.
      * exists (String c pre), post. simpl. now rewrite H.
    + intros (pre & post & H). destruct pre as [|d pre]; simpl in H.
      * left. now exists post.
      * right. injection H as _ H. now exists pre, post.
Qed.

(** A split of the lowercased string comes from a split of the string. *)
Lemma toLowerCase_split s a b :
  Js.toLowerCase s = (a ++ b)%string ->
  exists x y, s = (x ++ y)%string /\ Js.toLowerCase x = a /\ Js.toLowerCase y = b.
Proof.
  revert s. induction a as [|c a IH]; intros s H; simpl in H.
  - now exists "", s.
  - destruct s as [|d s]; simpl in H; [discriminate|].
    injection H as Hc H. destruct (IH _ H) as (x & y & -> & Hx & Hy).
    exists (String d x), y. simpl. now rewrite Hc, Hx.
Qed.

End StringFacts.
(* ------------------------------------------------------------------ *)
(** ** Numbers and numerals as [parseInt] reads them *)

Module NumberFacts.












End NumberFacts.

Module NumeralFacts.










End NumeralFacts.


(** ** What the routes compute *)

Section RouteFacts.

Context {E : Ethers}.

Lemma gated_run b e st handler :
  run (remote e) (gated b e st handler)
  = match Js.truthy (candidate Body.address b) with
    | None => (error 400 "Address required", st)
    | Some addr =>
        if has (fst (snapshot e st)) (Js.toLowerCase addr)
        then handler (snd (snapshot e st))
        else (error 403 "Invite-only. Tag @owockibot on X to request access.",
              snd (snapshot e st))
    end.
Proof.
  unfold gated, requireWhitelist, snapshot. rewrite run_bind.
  destruct (Js.truthy (candidate Body.address b)) as [addr|]; [|reflexivity].
  rewrite run_bind.
  destruct (run (remote e) (fetchWhitelist (now e) st)) as [whitelist st'].
  cbn [fst snd]. now destruct (has whitelist (Js.toLowerCase addr)).
Qed.

Lemma snapshot_stores e st :
  projects (snd (snapshot e st)) = projects st
  /\ signals (snd (snapshot e st)) = signals st.
Proof. apply fetchWhitelist_stores. Qed.

Lemma store_project_get st id p p' :
  JsMap.get id (projects st) = Some p -> Project.id p' = id ->
  JsMap.get id (projects (store_project id p' st)) = Some p'.
Proof.
  intros Hget Hid.
  destruct (JsMapFacts.get_split _ _ _ Hget) as (p1 & p2 & Hps & Hp1).
  unfold store_project. cbn [projects with_projects]. rewrite Hid, Hps.
  rewrite !(JsMapFacts.set_split _ _ _ _ _ Hp1).
  now apply JsMapFacts.get_app_here.
Qed.

Lemma pair_count_forall pid a (ss : JsMap.t Signal.t) :
  Forall (fun e => is_signal_of pid a (snd e) = false) ss ->
  pair_count pid a ss = 0%nat.
Proof.
  induction 1 as [|[k s] ss Hs _ IH]; [reflexivity|].
  rewrite pair_count_cons. cbn [snd] in Hs. now rewrite Hs, IH.
Qed.

Lemma pair_count_zero pid a (ss : JsMap.t Signal.t) :
  pair_count pid a ss = 0%nat ->
  filter (is_signal_of pid a) (JsMap.values ss) = [].
Proof. unfold pair_count. apply length_zero_iff_nil. Qed.

Lemma post_signal_outcome id b now u st :
  invariant st -> fresh u st ->
  signal_outcome id b now u st (post_signal id b now u st).
Proof.
  intros Hinv [_ Hfs]. unfold post_signal.
  destruct (JsMap.get id (projects st)) as [p|] eqn:Hget;
    [|eapply signal_rejected; [reflexivity|lia|reflexivity]].
  destruct (Js.truthy (Body.address b)) as [a|] eqn:Ha;
    [|eapply signal_rejected; [reflexivity|lia|reflexivity]].
  destruct (isAddress a) eqn:Hvalid;
    [|eapply signal_rejected; [reflexivity|lia|reflexivity]].
  cbn [negb].
  destruct (counters_at _ _ _ Hinv Hget) as (Hid & _ & _).
  rewrite Hid.
  destruct (find _ (JsMap.values (signals st))) as [ex|] eqn:Hfind.
  - set (f := accumulate (signalAmount (Body.amount b)) (Body.message b) now).
    destruct (existing_split _ _ _ f (inv_signals _ Hinv) Hfind eq_refl)
      as (s1 & s2 & Hss & Hsel & Hs1 & Hset & _).
    apply pair_count_forall in Hs1.
    assert (Hs2 : pair_count id (Js.toLowerCase a) s2 = 0%nat).
    { pose proof (inv_unique _ Hinv id (Js.toLowerCase a)) as Hu.
      unfold signals_by in Hu.
      fold (pair_count id (Js.toLowerCase a) (signals st)) in Hu.
      rewrite Hss, pair_count_app, pair_count_cons, Hsel in Hu. lia. }
    eapply signal_accumulated with (p := p) (a := a) (ex := ex) (s1 := s1) (s2 := s2);
      eauto.
    apply store_project_get with (p := p); [exact Hget|exact Hid].
  - eapply signal_created with (p := p) (a := a); eauto.
    + now apply pair_count_none.
    + cbn [snd signals store_project with_projects with_signals Signal.id].
      now apply JsMapFacts.set_fresh.
    + apply store_project_get with (p := p); [exact Hget|exact Hid].
Qed.

(** The signal route: the middleware rejects, or the handler runs on a
    state with the same stores. *)
Lemma serve_post_signal id b e st :
  invariant st -> fresh (uuid e) st ->
  (exists msg code, (code = 400 \/ code = 403)
      /\ fst (serve (PostSignal id b) e st) = error code msg
      /\ projects (snd (serve (PostSignal id b) e st)) = projects st
      /\ signals (snd (serve (PostSignal id b) e st)) = signals st)
  \/ (exists st',
        projects st' = projects st /\ signals st' = signals st
        /\ serve (PostSignal id b) e st = post_signal id b (now e) (uuid e) st'
        /\ signal_outcome id b (now e) (uuid e) st' (serve (PostSignal id b) e st)).
Proof.
  intros Hinv Hfresh. unfold serve. cbn [route]. rewrite gated_run.
  destruct (snapshot_stores e st) as [Hp Hs].
  destruct (Js.truthy (candidate Body.address b)) as [addr|].
  - destruct (has _ _).
    + right. exists (snd (snapshot e st)). repeat split; auto.
      apply post_signal_outcome.
      * eapply invariant_ext; eassumption.
      * eapply fresh_ext; eassumption.
    + left. eexists _, 403. repeat split; auto.
  - left. eexists _, 400. repeat split; auto.
Qed.

End RouteFacts.

(* ------------------------------------------------------------------ *)
(** * The claims *)

Section SignalClaims.

Context {E : Ethers}.

Lemma in_values_pair_count pid a (ss : JsMap.t Signal.t) x :
  In x (JsMap.values ss) -> is_signal_of pid a x = true ->
  (1 <= pair_count pid a ss)%nat.
Proof.
  induction ss as [|[k s] ss IH]; intros Hin Hsel; [contradiction|].
  rewrite pair_count_cons. destruct Hin as [Heq|Hin].
  - cbn [snd] in Heq. subst s. rewrite Hsel. lia.
  - specialize (IH Hin Hsel). lia.
Qed.

Lemma filter_single pid a (s1 s2 : JsMap.t Signal.t) k x :
  pair_count pid a s1 = 0%nat -> pair_count pid a s2 = 0%nat ->
  is_signal_of pid a x = true ->
  filter (is_signal_of pid a) (JsMap.values (s1 ++ (k, x) :: s2)) = [x].
Proof.
  intros H1 H2 Hx. unfold JsMap.values. rewrite map_app, filter_app.
  cbn [map filter snd]. rewrite Hx.
  fold (JsMap.values s1). fold (JsMap.values s2).
  now rewrite (pair_count_zero _ _ _ H1), (pair_count_zero _ _ _ H2).
Qed.

Lemma only_match pid a (s1 s2 : JsMap.t Signal.t) k x y :
  pair_count pid a s1 = 0%nat -> pair_count pid a s2 = 0%nat ->
  In y (JsMap.values (s1 ++ (k, x) :: s2)) -> is_signal_of pid a y = true ->
  y = x.
Proof.
  intros H1 H2 Hin Hy.
  apply in_values_split in Hin as [Heq|Hin]; [exact Heq|].
  pose proof (in_values_pair_count pid a (s1 ++ s2) y Hin Hy) as Hc.
  rewrite pair_count_app in Hc. lia.
Qed.

(** C1: in every reachable state, for every stored project, supportCount
    is the number of live signals whose projectId is the project's id and
    totalSignal is the sum of their amounts; every state-changing request
    (create project, signal upsert, signal removal, project deletion,
    project update) leads to a state where both equalities hold again. *)
Theorem C1_counters_equal_live_signals (st : state) :
  reachable st ->
  (forall p, In p (JsMap.values (projects st)) ->
     Project.supportCount p = live_count (Project.id p) (signals st)
     /\ Project.totalSignal p = live_total (Project.id p) (signals st))
  /\ (forall r e, fresh (uuid e) st -> counters_ok (snd (serve r e st))).
Proof.
  intros Hreach. split.
  - exact (inv_counters _ (reachable_invariant _ Hreach)).
  - intros r e Hfresh. apply inv_counters.
    apply serve_invariant; [now apply reachable_invariant|exact Hfresh].
Qed.

(** C2: in every reachable state there is at most one live signal per
    (projectId, address); a successful signal from an address that already
    has a live signal on the project adds the clamped amount to that
    record, creates no second record, and leaves supportCount unchanged. *)
Theorem C2_one_signal_per_address (st : state) :
  reachable st ->
  one_signal_per_pair st
  /\ forall id b e a ex,
      fresh (uuid e) st ->
      Body.address b = Some a ->
      In ex (JsMap.values (signals st)) ->
      Signal.projectId ex = id ->
      Signal.address ex = Js.toLowerCase a ->
      status (fst (serve (PostSignal id b) e st)) < 400 ->
      let st' := snd (serve (PostSignal id b) e st) in
      let ex' := accumulate (signalAmount (Body.amount b)) (Body.message b) (now e) ex in
      signals_by id (Js.toLowerCase a) st = [ex]
      /\ signals_by id (Js.toLowerCase a) st' = [ex']
      /\ Signal.amount ex' = Signal.amount ex + signalAmount (Body.amount b)
      /\ List.length (signals st') = List.length (signals st)
      /\ one_signal_per_pair st'
      /\ exists p p',
          JsMap.get id (projects st) = Some p
          /\ JsMap.get id (projects st') = Some p'
          /\ Project.supportCount p' = Project.supportCount p
          /\ Project.totalSignal p' = Project.totalSignal p + signalAmount (Body.amount b).
Proof.
  intros Hreach. pose proof (reachable_invariant _ Hreach) as Hinv.
  split; [exact (inv_unique _ Hinv)|].
  intros id b e a ex Hfresh Hb Hin Hpid Haddr Hok st' ex'.
  assert (Hsel : is_signal_of id (Js.toLowerCase a) ex = true)
    by now apply is_signal_of_true.
  assert (Hinv' : invariant st') by now apply serve_invariant.
  destruct (serve_post_signal id b e st Hinv Hfresh)
    as [(msg & code & Hcode & Hresp & _)|(st1 & Hp1 & Hs1 & _ & Hout)].
  { rewrite Hresp in Hok. cbn in Hok. lia. }
  destruct Hout as [code msg Hresp Hcode _
                   |p a0 ex0 s1 s2 Hget Ha0 Hvalid Hss Hsel0 Hc1 Hc2 amount ex0' p' Hresp Hss' Hget'
                   |p a0 Hget Ha0 Hvalid Hnone amount s p' Hresp Hss' Hget'].
  - rewrite Hresp in Hok. cbn in Hok. lia.
  - apply JsFacts.truthy_some in Ha0 as [Ha0 _].
    rewrite Hb in Ha0. injection Ha0 as <-.
    rewrite Hs1 in Hss.
    assert (ex = ex0) as <-.
    { eapply only_match; [exact Hc1|exact Hc2| |exact Hsel]. now rewrite <- Hss. }
    fold st' in Hss', Hget'.
    unfold signals_by. rewrite Hss, Hss'.
    repeat split.
    + now apply filter_single.
    + apply filter_single; auto.
    + rewrite !length_app. reflexivity.
    + exact (inv_unique _ Hinv').
    + exists p, p'. rewrite <- Hp1. repeat split; auto.
  - exfalso.
    apply JsFacts.truthy_some in Ha0 as [Ha0 _].
    rewrite Hb in Ha0. injection Ha0 as <-.
    rewrite Hs1 in Hnone.
    pose proof (in_values_pair_count _ _ _ _ Hin Hsel). lia.
Qed.




(** A value that reaches [parseInt] in another string form contributes the
    integer read from its leading digits; a number is printed first. *)
Remark signalAmount_of_rendering :
  signalAmount (Str "2.5") = 2
  /\ signalAmount (Str "1e+21") = 1
  /\ signalAmount (Str "0x40") = 64
  /\ signalAmount (Str "abc") = 1
  /\ signalAmount (Number (10 ^ 21 - 65537)) = 100
  /\ signalAmount (Number (10 ^ 21 - 65536)) = 1
  /\ signalAmount (Number (9 * 10 ^ 21)) = 9
  /\ signalAmount (Number (2 ^ 1024)) = 1.
Proof. repeat split; vm_compute; reflexivity. Qed.

End SignalClaims.

Section RouteClaims.

Context {E : Ethers}.

(** C3: a successful project deletion removes the project and every
    signal that references it; afterwards get-by-id answers not-found and
    the supporter aggregation of any address lists no signal of that
    project. *)
Theorem C3_delete_project_cascades (st : state) (id : string) (b : Body.t) (e : env) :
  reachable st ->
  status (fst (serve (DeleteProject id b) e st)) = 200 ->
  let st' := snd (serve (DeleteProject id b) e st) in
  JsMap.get id (projects st') = None
  /\ Forall (fun s => Signal.projectId s <> id) (JsMap.values (signals st'))
  /\ get_project id st' = error 404 "Project not found"
  /\ forall address,
      get_supporters address st' = error 400 "Invalid address"
      \/ exists addr n total sigs,
          get_supporters address st' = mkResponse 200 (SupporterJson addr n total sigs)
          /\ Forall (fun x => Signal.projectId (SupporterSignal.signal x) <> id) sigs.
Proof.
  intros Hreach Hok. pose proof (reachable_invariant _ Hreach) as Hinv.
  unfold serve in *. cbn [route run] in *. unfold delete_project in *.
  destruct (JsMap.get id (projects st)) as [p|] eqn:Hget; [|discriminate].
  destruct (owner_mismatch b p); [discriminate|].
  destruct (counters_at _ _ _ Hinv Hget) as (Hid & _ & _).
  rewrite Hid in *. clear Hok.
  rewrite (cascade_filter id _ (proj1 (inv_signals _ Hinv))).
  cbn [snd]. set (st' := with_signals _ _).
  assert (Hgone : JsMap.get id (projects st') = None) by apply JsMapFacts.get_delete.
  assert (Hsig : Forall (fun s => Signal.projectId s <> id) (JsMap.values (signals st'))).
  { apply Forall_forall. intros s Hs. cbn [st' snd signals with_signals] in Hs.
    unfold JsMap.values in Hs. apply in_map_iff in Hs as (x & <- & Hx).
    apply filter_In in Hx as [_ Hx]. apply negb_true_iff in Hx.
    now apply String.eqb_neq. }
  repeat split; auto.
  - unfold get_project. now rewrite Hgone.
  - intros address. unfold get_supporters.
    destruct (isAddress address); [right|now left]. cbn [negb].
    do 4 eexists. split; [reflexivity|].
    apply Forall_forall. intros x Hx.
    apply ArrayFacts.sort_in in Hx. apply in_map_iff in Hx as (s & <- & Hs).
    apply filter_In in Hs as [Hs _]. cbn [SupporterSignal.signal].
    rewrite Forall_forall in Hsig. now apply Hsig.
Qed.

Lemma candidate_of_address b a :
  Body.address b = Some a -> a <> "" ->
  Js.truthy (candidate Body.address b) = Some a.
Proof.
  intros Hb Ha. unfold candidate. rewrite Hb.
  cbn [Js.or_else Js.truthy].
  destruct (String.eqb_spec a ""); [contradiction|].
  cbn [Js.truthy]. destruct (String.eqb_spec a ""); [contradiction|reflexivity].
Qed.

(** C10: signal removal does not validate the address.  For an existing
    project and any non-empty address, removal answers 404 "Signal not
    found" (and changes nothing) when no live signal matches the
    lowercased address, and never answers with a 400 validation error;
    signal upsert rejects an address that is not well formed. *)
Theorem C10_removal_skips_address_validation
    (st : state) (id : string) (b : Body.t) (e : env) (a : string) (p : Project.t) :
  reachable st ->
  JsMap.get id (projects st) = Some p ->
  Body.address b = Some a ->
  a <> "" ->
  (signals_by id (Js.toLowerCase a) st = [] ->
   serve (DeleteSignal id b) e st = (error 404 "Signal not found", st))
  /\ status (fst (serve (DeleteSignal id b) e st)) <> 400
  /\ (isAddress a = false ->
      (fst (serve (PostSignal id b) e st) = error 400 "Invalid address"
       \/ fst (serve (PostSignal id b) e st)
          = error 403 "Invite-only. Tag @owockibot on X to request access.")
      /\ projects (snd (serve (PostSignal id b) e st)) = projects st
      /\ signals (snd (serve (PostSignal id b) e st)) = signals st).
Proof.
  intros Hreach Hget Hb Ha. pose proof (reachable_invariant _ Hreach) as Hinv.
  destruct (counters_at _ _ _ Hinv Hget) as (Hid & _ & _).
  assert (Htruthy : Js.truthy (Body.address b) = Some a)
    by (rewrite Hb; now apply JsFacts.truthy_of_nonempty).
  split; [|split].
  - intros Hnone. unfold serve. cbn [route run]. unfold delete_signal.
    rewrite Hget, Htruthy, Hid.
    unfold signals_by in Hnone.
    destruct (find _ (JsMap.values (signals st))) as [ex|] eqn:Hfind; [|reflexivity].
    apply find_some in Hfind as [Hin Hsel].
    assert (Hx : In ex (filter (is_signal_of id (Js.toLowerCase a))
                          (JsMap.values (signals st)))) by now apply filter_In.
    rewrite Hnone in Hx. contradiction.
  - unfold serve. cbn [route run]. unfold delete_signal.
    rewrite Hget, Htruthy.
    destruct (find _ (JsMap.values (signals st))); cbn; discriminate.
  - intros Hbad. unfold serve. cbn [route]. rewrite gated_run.
    rewrite (candidate_of_address _ _ Hb Ha).
    destruct (snapshot_stores e st) as [Hp Hs].
    destruct (has _ _); [|auto].
    unfold post_signal. rewrite Hp, Hget, Htruthy, Hbad. cbn [negb fst snd]. auto.
Qed.

(** C6, as amended: when an update names a non-empty owner that differs
    (case-insensitively) from the stored owner of an existing project,
    the update fails and both stores are unchanged; the failure is an
    authorization error (403) when the request carries a candidate address
    for the access gate and the gate's 400 "Address required" when it
    carries none. *)
Theorem C6_owner_mismatch_rejected
    (st : state) (id : string) (b : Body.t) (e : env) (p : Project.t) (o : string) :
  reachable st ->
  JsMap.get id (projects st) = Some p ->
  Body.owner b = Some o ->
  o <> "" ->
  Js.toLowerCase o <> Js.toLowerCase (Project.owner p) ->
  let out := serve (PutProject id b) e st in
  projects (snd out) = projects st
  /\ signals (snd out) = signals st
  /\ JsMap.get id (projects (snd out)) = Some p
  /\ ((Js.truthy (candidate Body.address b) = None
       /\ fst out = error 400 "Address required")
      \/ (Js.truthy (candidate Body.address b) <> None
          /\ status (fst out) = 403
          /\ (fst out = error 403 "Not project owner"
              \/ fst out = error 403 "Invite-only. Tag @owockibot on X to request access."))).
Proof.
  intros Hreach Hget Hb Ho Hdiff out.
  pose proof (reachable_invariant _ Hreach) as Hinv.
  assert (Hlow : Js.toLowerCase (Project.owner p) = Project.owner p).
  { pose proof (inv_owner _ Hinv) as Hall. rewrite Forall_forall in Hall.
    apply Hall. apply JsMapFacts.get_in in Hget.
    unfold JsMap.values. now apply (in_map snd) in Hget. }
  assert (Hmis : owner_mismatch b p = true).
  { unfold owner_mismatch. rewrite Hb, (JsFacts.truthy_of_nonempty _ Ho).
    apply negb_true_iff, String.eqb_neq. congruence. }
  unfold out, serve. cbn [route]. rewrite gated_run.
  destruct (snapshot_stores e st) as [Hp Hs].
  destruct (Js.truthy (candidate Body.address b)) as [addr|].
  - destruct (has _ _).
    + unfold put_project. rewrite Hp, Hget, Hmis. cbn [fst snd].
      rewrite Hp, Hget. repeat split; auto. right. repeat split; auto. discriminate.
    + cbn [fst snd]. rewrite Hp, Hget. repeat split; auto.
      right. repeat split; auto. discriminate.
  - cbn [fst snd]. repeat split; auto.
Qed.

(** C7: the allow-list cache answers from the cache, with no external
    call, while it is populated and younger than five minutes; when the
    refresh fails it returns the previous set unchanged if there is one
    (expired or not) and the empty set otherwise, as an ordinary result. *)
Theorem C7_allow_list_cache (now : Z) (st : state) :
  (forall cache,
     _whitelistCache st = Some cache ->
     now - _whitelistCacheTime st < 5 * 60 * 1000 ->
     fetchWhitelist now st = Ret (cache, st)
     /\ forall answer, fetches answer (fetchWhitelist now st) = 0%nat)
  /\ (forall answer,
        fetch_fails answer ->
        run answer (fetchWhitelist now st)
        = (match _whitelistCache st with Some cache => cache | None => [] end, st)).
Proof.
  split.
  - intros cache Hc Hyoung. unfold fetchWhitelist. rewrite Hc.
    destruct (Z.ltb_spec (now - _whitelistCacheTime st) WHITELIST_CACHE_TTL) as [_|Hge];
      [split; reflexivity|].
    unfold WHITELIST_CACHE_TTL in Hge. lia.
  - intros answer Hfail. unfold fetchWhitelist, refresh, fetch_failed.
    destruct (_whitelistCache st) as [cache|];
      [destruct (now - _whitelistCacheTime st <? WHITELIST_CACHE_TTL);
       [reflexivity|]|];
      destruct answer as [data|]; cbn [run]; cbn [fetch_fails] in Hfail;
      rewrite ?Hfail; reflexivity.
Qed.

Lemma truthy_candidate field b :
  Js.truthy (candidate field b) = first_nonempty (gate_fields field b).
Proof.
  unfold candidate, gate_fields.
  generalize (field b), (Body.creator b), (Body.participant b), (Body.sender b),
    (Body.from b), (Body.address b).
  intros f1 f2 f3 f4 f5 f6.
  cbn [first_nonempty].
  repeat match goal with
         | |- Js.truthy (Js.or_else ?f _) = _ =>
             let s := fresh "s" in
             let H := fresh "H" in
             destruct f as [s|]; cbn [Js.or_else];
             [destruct (s =? "")%string eqn:H; [|cbn [Js.truthy]; now rewrite H]|]
         end;
    reflexivity.
Qed.

(** C9: the decision of the access gate is a function of the first
    non-empty value among the configured field, creator, participant,
    sender, from and address; a project is created for an owner that is
    not on the allow-list when that value is an allow-listed address. *)
Theorem C9_gate_reads_candidate_only :
  (forall field b1 b2 now st answer,
     first_nonempty (gate_fields field b1) = first_nonempty (gate_fields field b2) ->
     run answer (requireWhitelist field b1 now st)
     = run answer (requireWhitelist field b2 now st))
  /\ (forall st b e name owner addr,
        Js.truthy (Body.name b) = Some name ->
        Js.truthy (Body.owner b) = Some owner ->
        isAddress owner = true ->
        first_nonempty (gate_fields Body.address b) = Some addr ->
        has (fst (snapshot e st)) (Js.toLowerCase addr) = true ->
        has (fst (snapshot e st)) (Js.toLowerCase owner) = false ->
        exists p,
          fst (serve (PostProjects b) e st) = mkResponse 201 (ProjectJson p)
          /\ Project.owner p = Js.toLowerCase owner
          /\ JsMap.get (uuid e) (projects (snd (serve (PostProjects b) e st))) = Some p).
Proof.
  split.
  - intros field b1 b2 now st answer Heq. unfold requireWhitelist.
    now rewrite !truthy_candidate, Heq.
  - intros st b e name owner addr Hname Howner Hvalid Hcand Hlisted _.
    unfold serve. cbn [route]. rewrite gated_run, truthy_candidate, Hcand, Hlisted.
    unfold post_projects. rewrite Hname, Howner, Hvalid. cbn [negb fst snd].
    eexists. split; [reflexivity|]. split; [reflexivity|].
    cbn [projects with_projects Project.id]. apply JsMapFacts.get_set_same.
Qed.

End RouteClaims.

Section QueryClaims.

Lemma list_sort_length sort results :
  List.length (list_sort sort results) = List.length results.
Proof.
  unfold list_sort.
  repeat match goal with
         | |- context [match ?x with _ => _ end] => destruct x
         end; apply ArrayFacts.sort_length.
Qed.

(** C5, as amended: for every list query whose limit does not parse to
    a negative number, the page holds at most min(limit, 100) projects,
    where limit is the parsed limit, or 50 when it is absent, does not
    parse or is 0; offset + returned-count <= total whenever
    offset <= total, and an offset past the total yields an empty page. *)
Theorem C5_pagination_bounds (qs : Query.t) (st : state) :
  0 <= Js.or_default (Js.parseInt (Query.limit qs)) 50 ->
  exists page total offset limit,
    get_projects qs st = mkResponse 200 (ListJson page total offset limit)
    /\ limit = Z.min (Js.or_default (Js.parseInt (Query.limit qs)) 50) 100
    /\ (Js.parseInt (Query.limit qs) = Js.NaN -> limit = 50)
    /\ offset = Js.or_default (Js.parseInt (Query.offset qs)) 0
    /\ total = Z.of_nat (List.length (list_filter qs (JsMap.values (projects st))))
    /\ Z.of_nat (List.length page) <= limit <= 100
    /\ offset + Z.of_nat (List.length page) <= Z.max offset total.
Proof.
  intros Hlimit. unfold get_projects.
  set (results := list_sort _ _).
  set (start := Js.or_default (Js.parseInt (Query.offset qs)) 0).
  set (count := Z.min _ 100).
  do 4 eexists. split; [reflexivity|].
  split; [reflexivity|].
  split; [intros Hnan; unfold count; now rewrite Hnan|].
  split; [reflexivity|].
  split; [unfold results; now rewrite list_sort_length|].
  assert (Hcount : 0 <= start + count - start) by (unfold count; lia).
  pose proof (ArrayFacts.slice_length results start (start + count) Hcount).
  pose proof (ArrayFacts.slice_within results start (start + count) Hcount).
  unfold count in *. lia.
Qed.

Lemma includes_lower_iff q s :
  Js.includes (Js.toLowerCase s) (Js.toLowerCase q) = true <-> occurs_ci q s.
Proof.
  rewrite StringFacts.includes_iff. unfold occurs_ci. split.
  - intros (pre & post & H).
    apply StringFacts.toLowerCase_split in H as (x & y & -> & Hx & Hy).
    apply StringFacts.toLowerCase_split in Hy as (m & z & -> & Hm & Hz).
    now exists x, m, z.
  - intros (pre & mid & post & -> & Hmid).
    exists (Js.toLowerCase pre), (Js.toLowerCase post).
    now rewrite !JsFacts.toLowerCase_append, Hmid.
Qed.

Lemma search_match_iff q p :
  search_match (Js.toLowerCase q) p = true <-> search_code_match q p.
Proof.
  unfold search_match, search_code_match.
  rewrite !orb_true_iff, !includes_lower_iff, existsb_exists.
  split.
  - intros [[H|H]|(t & Ht & H)]; auto.
    right. right. exists t. split; [exact Ht|].
    now apply StringFacts.includes_iff.
  - intros [H|[H|(t & Ht & H)]]; auto.
    right. exists t. split; [exact Ht|].
    now apply StringFacts.includes_iff.
Qed.

(** C8, as amended: for every search query of length at least 2 whose
    limit does not parse to a negative number, a project is among the
    ranked matches if and only if the query occurs case-insensitively in
    its name or in its description, or the lowercased query occurs in one
    of its tags as stored (case-sensitively); the result is the ranked
    matches in descending order of support count, truncated to the limit
    (20 when the limit is absent, does not parse or is 0). *)
Theorem C8_search_results (qs : Query.t) (st : state) (q : string) :
  Query.q qs = Some q ->
  (2 <= String.length q)%nat ->
  0 <= Js.or_default (Js.parseInt (Query.limit qs)) 20 ->
  exists ranked,
    get_search qs st
    = mkResponse 200
        (SearchJson
           (firstn (Z.to_nat (Js.or_default (Js.parseInt (Query.limit qs)) 20)) ranked))
    /\ (Js.parseInt (Query.limit qs) = Js.NaN ->
        Js.or_default (Js.parseInt (Query.limit qs)) 20 = 20)
    /\ descending Project.supportCount ranked
    /\ (forall p, In p ranked <->
                  In p (JsMap.values (projects st)) /\ search_code_match q p).
Proof.
  intros Hq Hlen Hlimit. unfold get_search. rewrite Hq.
  assert (Hne : q <> "") by (intros ->; simpl in Hlen; lia).
  rewrite (JsFacts.truthy_of_nonempty _ Hne).
  destruct (Nat.ltb_spec (String.length q) 2) as [Hlt|_]; [lia|].
  eexists. split; [|split; [|split]].
  - rewrite ArrayFacts.slice_prefix by exact Hlimit. reflexivity.
  - intros Hnan. now rewrite Hnan.
  - apply ArrayFacts.sort_descending.
  - intros p. rewrite ArrayFacts.sort_in, filter_In, search_match_iff. tauto.
Qed.

End QueryClaims.

(* ------------------------------------------------------------------ *)
(** * The claims on the concrete run *)

Section Run.

#[local] Existing Instance plainEthers.

Ltac reach :=
  unfold signaled_twice, signaled_once, registered;
  repeat first
    [ exact reachable_initial
    | apply reachable_serve
    | split; reflexivity ].

Lemma C1_witness :
  Forall (fun p => Project.supportCount p = 1 /\ Project.totalSignal p = 8)
    (JsMap.values (projects signaled_twice)).
Proof.
  assert (Hreach : reachable signaled_twice) by reach.
  apply Forall_forall. intros p Hp.
  destruct (proj1 (C1_counters_equal_live_signals signaled_twice Hreach) p Hp)
    as [Hc Ht].
  destruct Hp as [<-|[]]. split; [exact Hc|exact Ht].
Defined.

Lemma C2_witness :
  signals_by "p-1" alice signaled_twice
  = [Signal.mk "s-1" "p-1" alice 8 None 2000 (Some 3000)].
Proof.
  assert (Hreach : reachable signaled_once) by reach.
  assert (Hfresh : fresh (uuid (at_time 3000 "s-2")) signaled_once)
    by (split; reflexivity).
  assert (Hin : In first_signal (JsMap.values (signals signaled_once)))
    by (left; reflexivity).
  assert (Hok : status (fst (serve (PostSignal "p-1" (signal_body alice (Number 3)))
                               (at_time 3000 "s-2") signaled_once)) < 400)
    by (vm_compute; reflexivity).
  destruct (proj2 (C2_one_signal_per_address signaled_once Hreach)
              "p-1" (signal_body alice (Number 3)) (at_time 3000 "s-2") alice
              first_signal Hfresh eq_refl Hin eq_refl eq_refl Hok)
    as (_ & H & _).
  exact H.
Defined.

Lemma C3_witness :
  get_project "p-1"
    (snd (serve (DeleteProject "p-1" (update_body "Foo" (Some alice) None))
            (at_time 4000 "u-4") signaled_twice))
  = error 404 "Project not found".
Proof.
  assert (Hreach : reachable signaled_twice) by reach.
  assert (Hok : status (fst (serve (DeleteProject "p-1" (update_body "Foo" (Some alice) None))
                               (at_time 4000 "u-4") signaled_twice)) = 200)
    by reflexivity.
  destruct (C3_delete_project_cascades signaled_twice "p-1"
              (update_body "Foo" (Some alice) None) (at_time 4000 "u-4") Hreach Hok)
    as (_ & _ & H & _).
  exact H.
Defined.


Lemma C5_witness :
  exists page total offset limit,
    get_projects (list_query (Some "support") (Some "1") None) signaled_twice
    = mkResponse 200 (ListJson page total offset limit)
    /\ Z.of_nat (List.length page) <= 1.
Proof.
  assert (Hlimit : 0 <= Js.or_default
                          (Js.parseInt (Query.limit (list_query (Some "support") (Some "1") None)))
                          50)
    by (vm_compute; discriminate).
  destruct (C5_pagination_bounds (list_query (Some "support") (Some "1") None)
              signaled_twice Hlimit)
    as (page & total & offset & limit & Hresp & Hl & _ & _ & _ & Hlen & _).
  exists page, total, offset, limit. split; [exact Hresp|].
  rewrite Hl in Hlen. vm_compute (Z.min _ _) in Hlen. exact (proj1 Hlen).
Defined.

Lemma C6_witness :
  status (fst (serve (PutProject "p-1" (update_body "Bar" (Some bob) (Some alice)))
                 (at_time 4000 "u-4") registered)) = 403
  /\ JsMap.get "p-1"
       (projects (snd (serve (PutProject "p-1" (update_body "Bar" (Some bob) (Some alice)))
                         (at_time 4000 "u-4") registered)))
     = Some foo.
Proof.
  assert (Hreach : reachable registered) by reach.
  assert (Hne : bob <> "") by discriminate.
  assert (Hdiff : Js.toLowerCase bob <> Js.toLowerCase (Project.owner foo))
    by discriminate.
  destruct (C6_owner_mismatch_rejected registered "p-1"
              (update_body "Bar" (Some bob) (Some alice)) (at_time 4000 "u-4") foo bob
              Hreach eq_refl eq_refl Hne Hdiff)
    as (_ & _ & Hsame & [(Hnone & _)|(_ & Hstatus & _)]).
  - vm_compute in Hnone. discriminate Hnone.
  - split; [exact Hstatus|exact Hsame].
Defined.

Lemma C7_witness :
  fetchWhitelist 2000 registered = Ret ([alice; bob], registered)
  /\ run FetchError (fetchWhitelist 999000 registered) = ([alice; bob], registered).
Proof.
  destruct (C7_allow_list_cache 2000 registered) as [Hfresh _].
  destruct (C7_allow_list_cache 999000 registered) as [_ Hstale].
  split.
  - apply (Hfresh [alice; bob]); [reflexivity|vm_compute; reflexivity].
  - apply (Hstale FetchError). exact I.
Defined.

Lemma C8_witness :
  exists ranked,
    get_search (search_query "fo" None) registered
    = mkResponse 200 (SearchJson (firstn 20 ranked))
    /\ In foo ranked.
Proof.
  assert (Hlen : (2 <= String.length "fo")%nat) by (vm_compute; lia).
  assert (Hlimit : 0 <= Js.or_default (Js.parseInt (Query.limit (search_query "fo" None))) 20)
    by (vm_compute; discriminate).
  destruct (C8_search_results (search_query "fo" None) registered "fo"
              eq_refl Hlen Hlimit) as (ranked & Hresp & _ & _ & Hin).
  exists ranked. split; [exact Hresp|].
  apply Hin. split; [left; reflexivity|].
  left. exists "", "Fo", "o". split; reflexivity.
Defined.

Lemma C9_witness :
  exists p,
    fst (serve (PostProjects (project_body "Bar" carol alice [])) (at_time 5000 "p-2")
           registered)
    = mkResponse 201 (ProjectJson p)
    /\ Project.owner p = carol
    /\ has [alice; bob] carol = false.
Proof.
  destruct C9_gate_reads_candidate_only as [_ H].
  destruct (H registered (project_body "Bar" carol alice []) (at_time 5000 "p-2")
              "Bar" carol alice eq_refl eq_refl eq_refl eq_refl eq_refl eq_refl)
    as (p & Hresp & Howner & _).
  exists p. repeat split; [exact Hresp|exact Howner].
Defined.

Lemma C10_witness :
  serve (DeleteSignal "p-1" (signal_body "not-an-address" Undefined))
    (at_time 4000 "u-4") registered
  = (error 404 "Signal not found", registered).
Proof.
  assert (Hreach : reachable registered) by reach.
  assert (Hne : "not-an-address" <> "") by discriminate.
  destruct (C10_removal_skips_address_validation registered "p-1"
              (signal_body "not-an-address" Undefined) (at_time 4000 "u-4")
              "not-an-address" foo Hreach eq_refl eq_refl Hne) as (H & _).
  apply H. reflexivity.
Defined.


(** C5 fails as stated: with one project stored and offset 5 the page is
    empty, and 5 + 0 exceeds the total of 1. *)
Lemma C5_counterexample :
  ~ pagination_claim (list_query None None (Some "5")) registered.
Proof.
  intros (page & total & offset & limit & Hjson & Hsum & _).
  vm_compute in Hjson. injection Hjson as <- <- <- <-.
  simpl in Hsum. lia.
Qed.

(** C6 fails as stated: an empty owner string is supplied and differs
    from the stored owner, yet the update is applied; and a differing
    owner without any candidate address is answered with the gate's 400,
    which is no authorization error. *)
Lemma C6_counterexample :
  ~ owner_claim "p-1" (update_body "Bar" (Some "") (Some alice))
      (at_time 4000 "u-4") registered
  /\ ~ owner_claim "p-1" (update_body "Bar" (Some bob) None)
        (at_time 4000 "u-4") registered.
Proof.
  split; intros H.
  - destruct (H foo "" eq_refl eq_refl) as [Hstatus _]; [discriminate|].
    vm_compute in Hstatus. discriminate Hstatus.
  - destruct (H foo bob eq_refl eq_refl) as [Hstatus _]; [discriminate|].
    vm_compute in Hstatus. discriminate Hstatus.
Qed.

(** C8 fails as stated: the stored project carries the tag DeFi, which
    the query defi matches case-insensitively, yet the search returns
    nothing. *)
Lemma C8_counterexample :
  ~ search_claim (search_query "defi" None) registered "defi".
Proof.
  intros (results & Hjson & Hiff).
  vm_compute in Hjson. injection Hjson as <-.
  apply (proj2 (Hiff foo (or_introl eq_refl))).
  right. right. exists "DeFi". split; [left; reflexivity|].
  exists "", "DeFi", "". split; reflexivity.
Qed.

End Run.

(* ------------------------------------------------------------------ *)
(** * Further properties of the routes *)

Section GateProperties.

Context {E : Ethers}.

Lemma post_projects_rejected b now u st :
  400 <= status (fst (post_projects b now u st)) ->
  snd (post_projects b now u st) = st.
Proof.
  unfold post_projects.
  destruct (Js.truthy (Body.name b)); [|reflexivity].
  destruct (Js.truthy (Body.owner b)); [|reflexivity].
  destruct (isAddress _); cbn; [lia|reflexivity].
Qed.

Lemma put_project_rejected id b now st :
  400 <= status (fst (put_project id b now st)) ->
  snd (put_project id b now st) = st.
Proof.
  unfold put_project.
  destruct (JsMap.get id (projects st)); [|reflexivity].
  destruct (owner_mismatch b t); cbn; [reflexivity|lia].
Qed.

Lemma delete_project_rejected id b st :
  400 <= status (fst (delete_project id b st)) ->
  snd (delete_project id b st) = st.
Proof.
  unfold delete_project.
  destruct (JsMap.get id (projects st)); [|reflexivity].
  destruct (owner_mismatch b t); cbn; [reflexivity|lia].
Qed.

Lemma post_signal_rejected id b now u st :
  400 <= status (fst (post_signal id b now u st)) ->
  snd (post_signal id b now u st) = st.
Proof.
  unfold post_signal.
  destruct (JsMap.get id (projects st)); [|reflexivity].
  destruct (Js.truthy (Body.address b)); [|reflexivity].
  destruct (isAddress _); [|reflexivity].
  cbn [negb]. destruct (find _ _); cbn; lia.
Qed.

Lemma delete_signal_rejected id b st :
  400 <= status (fst (delete_signal id b st)) ->
  snd (delete_signal id b st) = st.
Proof.
  unfold delete_signal.
  destruct (JsMap.get id (projects st)); [|reflexivity].
  destruct (Js.truthy (Body.address b)); [|reflexivity].
  destruct (find _ _); cbn; [lia|reflexivity].
Qed.

Lemma handler_rejected r e st :
  400 <= status (fst (handler_of r e st)) -> snd (handler_of r e st) = st.
Proof.
  destruct r; cbn [handler_of];
    auto using post_projects_rejected, put_project_rejected, delete_project_rejected,
      post_signal_rejected, delete_signal_rejected.
Qed.

Lemma handler_status r e st :
  In (status (fst (handler_of r e st))) [200; 201; 400; 403; 404].
Proof.
  destruct r as [b|id b|id b|id b|id b]; cbn [handler_of].
  - unfold post_projects.
    destruct (Js.truthy (Body.name b)); [|cbn; tauto].
    destruct (Js.truthy (Body.owner b)); [|cbn; tauto].
    destruct (isAddress _); cbn; tauto.
  - unfold put_project.
    destruct (JsMap.get id (projects st)); [|cbn; tauto].
    destruct (owner_mismatch b t); cbn; tauto.
  - unfold delete_project.
    destruct (JsMap.get id (projects st)); [|cbn; tauto].
    destruct (owner_mismatch b t); cbn; tauto.
  - unfold post_signal.
    destruct (JsMap.get id (projects st)); [|cbn; tauto].
    destruct (Js.truthy (Body.address b)); [|cbn; tauto].
    destruct (isAddress _); [|cbn; tauto].
    cbn [negb]. destruct (find _ _); cbn; tauto.
  - unfold delete_signal.
    destruct (JsMap.get id (projects st)); [|cbn; tauto].
    destruct (Js.truthy (Body.address b)); [|cbn; tauto].
    destruct (find _ _); cbn; tauto.
Qed.

(** Serving a request: the gate of a gated route, then the handler. *)
Lemma serve_run r e st :
  serve r e st
  = if is_gated r
    then match first_nonempty (gate_fields Body.address (body_of r)) with
         | None => (error 400 "Address required", st)
         | Some addr =>
             if has (fst (snapshot e st)) (Js.toLowerCase addr)
             then handler_of r e (snd (snapshot e st))
             else (error 403 "Invite-only. Tag @owockibot on X to request access.",
                   snd (snapshot e st))
         end
    else handler_of r e st.
Proof.
  unfold serve.
  destruct r; cbn [route is_gated body_of handler_of run];
    try reflexivity; now rewrite gated_run, truthy_candidate.
Qed.

End GateProperties.
(* ------------------------------------------------------------------ *)
(** ** Requests whose address fields are not strings *)

Section UntypedFacts.

Context {E : Ethers}.

Lemma gated_json_run b e st handler :
  run (remote e) (gated_json b e st handler)
  = if negb (truthy_json (candidate_json RawBody.address b))
    then (Normal (error 400 "Address required"), st)
    else match candidate_json RawBody.address b with
         | Some (JString a) =>
             if has (fst (snapshot e st)) (Js.toLowerCase a)
             then handler (snd (snapshot e st))
             else (Normal (error 403 "Invite-only. Tag @owockibot on X to request access."),
                   snd (snapshot e st))
         | _ => (TypeError, snd (snapshot e st))
         end.
Proof.
  unfold gated_json, requireWhitelist_json, snapshot. rewrite run_bind.
  destruct (truthy_json (candidate_json RawBody.address b)); cbn [negb]; [|reflexivity].
  rewrite run_bind.
  destruct (run (remote e) (fetchWhitelist (now e) st)) as [whitelist st'].
  cbn [fst snd].
  destruct (candidate_json RawBody.address b) as [[| | |a| |]|]; try reflexivity.
  destruct (has whitelist (Js.toLowerCase a)); reflexivity.
Qed.

Lemma serve_json_run r e st :
  serve_json r e st
  = if json_is_gated r
    then run (remote e) (gated_json (json_body_of r) e st (json_handler_of r e))
    else json_handler_of r e st.
Proof. destruct r; reflexivity. Qed.

(** A truthy candidate is one of the fields the gate reads. *)
Lemma candidate_json_in field b :
  truthy_json (candidate_json field b) = true ->
  In (candidate_json field b)
    [field b; RawBody.creator b; RawBody.participant b; RawBody.sender b;
     RawBody.from b; RawBody.address b].
Proof.
  unfold candidate_json, or_json.
  destruct (truthy_json (field b)); [cbn; auto|].
  destruct (truthy_json (RawBody.creator b)); [cbn; auto|].
  destruct (truthy_json (RawBody.participant b)); [cbn; auto|].
  destruct (truthy_json (RawBody.sender b)); [cbn; auto|].
  destruct (truthy_json (RawBody.from b)); [cbn; auto 10|].
  cbn; auto 10.
Qed.

Lemma throws_of_truthy v :
  truthy_json v = true ->
  (exists a, v = Some (JString a) /\ a <> "") \/ throws_toLowerCase v = true.
Proof.
  unfold throws_toLowerCase. intros H.
  destruct v as [[| | |a| |]|]; rewrite H; auto.
  left. exists a. split; [reflexivity|].
  intros ->. discriminate H.
Qed.

(** What a handler does with a JSON body: it throws on an address field,
    rejects the request before it reads the stores further, or runs as
    on the typed body. *)
Lemma json_handler_cases r e st :
  (json_handler_of r e st = (TypeError, st)
   /\ exists v, In v (address_fields (json_body_of r)) /\ throws_toLowerCase v = true)
  \/ (exists code msg,
        (code = 400 \/ code = 404)
        /\ json_handler_of r e st = (Normal (error code msg), st))
  \/ json_handler_of r e st = normal (handler_of (typed_request r) e st).
Proof.
  destruct r as [b|id b|id b|id b|id b];
    cbn [json_handler_of typed_request handler_of json_body_of address_fields].
  - unfold post_projects_json.
    destruct (Js.truthy (RawBody.name b)); [|right; left; eexists _, _; eauto].
    destruct (truthy_json (RawBody.owner b)); [|right; left; eexists _, _; eauto].
    destruct (RawBody.owner b) as [[| | |a| |]|];
      try (right; left; eexists _, _; split; [left|]; reflexivity).
    right. right. reflexivity.
  - unfold put_project_json.
    destruct (JsMap.get id (projects st)); [|right; left; eexists _, _; eauto].
    destruct (throws_toLowerCase (RawBody.owner b)) eqn:Hthrows.
    + left. split; [reflexivity|]. exists (RawBody.owner b). cbn; auto 10.
    + right. right. reflexivity.
  - unfold delete_project_json.
    destruct (JsMap.get id (projects st)); [|right; left; eexists _, _; eauto].
    destruct (throws_toLowerCase (RawBody.owner b)) eqn:Hthrows.
    + left. split; [reflexivity|]. exists (RawBody.owner b). cbn; auto 10.
    + right. right. reflexivity.
  - unfold post_signal_json.
    destruct (JsMap.get id (projects st)); [|right; left; eexists _, _; eauto].
    destruct (truthy_json (RawBody.address b)); cbn [negb];
      [|right; left; eexists _, _; eauto].
    destruct (RawBody.address b) as [[| | |a| |]|];
      try (right; left; eexists _, _; split; [left|]; reflexivity).
    right. right. reflexivity.
  - unfold delete_signal_json.
    destruct (JsMap.get id (projects st)); [|right; left; eexists _, _; eauto].
    destruct (truthy_json (RawBody.address b)) eqn:Htruthy; cbn [negb];
      [|right; left; eexists _, _; eauto].
    destruct (throws_of_truthy _ Htruthy) as [(a & -> & _)|Hthrows];
      [right; right; reflexivity|].
    destruct (RawBody.address b) as [[| | |a| |]|] eqn:Haddress;
      try (right; right; reflexivity);
      (destruct (existsb _ _);
       [left; split; [reflexivity|]; exists (RawBody.address b);
        rewrite Haddress; split; [cbn; auto|exact Hthrows]
       |right; left; eexists _, _; eauto]).
Qed.

(** *** The typed frame *)

(** [v] is falsy or a string: no call [v.toLowerCase()] throws. *)
Lemma quiet_text v :
  throws_toLowerCase v = false ->
  Js.truthy (text v) = (if truthy_json v then text v else None)
  /\ (truthy_json v = true -> exists a, v = Some (JString a)).
Proof.
  unfold throws_toLowerCase.
  destruct v as [[|flag|[m e|n]|a| |]|]; cbn; try (intros; split; [reflexivity|discriminate]).
  - destruct flag; [discriminate|]. intros; split; [reflexivity|discriminate].
  - destruct (m =? 0); [|discriminate]. intros; split; [reflexivity|discriminate].
  - intros _. split; [|eauto]. destruct (a =? "")%string; reflexivity.
Qed.

Lemma quiet_or a x y :
  throws_toLowerCase a = false ->
  Js.truthy y = Js.truthy (text x) ->
  Js.truthy (Js.or_else (text a) y) = Js.truthy (text (or_json a x)).
Proof.
  intros Ha Hxy. destruct (quiet_text a Ha) as [Htext Hstring].
  unfold or_json. destruct (truthy_json a) eqn:Htruthy.
  - destruct (Hstring eq_refl) as (s & ->).
    cbn [truthy_json] in Htruthy. apply negb_true_iff in Htruthy.
    cbn [text]. unfold Js.or_else, Js.truthy. rewrite Htruthy. cbv iota.
    rewrite Htruthy. reflexivity.
  - destruct a as [[| | |s| |]|]; cbn [text Js.or_else]; try exact Hxy.
    cbn [truthy_json] in Htruthy. apply negb_false_iff in Htruthy.
    rewrite Htruthy. exact Hxy.
Qed.

Lemma quiet_or_throws a x :
  throws_toLowerCase a = false -> throws_toLowerCase x = false ->
  throws_toLowerCase (or_json a x) = false.
Proof. unfold or_json. now destruct (truthy_json a). Qed.

Lemma candidate_typed b :
  Forall (fun v => throws_toLowerCase v = false) (address_fields b) ->
  Js.truthy (candidate Body.address (RawBody.typed b))
  = Js.truthy (text (candidate_json RawBody.address b))
  /\ throws_toLowerCase (candidate_json RawBody.address b) = false.
Proof.
  unfold address_fields. intros H.
  repeat match goal with
         | H : Forall _ (_ :: _) |- _ =>
             let Hhead := fresh "Hquiet" in
             let Htail := fresh "Hrest" in
             apply Forall_cons_iff in H; destruct H as [Hhead Htail]
         end.
  unfold candidate, candidate_json. cbn [RawBody.typed Body.address Body.creator
    Body.participant Body.sender Body.from].
  split.
  - repeat (apply quiet_or; [assumption|]). reflexivity.
  - repeat (apply quiet_or_throws; [assumption|]). assumption.
Qed.

Lemma json_handler_typed r e st :
  Forall (fun v => throws_toLowerCase v = false) (address_fields (json_body_of r)) ->
  json_handler_of r e st = normal (handler_of (typed_request r) e st).
Proof.
  intros Hquiet.
  assert (Howner : throws_toLowerCase (RawBody.owner (json_body_of r)) = false).
  { rewrite Forall_forall in Hquiet. apply Hquiet. cbn. auto 10. }
  assert (Haddress : throws_toLowerCase (RawBody.address (json_body_of r)) = false).
  { rewrite Forall_forall in Hquiet. apply Hquiet. cbn. auto. }
  destruct (quiet_text _ Howner) as [Howner1 Howner2].
  destruct (quiet_text _ Haddress) as [Haddress1 Haddress2].
  destruct r as [b|id b|id b|id b|id b];
    cbn [json_handler_of typed_request handler_of json_body_of] in *.
  - unfold post_projects_json.
    destruct (Js.truthy (RawBody.name b)) eqn:Hname.
    + destruct (truthy_json (RawBody.owner b)) eqn:Htruthy.
      * destruct (Howner2 eq_refl) as (a & Ha). rewrite Ha. reflexivity.
      * unfold post_projects. cbn [RawBody.typed Body.name Body.owner].
        rewrite Hname, Howner1. reflexivity.
    + unfold post_projects. cbn [RawBody.typed Body.name].
      rewrite Hname. reflexivity.
  - unfold put_project_json, put_project. rewrite Howner.
    destruct (JsMap.get id (projects st)); reflexivity.
  - unfold delete_project_json, delete_project. rewrite Howner.
    destruct (JsMap.get id (projects st)); reflexivity.
  - unfold post_signal_json.
    destruct (JsMap.get id (projects st)) eqn:Hget;
      [|unfold post_signal; rewrite Hget; reflexivity].
    destruct (truthy_json (RawBody.address b)) eqn:Htruthy; cbn [negb].
    + destruct (Haddress2 eq_refl) as (a & Ha). rewrite Ha. reflexivity.
    + unfold post_signal. cbn [RawBody.typed Body.address].
      rewrite Hget, Haddress1. reflexivity.
  - unfold delete_signal_json.
    destruct (JsMap.get id (projects st)) eqn:Hget;
      [|unfold delete_signal; rewrite Hget; reflexivity].
    destruct (truthy_json (RawBody.address b)) eqn:Htruthy; cbn [negb].
    + destruct (Haddress2 eq_refl) as (a & Ha). rewrite Ha. reflexivity.
    + unfold delete_signal. cbn [RawBody.typed Body.address].
      rewrite Hget, Haddress1. reflexivity.
Qed.

End UntypedFacts.


Section GateTheorems.

Context {E : Ethers}.

(** What a handler leaves behind when it rejects a request or throws. *)
Lemma json_handler_outcome (r : json_request) (e : env) (st : state) :
  match fst (json_handler_of r e st) with
  | Normal resp =>
      In (status resp) [200; 201; 400; 403; 404]
      /\ (400 <= status resp -> snd (json_handler_of r e st) = st)
  | TypeError =>
      snd (json_handler_of r e st) = st
      /\ exists v, In v (address_fields (json_body_of r)) /\ throws_toLowerCase v = true
  end.
Proof.
  destruct (json_handler_cases r e st)
    as [[-> Hv] | [(code & msg & Hcode & ->) | ->]]; cbn [fst snd normal].
  - split; [reflexivity|exact Hv].
  - split; [|reflexivity]. destruct Hcode as [-> | ->]; cbn; tauto.
  - split; [apply handler_status|apply handler_rejected].
Qed.

(** X1: what a request that fails leaves behind, for a body whose address
    fields ([address], [creator], [participant], [sender], [from],
    [owner]) hold any JSON value.  The gate and the handlers send no
    status other than 200, 201, 400, 403 and 404, and a response sent
    with a status of 400 or above leaves both stores exactly as they
    were.  A request whose handling throws instead, which happens only
    when one of these fields is truthy and no string, has not changed
    either store when the exception is raised. *)
Theorem X1_failed_request_changes_nothing (r : json_request) (e : env) (st : state) :
  match fst (serve_json r e st) with
  | Normal resp =>
      In (status resp) [200; 201; 400; 403; 404]
      /\ (400 <= status resp ->
          projects (snd (serve_json r e st)) = projects st
          /\ signals (snd (serve_json r e st)) = signals st)
  | TypeError =>
      projects (snd (serve_json r e st)) = projects st
      /\ signals (snd (serve_json r e st)) = signals st
      /\ exists v, In v (address_fields (json_body_of r)) /\ throws_toLowerCase v = true
  end.
Proof.
  rewrite serve_json_run. destruct (snapshot_stores e st) as [Hp Hs].
  destruct (json_is_gated r).
  - rewrite gated_json_run.
    destruct (truthy_json (candidate_json RawBody.address (json_body_of r))) eqn:Htruthy;
      cbn [negb]; [|cbn; tauto].
    assert (Hin : In (candidate_json RawBody.address (json_body_of r))
                    (address_fields (json_body_of r))).
    { pose proof (candidate_json_in _ _ Htruthy) as Hin.
      unfold address_fields. cbn [In] in *. tauto. }
    destruct (throws_of_truthy _ Htruthy) as [(a & Ha & _)|Hthrows].
    + rewrite Ha. destruct (has _ _); [|cbn; tauto].
      pose proof (json_handler_outcome r e (snd (snapshot e st))) as Hout.
      destruct (fst (json_handler_of r e (snd (snapshot e st)))) as [resp|].
      * destruct Hout as [Hstatus Hsame]. split; [exact Hstatus|].
        intros Herr. rewrite (Hsame Herr). auto.
      * destruct Hout as [-> Hv]. auto.
    + unfold throws_toLowerCase in Hthrows. rewrite Htruthy in Hthrows.
      assert (Hv : exists v, In v (address_fields (json_body_of r))
                             /\ throws_toLowerCase v = true).
      { exists (candidate_json RawBody.address (json_body_of r)).
        unfold throws_toLowerCase. rewrite Htruthy. auto. }
      destruct (candidate_json RawBody.address (json_body_of r)) as [[| | |a| |]|];
        try discriminate Hthrows; cbn [fst snd]; auto.
  - pose proof (json_handler_outcome r e st) as Hout.
    destruct (fst (json_handler_of r e st)) as [resp|].
    + destruct Hout as [Hstatus Hsame]. split; [exact Hstatus|].
      intros Herr. rewrite (Hsame Herr). auto.
    + destruct Hout as [-> Hv]. auto.
Qed.

(** X2: a gated route (create project, update project, signal) gets past
    the gate only for an allow-listed caller: whenever its answer is not
    the gate's 400 or 403, the first non-empty of the body fields
    [address], [creator], [participant], [sender] and [from] (the gate
    does not read [owner]) is an address whose lowercase form is in the
    allow-list snapshot; in particular every change of the stores through
    these routes has one. *)
Theorem X2_gated_routes_need_listed_candidate (r : request) (e : env) (st : state) :
  is_gated r = true ->
  status (fst (serve r e st)) < 400
  \/ projects (snd (serve r e st)) <> projects st
  \/ signals (snd (serve r e st)) <> signals st ->
  exists addr,
    first_nonempty (gate_fields Body.address (body_of r)) = Some addr
    /\ has (fst (snapshot e st)) (Js.toLowerCase addr) = true.
Proof.
  intros Hg Hpass. rewrite serve_run, Hg in Hpass.
  destruct (snapshot_stores e st) as [Hp Hs].
  destruct (first_nonempty _) as [addr|].
  - exists addr. split; [reflexivity|].
    destruct (has _ _); [reflexivity|].
    cbn [fst snd status error] in Hpass. rewrite Hp, Hs in Hpass.
    destruct Hpass as [H|[H|H]]; [lia|contradiction|contradiction].
  - cbn [fst snd status error] in Hpass.
    destruct Hpass as [H|[H|H]]; [lia|contradiction|contradiction].
Qed.

Lemma fetch_failure answer now st :
  needs_refresh now st -> fetch_fails answer ->
  run answer (fetchWhitelist now st)
  = (match _whitelistCache st with Some cache => cache | None => [] end, st).
Proof.
  unfold needs_refresh, fetchWhitelist, refresh, fetch_failed.
  intros Hneed Hfail.
  destruct (_whitelistCache st) as [cache|].
  - destruct (Z.ltb_spec (now - _whitelistCacheTime st) WHITELIST_CACHE_TTL); [lia|].
    destruct answer as [data|]; cbn [run]; cbn [fetch_fails] in Hfail;
      rewrite ?Hfail; reflexivity.
  - destruct answer as [data|]; cbn [run]; cbn [fetch_fails] in Hfail;
      rewrite ?Hfail; reflexivity.
Qed.

(** X3: the gate fails closed, whatever JSON values the body holds.
    While the allow-list has never been fetched successfully and the
    fetch fails, no request on a gated route reaches its handler: the
    gate answers 400 or 403, or throws because its candidate address is
    truthy and no string; in every case the whole state (stores and
    cache) is unchanged. *)
Theorem X3_gate_fails_closed (r : json_request) (e : env) (st : state) :
  json_is_gated r = true ->
  _whitelistCache st = None ->
  fetch_fails (remote e) ->
  snd (serve_json r e st) = st
  /\ match fst (serve_json r e st) with
     | Normal resp =>
         resp = error 400 "Address required"
         \/ resp = error 403 "Invite-only. Tag @owockibot on X to request access."
     | TypeError =>
         throws_toLowerCase (candidate_json RawBody.address (json_body_of r)) = true
     end.
Proof.
  intros Hg Hnone Hfail. rewrite serve_json_run, Hg, gated_json_run.
  unfold snapshot. rewrite fetch_failure; [|unfold needs_refresh; now rewrite Hnone|exact Hfail].
  rewrite Hnone. cbn [fst snd has existsb].
  destruct (truthy_json (candidate_json RawBody.address (json_body_of r))) eqn:Htruthy;
    cbn [negb]; [|cbn; auto].
  unfold throws_toLowerCase. rewrite Htruthy.
  destruct (candidate_json RawBody.address (json_body_of r)) as [[| | |a| |]|];
    cbn [fst snd]; auto.
Qed.

(** X27: the typed routes are exact on every body whose address fields
    are falsy or strings.  When none of [address], [creator],
    [participant], [sender], [from] and [owner] holds a value that is
    truthy and no string, the request completes without an exception, and
    its response and the state it leaves are those of the typed routes on
    the body with its falsy fields read as absent. *)
Theorem X27_typed_frame (r : json_request) (e : env) (st : state) :
  Forall (fun v => throws_toLowerCase v = false) (address_fields (json_body_of r)) ->
  serve_json r e st = normal (serve (typed_request r) e st).
Proof.
  intros Hquiet. rewrite serve_json_run, serve_run.
  replace (is_gated (typed_request r)) with (json_is_gated r) by (destruct r; reflexivity).
  replace (body_of (typed_request r)) with (RawBody.typed (json_body_of r))
    by (destruct r; reflexivity).
  destruct (json_is_gated r); [|apply json_handler_typed, Hquiet].
  rewrite gated_json_run, <- truthy_candidate.
  destruct (candidate_typed _ Hquiet) as [-> Hcandidate].
  destruct (quiet_text _ Hcandidate) as [-> Hstring].
  destruct (truthy_json (candidate_json RawBody.address (json_body_of r)));
    cbn [negb]; [|reflexivity].
  destruct (Hstring eq_refl) as (a & ->). cbn [text].
  destruct (has _ _); [|reflexivity].
  apply json_handler_typed, Hquiet.
Qed.

Lemma map_entries_in data set x :
  map_entries data = Some set ->
  (In x set <-> exists entry, In entry data /\ entry_address entry = Some x).
Proof.
  revert set. induction data as [|entry data IH]; intros set; cbn [map_entries].
  - intros [= <-]. split; [intros []|intros (? & [] & _)].
  - destruct (entry_address entry) as [a|] eqn:Ha; [|discriminate].
    destruct (map_entries data) as [set'|]; [|discriminate].
    cbn [option_map]. intros [= <-]. specialize (IH set' eq_refl).
    cbn [In]. rewrite IH. split.
    + intros [<-|(y & Hy & Hyx)]; [exists entry; auto|exists y; auto].
    + intros (y & [<-|Hy] & Hyx); [left; congruence|right; exists y; auto].
Qed.

Lemma has_iff set x : has set x = true <-> In x set.
Proof.
  unfold has. rewrite existsb_exists. split.
  - intros (y & Hy & Heq). apply String.eqb_eq in Heq. now subst.
  - intros H. exists x. split; [exact H|apply String.eqb_refl].
Qed.

Lemma refresh_success now st data set :
  needs_refresh now st -> map_entries data = Some set ->
  run (FetchOk data) (fetchWhitelist now st)
  = (set, mkState (projects st) (signals st) (Some set) now)
  /\ fetches (FetchOk data) (fetchWhitelist now st) = 1%nat.
Proof.
  unfold needs_refresh, fetchWhitelist, refresh. intros Hneed Hmap.
  destruct (_whitelistCache st) as [cache|].
  - destruct (Z.ltb_spec (now - _whitelistCacheTime st) WHITELIST_CACHE_TTL); [lia|].
    cbn [run fetches]. now rewrite Hmap.
  - cbn [run fetches]. now rewrite Hmap.
Qed.

(** X4: a successful refresh and its reuse.  When the cache is empty or
    expired and the remote list decodes, [fetchWhitelist] makes exactly one
    external call, returns the decoded set, stores it with the time of the
    call, and leaves the two stores alone; every later call less than five
    minutes after that time returns the same set without any external
    call, whatever the remote service would answer. *)
Theorem X4_refresh_then_reuse (now : Z) (st : state) (data : list entry)
    (set : list string) :
  needs_refresh now st ->
  map_entries data = Some set ->
  let st' := snd (run (FetchOk data) (fetchWhitelist now st)) in
  fst (run (FetchOk data) (fetchWhitelist now st)) = set
  /\ fetches (FetchOk data) (fetchWhitelist now st) = 1%nat
  /\ _whitelistCache st' = Some set
  /\ _whitelistCacheTime st' = now
  /\ projects st' = projects st
  /\ signals st' = signals st
  /\ forall later answer,
      later - now < 5 * 60 * 1000 ->
      run answer (fetchWhitelist later st') = (set, st')
      /\ fetches answer (fetchWhitelist later st') = 0%nat.
Proof.
  intros Hneed Hmap st'.
  destruct (refresh_success now st data set Hneed Hmap) as [Hrun Hcalls].
  unfold st'. rewrite Hrun. cbn [fst snd].
  repeat split; auto.
  - unfold fetchWhitelist. cbn [_whitelistCache _whitelistCacheTime].
    destruct (Z.ltb_spec (later - now) WHITELIST_CACHE_TTL) as [_|Hge];
      [reflexivity|unfold WHITELIST_CACHE_TTL in Hge; lia].
  - unfold fetchWhitelist. cbn [_whitelistCache _whitelistCacheTime].
    destruct (Z.ltb_spec (later - now) WHITELIST_CACHE_TTL) as [_|Hge];
      [reflexivity|unfold WHITELIST_CACHE_TTL in Hge; lia].
Qed.

(** X5: the allow-list is matched without regard to case.  After a
    refresh that decodes the remote list, the gate lets a request pass
    exactly when its candidate address equals, up to the case of letters,
    the address of some entry of the list (a plain string, or the
    non-empty [address] field of an object). *)
Theorem X5_allow_list_ignores_case (field : Body.t -> option string) (b : Body.t)
    (now : Z) (st : state) (data : list entry) (set : list string) (addr : string) :
  needs_refresh now st ->
  map_entries data = Some set ->
  first_nonempty (gate_fields field b) = Some addr ->
  (fst (run (FetchOk data) (requireWhitelist field b now st)) = Next
   <-> exists listed,
        (In (EntryString listed) data
         \/ (In (EntryObject (Some listed)) data /\ listed <> ""))
        /\ Js.toLowerCase listed = Js.toLowerCase addr).
Proof.
  intros Hneed Hmap Hcand.
  unfold requireWhitelist. rewrite truthy_candidate, Hcand, run_bind.
  destruct (refresh_success now st data set Hneed Hmap) as [-> _].
  destruct (has set (Js.toLowerCase addr)) eqn:Hhas; cbn [run fst].
  - split; [intros _|reflexivity].
    apply has_iff in Hhas.
    apply (map_entries_in data set _ Hmap) in Hhas as (entry & Hin & Haddr).
    destruct entry as [s|a]; cbn [entry_address] in Haddr.
    + exists s. split; [now left|congruence].
    + destruct (Js.truthy a) as [s|] eqn:Ha; [|discriminate].
      apply JsFacts.truthy_some in Ha as [-> Hne].
      exists s. split; [now right|]. cbn [option_map] in Haddr. congruence.
  - split; [discriminate|].
    intros (listed & Hin & Hcase). exfalso.
    assert (In (Js.toLowerCase addr) set); [|apply has_iff in H; congruence].
    apply (map_entries_in data set _ Hmap).
    destruct Hin as [Hin|[Hin Hne]].
    + exists (EntryString listed). split; [exact Hin|]. cbn. congruence.
    + exists (EntryObject (Some listed)). split; [exact Hin|].
      cbn [entry_address]. rewrite (JsFacts.truthy_of_nonempty _ Hne). cbn. congruence.
Qed.

(** X6: every successful signal comes from an allow-listed address.  A
    signal request that is answered with 200 or 201 carries a non-empty,
    well-formed [address] whose lowercase form is in the allow-list
    snapshot (unlike project creation, where the stored owner is not the
    value the gate checks). *)
Theorem X6_signaller_is_allow_listed (id : string) (b : Body.t) (e : env) (st : state) :
  status (fst (serve (PostSignal id b) e st)) < 400 ->
  exists a,
    Body.address b = Some a
    /\ a <> ""
    /\ isAddress a = true
    /\ has (fst (snapshot e st)) (Js.toLowerCase a) = true.
Proof.
  intros Hok. rewrite serve_run in Hok. cbn [is_gated body_of handler_of] in Hok.
  destruct (first_nonempty _) as [addr|] eqn:Hcand; [|cbn in Hok; lia].
  destruct (has _ _) eqn:Hhas; [|cbn in Hok; lia].
  unfold post_signal in Hok.
  destruct (JsMap.get id _); [|cbn in Hok; lia].
  destruct (Js.truthy (Body.address b)) as [a|] eqn:Ha; [|cbn in Hok; lia].
  destruct (isAddress a) eqn:Hvalid; [|cbn in Hok; lia].
  apply JsFacts.truthy_some in Ha as [Ha Hne].
  exists a. repeat split; auto.
  rewrite <- truthy_candidate, (candidate_of_address _ _ Ha Hne) in Hcand.
  now injection Hcand as <-.
Qed.

End GateTheorems.

Section StoreProperties.

Context {E : Ethers}.

Lemma values_set_in {V : Type} k (v : V) m q :
  In q (JsMap.values (JsMap.set k v m)) -> q = v \/ In q (JsMap.values m).
Proof.
  unfold JsMap.values.
  induction m as [|x m IH]; cbn [JsMap.set map In].
  - intros [H|[]]. now left.
  - destruct (JsMap.has_key k x); cbn [map In].
    + intros [H|H]; [now left|right; now right].
    + intros [H|H]; [right; now left|].
      destruct (IH H); [now left|right; now right].
Qed.

Lemma values_filter_in {V : Type} (f : string * V -> bool) m q :
  In q (JsMap.values (filter f m)) -> In q (JsMap.values m).
Proof.
  unfold JsMap.values. intros H.
  apply in_map_iff in H as (x & <- & Hx).
  apply filter_In in Hx as [Hx _]. now apply in_map.
Qed.

Lemma values_mutate_in {V : Type} (sel : V -> bool) f m q :
  In q (JsMap.values (JsMap.mutate sel f m)) ->
  In q (JsMap.values m) \/ exists x, In x (JsMap.values m) /\ q = f x.
Proof.
  unfold JsMap.values.
  induction m as [|[k v] m IH]; cbn [JsMap.mutate map In]; [tauto|].
  destruct (sel v); cbn [map In snd].
  - intros [H|H]; [right; exists v; auto|left; now right].
  - intros [H|H]; [left; now left|].
    destruct (IH H) as [H'|(x & Hx & Hq)]; [left; now right|].
    right. exists x. auto.
Qed.

Lemma store_project_in key p st q :
  In q (JsMap.values (projects (store_project key p st))) ->
  q = p \/ In q (JsMap.values (projects st)).
Proof.
  unfold store_project. cbn [projects with_projects]. intros H.
  apply values_set_in in H as [H|H]; [now left|].
  now apply values_set_in in H.
Qed.

Lemma post_projects_created b now u st p :
  fst (post_projects b now u st) = mkResponse 201 (ProjectJson p) ->
  exists name owner,
    Js.truthy (Body.name b) = Some name
    /\ Js.truthy (Body.owner b) = Some owner
    /\ isAddress owner = true
    /\ Project.id p = u
    /\ Project.name p = name
    /\ Project.owner p = Js.toLowerCase owner
    /\ In (Project.category p) categories
    /\ (List.length (Project.tags p) <= 10)%nat
    /\ Project.supportCount p = 0 /\ Project.totalSignal p = 0
    /\ Project.createdAt p = now /\ Project.updatedAt p = now
    /\ snd (post_projects b now u st)
       = with_projects (JsMap.set u p (projects st)) st.
Proof.
  unfold post_projects.
  destruct (Js.truthy (Body.name b)) as [name|]; [|discriminate].
  destruct (Js.truthy (Body.owner b)) as [owner|]; [|discriminate].
  destruct (isAddress owner) eqn:Hvalid; [|discriminate].
  cbn [negb fst snd]. intros [= <-].
  exists name, owner. repeat split; auto; cbn [Project.category Project.tags].
  - destruct (Body.category b) as [c|]; [|cbn; auto 10].
    match goal with
    | |- In (if ?x then _ else _) _ => destruct x eqn:Hc
    end; [|cbn; auto 10].
    apply has_iff. exact Hc.
  - destruct (Body.tags b) as [l|]; [|cbn; lia].
    pose proof (ArrayFacts.slice_length l 0 10). lia.
Qed.

Lemma post_projects_cases b now u st :
  400 <= status (fst (post_projects b now u st))
  \/ exists p, fst (post_projects b now u st) = mkResponse 201 (ProjectJson p).
Proof.
  unfold post_projects.
  destruct (Js.truthy (Body.name b)); [|left; cbn; lia].
  destruct (Js.truthy (Body.owner b)); [|left; cbn; lia].
  destruct (isAddress _); [right; eexists; reflexivity|left; cbn; lia].
Qed.

Lemma toLowerCase_nonempty s : s <> "" -> Js.toLowerCase s <> "".
Proof. destruct s; [contradiction|discriminate]. Qed.

Lemma apply_update_ok b now p : project_ok p -> project_ok (apply_update b now p).
Proof.
  intros [H1 H2 H3 H4 H5].
  constructor;
    cbn [apply_update Project.name Project.category Project.tags Project.owner]; auto.
  - destruct (Js.truthy (Body.name b)) as [n|] eqn:Hn; [|exact H1].
    now apply JsFacts.truthy_some in Hn.
  - destruct (Js.truthy (Body.category b)) as [c|]; [|exact H2].
    destruct (has categories c) eqn:Hc; [|exact H2].
    apply has_iff. exact Hc.
  - destruct (Body.tags b) as [l|]; [|exact H3].
    pose proof (ArrayFacts.slice_length l 0 10). lia.
Qed.

Lemma set_counters_ok c t p : project_ok p -> project_ok (set_counters c t p).
Proof. intros [H1 H2 H3 H4 H5]. now constructor. Qed.

Lemma handler_projects_ok r e st :
  Forall project_ok (JsMap.values (projects st)) ->
  Forall project_ok (JsMap.values (projects (snd (handler_of r e st)))).
Proof.
  intros Hall. rewrite Forall_forall in *. intros q Hq.
  assert (Hget : forall id p, JsMap.get id (projects st) = Some p -> project_ok p).
  { intros id p Hp. apply Hall. apply JsMapFacts.get_in in Hp.
    unfold JsMap.values. now apply (in_map snd) in Hp. }
  destruct r as [b|id b|id b|id b|id b]; cbn [handler_of] in Hq.
  - destruct (post_projects_cases b (now e) (uuid e) st) as [Herr|[p Hresp]].
    + rewrite (post_projects_rejected _ _ _ _ Herr) in Hq. auto.
    + destruct (post_projects_created _ _ _ _ _ Hresp)
        as (name & owner & Hn & Ho & _ & _ & Hname & Howner & Hcat & Htags & _ & _ & _ & _ & Hst).
      rewrite Hst in Hq. cbn [projects with_projects] in Hq.
      apply values_set_in in Hq as [->|Hq]; [|auto].
      apply JsFacts.truthy_some in Hn as [_ Hn]. apply JsFacts.truthy_some in Ho as [_ Ho].
      constructor; auto.
      * now rewrite Hname.
      * rewrite Howner. now apply toLowerCase_nonempty.
      * rewrite Howner. apply JsFacts.toLowerCase_idem.
  - unfold put_project in Hq.
    destruct (JsMap.get id (projects st)) as [p|] eqn:Hp; [|auto].
    destruct (owner_mismatch b p); [auto|]. cbn [snd] in Hq.
    apply store_project_in in Hq as [->|Hq]; [|auto].
    apply apply_update_ok. eauto.
  - unfold delete_project in Hq.
    destruct (JsMap.get id (projects st)) as [p|] eqn:Hp; [|auto].
    destruct (owner_mismatch b p); [auto|].
    cbn [snd projects with_signals with_projects] in Hq.
    apply values_filter_in in Hq. auto.
  - unfold post_signal in Hq.
    destruct (JsMap.get id (projects st)) as [p|] eqn:Hp; [|auto].
    destruct (Js.truthy (Body.address b)); [|auto].
    destruct (isAddress _); [|auto]. cbn [negb] in Hq.
    destruct (find _ _); cbn [snd] in Hq;
      apply store_project_in in Hq as [->|Hq]; auto;
      apply set_counters_ok; eauto.
  - unfold delete_signal in Hq.
    destruct (JsMap.get id (projects st)) as [p|] eqn:Hp; [|auto].
    destruct (Js.truthy (Body.address b)); [|auto].
    destruct (find _ _); [|auto].
    cbn [snd projects with_signals] in Hq.
    apply store_project_in in Hq as [->|Hq]; auto.
    apply set_counters_ok; eauto.
Qed.

Lemma accumulate_ok amount message now s :
  1 <= amount -> signal_ok s -> signal_ok (accumulate amount message now s).
Proof. intros Ha [H1 H2 H3]. constructor; cbn; auto. lia. Qed.

Lemma handler_signals_ok r e st :
  Forall signal_ok (JsMap.values (signals st)) ->
  Forall signal_ok (JsMap.values (signals (snd (handler_of r e st)))).
Proof.
  intros Hall. rewrite Forall_forall in *. intros q Hq.
  destruct r as [b|id b|id b|id b|id b]; cbn [handler_of] in Hq.
  - unfold post_projects in Hq.
    destruct (Js.truthy (Body.name b)); [|auto].
    destruct (Js.truthy (Body.owner b)); [|auto].
    destruct (isAddress _); cbn in Hq; auto.
  - unfold put_project in Hq.
    destruct (JsMap.get id (projects st)) as [p|]; [|auto].
    destruct (owner_mismatch b p); cbn in Hq; auto.
  - unfold delete_project in Hq.
    destruct (JsMap.get id (projects st)) as [p|]; [|auto].
    destruct (owner_mismatch b p); [auto|].
    cbn [snd signals with_signals] in Hq.
    rewrite JsMapFacts.fold_delete in Hq. apply values_filter_in in Hq. auto.
  - unfold post_signal in Hq.
    destruct (JsMap.get id (projects st)) as [p|]; [|auto].
    destruct (Js.truthy (Body.address b)) as [a|] eqn:Ha; [|auto].
    destruct (isAddress a); [|auto]. cbn [negb] in Hq.
    pose proof (signalAmount_bounds (Body.amount b)) as Hamount.
    destruct (find _ _) as [ex|] eqn:Hfind;
      cbn [snd signals store_project with_projects with_signals] in Hq.
    + apply find_some in Hfind as [Hex _].
      apply values_set_in in Hq as [->|Hq].
      * apply accumulate_ok; [lia|auto].
      * apply values_mutate_in in Hq as [Hq|(x & Hx & ->)]; [auto|].
        apply accumulate_ok; [lia|auto].
    + apply values_set_in in Hq as [->|Hq]; [|auto].
      apply JsFacts.truthy_some in Ha as [_ Ha].
      constructor; cbn.
      * lia.
      * now apply toLowerCase_nonempty.
      * apply JsFacts.toLowerCase_idem.
  - unfold delete_signal in Hq.
    destruct (JsMap.get id (projects st)) as [p|]; [|auto].
    destruct (Js.truthy (Body.address b)); [|auto].
    destruct (find _ _); [|auto].
    cbn [snd signals store_project with_projects with_signals] in Hq.
    apply values_filter_in in Hq. auto.
Qed.

Lemma reachable_records_ok st :
  reachable st ->
  Forall project_ok (JsMap.values (projects st))
  /\ Forall signal_ok (JsMap.values (signals st)).
Proof.
  induction 1 as [|st r e Hr [IHp IHs] Hfresh].
  - split; constructor.
  - rewrite serve_run. destruct (snapshot_stores e st) as [Hp Hs].
    assert (Hgate : Forall project_ok (JsMap.values (projects (snd (snapshot e st))))
                    /\ Forall signal_ok (JsMap.values (signals (snd (snapshot e st)))))
      by (rewrite Hp, Hs; auto).
    destruct (is_gated r).
    + destruct (first_nonempty _); [|auto].
      destruct (has _ _); [|cbn [snd]; auto].
      split; [apply handler_projects_ok|apply handler_signals_ok]; tauto.
    + split; [apply handler_projects_ok|apply handler_signals_ok]; tauto.
Qed.

Lemma live_count_le_total pid ss :
  Forall (fun s => 1 <= Signal.amount s) (JsMap.values ss) ->
  live_count pid ss <= live_total pid ss.
Proof.
  induction ss as [|[k s] ss IH]; intros Hall.
  - rewrite live_count_nil, live_total_nil. lia.
  - unfold JsMap.values in Hall. cbn [map snd] in Hall.
    inversion Hall as [|? ? Hs Hall']; subst.
    rewrite live_count_cons, live_total_cons. specialize (IH Hall').
    destruct (Signal.projectId s =? pid)%string; cbn [indicator]; lia.
Qed.

(** X7: the shape of the stores.  In every reachable state each store
    maps an identifier to the one record that carries it; every live signal
    references a stored project (there are no orphans), has an amount of at
    least 1 and a non-empty, lowercase address. *)
Theorem X7_store_integrity (st : state) :
  reachable st ->
  NoDup (JsMap.keys (projects st))
  /\ NoDup (JsMap.keys (signals st))
  /\ (forall k p, JsMap.get k (projects st) = Some p -> Project.id p = k)
  /\ (forall k s, JsMap.get k (signals st) = Some s ->
        Signal.id s = k
        /\ (exists p, JsMap.get (Signal.projectId s) (projects st) = Some p)
        /\ 1 <= Signal.amount s
        /\ Signal.address s <> ""
        /\ Js.toLowerCase (Signal.address s) = Signal.address s).
Proof.
  intros Hreach. pose proof (reachable_invariant _ Hreach) as Hinv.
  destruct (reachable_records_ok _ Hreach) as [_ Hsig].
  split; [apply (inv_projects _ Hinv)|].
  split; [apply (inv_signals _ Hinv)|].
  split; [intros k p; apply keyed_get, Hinv|].
  intros k s Hget.
  split; [exact (keyed_get _ _ _ _ (inv_signals _ Hinv) Hget)|].
  apply JsMapFacts.get_in in Hget. apply (in_map snd) in Hget. cbn [snd] in Hget.
  fold (JsMap.values (signals st)) in Hget.
  pose proof (inv_reference _ Hinv) as Href.
  rewrite Forall_forall in Href, Hsig.
  destruct (Hsig _ Hget) as [H1 H2 H3].
  repeat split; auto.
  specialize (Href _ Hget).
  destruct (JsMap.get (Signal.projectId s) (projects st)) as [p|]; [now exists p|contradiction].
Qed.

(** X8: the shape of a stored project.  In every reachable state every
    stored project has a non-empty name, one of the seven fixed categories,
    at most ten tags, a non-empty lowercase owner, and counters with
    0 <= supportCount <= totalSignal. *)
Theorem X8_stored_project_shape (st : state) (p : Project.t) :
  reachable st ->
  In p (JsMap.values (projects st)) ->
  Project.name p <> ""
  /\ In (Project.category p) categories
  /\ (List.length (Project.tags p) <= 10)%nat
  /\ Project.owner p <> ""
  /\ Js.toLowerCase (Project.owner p) = Project.owner p
  /\ 0 <= Project.supportCount p <= Project.totalSignal p.
Proof.
  intros Hreach Hp. pose proof (reachable_invariant _ Hreach) as Hinv.
  destruct (reachable_records_ok _ Hreach) as [Hproj _].
  rewrite Forall_forall in Hproj. destruct (Hproj _ Hp) as [H1 H2 H3 H4 H5].
  destruct (inv_counters _ Hinv p Hp) as [-> ->].
  repeat split; auto.
  - apply live_count_nonneg.
  - apply live_count_le_total, Hinv.
Qed.

End StoreProperties.

Section ProjectRoutes.

Context {E : Ethers}.

Lemma get_set_other {V : Type} k k' (v : V) m :
  k' <> k -> JsMap.get k' (JsMap.set k v m) = JsMap.get k' m.
Proof.
  intros Hne. unfold JsMap.get.
  induction m as [|[k0 v0] m IH]; simpl.
  - unfold JsMap.has_key; simpl.
    destruct (String.eqb_spec k k'); [congruence|reflexivity].
  - unfold JsMap.has_key in *; simpl in *.
    destruct (String.eqb_spec k0 k) as [->|Hk]; simpl.
    + destruct (String.eqb_spec k k'); [congruence|reflexivity].
    + destruct (String.eqb_spec k0 k'); [reflexivity|exact IH].
Qed.

Lemma get_filter_other {V : Type} (f : string * V -> bool) k m :
  (forall v, f (k, v) = true) ->
  JsMap.get k (filter f m) = JsMap.get k m.
Proof.
  intros Hf. unfold JsMap.get.
  induction m as [|[k0 v0] m IH]; simpl; [reflexivity|].
  unfold JsMap.has_key in *; simpl in *.
  destruct (String.eqb_spec k0 k) as [->|Hk].
  - rewrite Hf. simpl. now rewrite String.eqb_refl.
  - destruct (f (k0, v0)); simpl; [|exact IH].
    destruct (String.eqb_spec k0 k); [contradiction|exact IH].
Qed.

Lemma keys_set_present {V : Type} k (v : V) m :
  In k (JsMap.keys m) -> JsMap.keys (JsMap.set k v m) = JsMap.keys m.
Proof.
  unfold JsMap.keys.
  induction m as [|[k0 v0] m IH]; cbn [JsMap.set map In fst]; [intros []|].
  unfold JsMap.has_key. cbn [fst].
  destruct (String.eqb_spec k0 k) as [->|Hne]; cbn [map fst]; [reflexivity|].
  intros [H|H]; [contradiction|]. now rewrite IH.
Qed.

Lemma store_project_same_key st id p p' :
  JsMap.get id (projects st) = Some p -> Project.id p' = id ->
  projects (store_project id p' st) = JsMap.set id p' (projects st).
Proof.
  intros Hget Hid.
  destruct (JsMapFacts.get_split _ _ _ Hget) as (p1 & p2 & Hps & Hp1).
  unfold store_project. cbn [projects with_projects]. rewrite Hid, Hps.
  now rewrite !(JsMapFacts.set_split _ _ _ _ _ Hp1).
Qed.

Lemma slice_nil {A : Type} a b : Js.slice (@nil A) a b = [].
Proof. unfold Js.slice. now rewrite skipn_nil, firstn_nil. Qed.

(** X9: create then look up.  A project creation answered with 201 returns
    a record with the fresh identifier and both counters at 0, appends it
    as the last entry of the project store without touching any other
    project or any signal, and a get-by-id of the new identifier then
    returns that record with no supporters. *)
Theorem X9_created_project_is_retrievable (b : Body.t) (e : env) (st : state) :
  reachable st ->
  fresh (uuid e) st ->
  status (fst (serve (PostProjects b) e st)) = 201 ->
  let st' := snd (serve (PostProjects b) e st) in
  exists p,
    fst (serve (PostProjects b) e st) = mkResponse 201 (ProjectJson p)
    /\ Project.id p = uuid e
    /\ Project.supportCount p = 0
    /\ Project.totalSignal p = 0
    /\ projects st' = projects st ++ [(uuid e, p)]
    /\ signals st' = signals st
    /\ get_project (uuid e) st' = mkResponse 200 (DetailJson p []).
Proof.
  intros Hreach [Hfp Hfs] Hok. pose proof (reachable_invariant _ Hreach) as Hinv.
  rewrite serve_run in *. cbn [is_gated body_of handler_of] in *.
  destruct (snapshot_stores e st) as [Hp Hs].
  destruct (first_nonempty _); [|discriminate].
  destruct (has _ _); [|discriminate].
  destruct (post_projects_cases b (now e) (uuid e) (snd (snapshot e st))) as [Herr|[p Hresp]];
    [rewrite Hok in Herr; lia|].
  destruct (post_projects_created _ _ _ _ _ Hresp)
    as (name & owner & _ & _ & _ & Hid & _ & _ & _ & _ & Hc & Ht & _ & _ & Hst).
  exists p. rewrite Hresp, Hst. cbn [projects signals with_projects].
  rewrite Hp, Hs, (JsMapFacts.set_fresh _ _ _ Hfp).
  repeat split; auto.
  unfold get_project. cbn [projects signals with_projects].
  rewrite ?Hp, ?Hs, ?(JsMapFacts.set_fresh _ _ _ Hfp).
  rewrite (JsMapFacts.get_app_here _ _ _ [] Hfp). rewrite Hid.
  fold (signals_of (uuid e) (signals st)).
  rewrite (unreferenced _ _ _ (inv_reference _ Hinv) Hfp).
  cbn [Js.sort]. now rewrite slice_nil.
Qed.

(** X10: an update touches one record only.  An update answered with 200
    replaces the project stored under the identifier, in place: its id,
    owner, counters and creation time are unchanged, its update time is
    the time of the request, a field that is absent from the body keeps
    its value (as does the category when the supplied one is not
    recognised), at most ten tags are kept; every other project, the order
    of the store and the signal store are unchanged. *)
Theorem X10_update_touches_one_record (id : string) (b : Body.t) (e : env) (st : state) :
  reachable st ->
  status (fst (serve (PutProject id b) e st)) = 200 ->
  let st' := snd (serve (PutProject id b) e st) in
  exists p p',
    JsMap.get id (projects st) = Some p
    /\ fst (serve (PutProject id b) e st) = mkResponse 200 (ProjectJson p')
    /\ Project.id p' = Project.id p
    /\ Project.owner p' = Project.owner p
    /\ Project.supportCount p' = Project.supportCount p
    /\ Project.totalSignal p' = Project.totalSignal p
    /\ Project.createdAt p' = Project.createdAt p
    /\ Project.updatedAt p' = now e
    /\ (Body.name b = None -> Project.name p' = Project.name p)
    /\ (Body.description b = None -> Project.description p' = Project.description p)
    /\ (Body.url b = None -> Project.url p' = Project.url p)
    /\ (Body.logo b = None -> Project.logo p' = Project.logo p)
    /\ (Body.tags b = None -> Project.tags p' = Project.tags p)
    /\ (forall c, Body.category b = Some c -> has categories c = false ->
                  Project.category p' = Project.category p)
    /\ (Body.category b = None -> Project.category p' = Project.category p)
    /\ (List.length (Project.tags p') <= Nat.max 10 (List.length (Project.tags p)))%nat
    /\ JsMap.get id (projects st') = Some p'
    /\ (forall k, k <> id -> JsMap.get k (projects st') = JsMap.get k (projects st))
    /\ JsMap.keys (projects st') = JsMap.keys (projects st)
    /\ signals st' = signals st.
Proof.
  intros Hreach Hok. pose proof (reachable_invariant _ Hreach) as Hinv.
  rewrite serve_run in *. cbn [is_gated body_of handler_of] in *.
  destruct (snapshot_stores e st) as [Hp Hs].
  destruct (first_nonempty _); [|discriminate].
  destruct (has _ _); [|discriminate].
  unfold put_project in *. rewrite Hp in *.
  destruct (JsMap.get id (projects st)) as [p|] eqn:Hget; [|discriminate].
  destruct (owner_mismatch b p); [discriminate|].
  cbn [fst snd]. exists p, (apply_update b (now e) p).
  assert (Hget' : JsMap.get id (projects (snd (snapshot e st))) = Some p) by now rewrite Hp.
  pose proof (keyed_get _ _ _ _ (inv_projects _ Hinv) Hget) as Hid.
  repeat split; auto.
  - intros Hb. cbn. now rewrite Hb.
  - intros Hb. cbn. now rewrite Hb.
  - intros Hb. cbn. now rewrite Hb.
  - intros Hb. cbn. now rewrite Hb.
  - intros Hb. cbn. now rewrite Hb.
  - intros c Hb Hc. cbn [apply_update Project.category]. rewrite Hb.
    destruct (Js.truthy (Some c)) as [c'|] eqn:Hc'; [|reflexivity].
    apply JsFacts.truthy_some in Hc' as [[= <-] _]. now rewrite Hc.
  - intros Hb. cbn [apply_update Project.category]. now rewrite Hb.
  - cbn [apply_update Project.tags]. destruct (Body.tags b) as [l|]; [|lia].
    pose proof (ArrayFacts.slice_length l 0 10). lia.
  - rewrite (store_project_same_key _ id p (apply_update b (now e) p) Hget' Hid), Hp.
    apply JsMapFacts.get_set_same.
  - intros k Hk.
    rewrite (store_project_same_key _ id p (apply_update b (now e) p) Hget' Hid), Hp.
    now apply get_set_other.
  - rewrite (store_project_same_key _ id p (apply_update b (now e) p) Hget' Hid), Hp.
    apply keys_set_present. apply JsMapFacts.get_some_in_keys. congruence.
Qed.


Lemma in_get {V : Type} (m : JsMap.t V) k v :
  NoDup (JsMap.keys m) -> In (k, v) m -> JsMap.get k m = Some v.
Proof.
  unfold JsMap.keys, JsMap.get.
  induction m as [|[k0 v0] m IH]; simpl; [intros _ []|].
  intros Hnd [Heq|Hin]; inversion Hnd as [|? ? Hx Hnd']; subst.
  - injection Heq as -> ->. unfold JsMap.has_key; simpl. now rewrite String.eqb_refl.
  - unfold JsMap.has_key; simpl.
    destruct (String.eqb_spec k0 k) as [->|Hne]; [|now apply IH].
    exfalso. apply Hx. now apply (in_map fst) in Hin.
Qed.

Lemma filter_split_length {A : Type} (f : A -> bool) (l : list A) :
  List.length l
  = (List.length (filter f l) + List.length (filter (fun x => negb (f x)) l))%nat.
Proof.
  induction l as [|x l IH]; simpl; [reflexivity|].
  destruct (f x); simpl; lia.
Qed.

(** X12: the cascade of a deletion.  A project deletion answered with 200
    removes the project and exactly the signals that reference it: as many
    signals disappear as the project's supportCount says, every other
    project and every signal of another project stays stored under its
    identifier. *)
Theorem X12_delete_removes_exactly_its_signals
    (id : string) (b : Body.t) (e : env) (st : state) :
  reachable st ->
  status (fst (serve (DeleteProject id b) e st)) = 200 ->
  let st' := snd (serve (DeleteProject id b) e st) in
  exists p,
    JsMap.get id (projects st) = Some p
    /\ fst (serve (DeleteProject id b) e st) = mkResponse 200 (DeletedJson id)
    /\ Z.of_nat (List.length (signals st))
       = Z.of_nat (List.length (signals st')) + Project.supportCount p
    /\ (forall k, k <> id -> JsMap.get k (projects st') = JsMap.get k (projects st))
    /\ (forall k s, JsMap.get k (signals st) = Some s ->
                    Signal.projectId s <> id -> JsMap.get k (signals st') = Some s)
    /\ (forall k s, JsMap.get k (signals st') = Some s ->
                    JsMap.get k (signals st) = Some s /\ Signal.projectId s <> id).
Proof.
  intros Hreach Hok. pose proof (reachable_invariant _ Hreach) as Hinv.
  rewrite serve_run in *. cbn [is_gated handler_of] in *.
  unfold delete_project in *.
  destruct (JsMap.get id (projects st)) as [p|] eqn:Hget; [|discriminate].
  destruct (owner_mismatch b p); [discriminate|].
  destruct (counters_at _ _ _ Hinv Hget) as (Hid & Hcount & _).
  pose proof (proj1 (inv_signals _ Hinv)) as Hnd.
  rewrite Hid. rewrite (cascade_filter id _ Hnd).
  cbn [fst snd projects signals with_signals with_projects].
  exists p. split; [reflexivity|]. split; [reflexivity|].
  set (keep := fun e0 : string * Signal.t => negb (Signal.projectId (snd e0) =? id)%string).
  split; [|split; [|split]].
  - rewrite Hcount. unfold live_count, signals_of, JsMap.values.
    rewrite (filter_split_length keep (signals st)).
    assert (Hlen : List.length (filter (fun x => negb (keep x)) (signals st))
                   = List.length (filter (fun s => (Signal.projectId s =? id)%string)
                                    (map snd (signals st)))).
    { clear. induction (signals st) as [|[k s] l IH]; simpl; [reflexivity|].
      unfold keep at 1. simpl.
      destruct (Signal.projectId s =? id)%string; simpl; now rewrite IH. }
    rewrite Hlen. lia.
  - intros k Hk. unfold JsMap.delete. apply get_filter_other.
    intros v. unfold JsMap.has_key. cbn [fst].
    apply negb_true_iff. now apply String.eqb_neq.
  - intros k s Hs Hne. apply in_get.
    + apply (JsMapFacts.keyed_filter Signal.id keep _ (inv_signals _ Hinv)).
    + apply filter_In. split; [now apply JsMapFacts.get_in|].
      unfold keep. cbn [snd]. apply negb_true_iff. now apply String.eqb_neq.
  - intros k s Hs. apply JsMapFacts.get_in in Hs. apply filter_In in Hs as [Hin Hkeep].
    split; [now apply in_get|].
    unfold keep in Hkeep. cbn [snd] in Hkeep.
    apply negb_true_iff in Hkeep. now apply String.eqb_neq.
Qed.

Lemma find_app_last {A : Type} (f : A -> bool) l x :
  find f l = None -> f x = true -> find f (l ++ [x]) = Some x.
Proof.
  induction l as [|y l IH]; simpl; intros Hnone Hx.
  - now rewrite Hx.
  - destruct (f y); [discriminate|auto].
Qed.

Lemma set_counters_same p :
  set_counters (Project.supportCount p) (Project.totalSignal p) p = p.
Proof. now destruct p. Qed.

(** X13: signal then remove.  When an address signals a project for the
    first time (201) and the signal is then removed for the same address,
    in any letter case, the removal answers 200 with the identifier of
    that signal and both stores are back to what they were before the
    signal: the counters of the project are restored and no other record
    has changed. *)
Theorem X13_signal_then_remove_restores_stores
    (id : string) (b b' : Body.t) (e e' : env) (st : state) (a a' : string) :
  reachable st ->
  fresh (uuid e) st ->
  Body.address b = Some a ->
  Body.address b' = Some a' ->
  Js.toLowerCase a' = Js.toLowerCase a ->
  status (fst (serve (PostSignal id b) e st)) = 201 ->
  let st1 := snd (serve (PostSignal id b) e st) in
  fst (serve (DeleteSignal id b') e' st1) = mkResponse 200 (RemovedJson (uuid e))
  /\ projects (snd (serve (DeleteSignal id b') e' st1)) = projects st
  /\ signals (snd (serve (DeleteSignal id b') e' st1)) = signals st.
Proof.
  intros Hreach [Hfp Hfs] Hb Hb' Hcase Hok.
  pose proof (reachable_invariant _ Hreach) as Hinv.
  rewrite (serve_run (PostSignal id b)) in *. cbn [is_gated body_of handler_of] in *.
  destruct (snapshot_stores e st) as [Hp Hs].
  destruct (first_nonempty _) as [cand|]; [|discriminate].
  destruct (has _ _); [|discriminate].
  set (st0 := snd (snapshot e st)) in *.
  unfold post_signal in *. rewrite Hp in *.
  destruct (JsMap.get id (projects st)) as [p|] eqn:Hget; [|discriminate].
  assert (Hget0 : JsMap.get id (projects st0) = Some p) by now rewrite Hp.
  destruct (Js.truthy (Body.address b)) as [a0|] eqn:Ha; [|discriminate].
  apply JsFacts.truthy_some in Ha as [Ha Hne]. rewrite Hb in Ha. injection Ha as <-.
  destruct (isAddress a); [|discriminate]. cbn [negb] in *.
  destruct (counters_at _ _ _ Hinv Hget) as (Hid & Hcount & Htotal).
  rewrite Hid, Hs in *.
  destruct (find _ (JsMap.values (signals st))) as [ex|] eqn:Hfind; [discriminate|].
  cbn [snd]. clear Hok.
  set (amount := signalAmount (Body.amount b)).
  set (s := Signal.mk (uuid e) id (Js.toLowerCase a) amount _ (now e) None).
  set (p' := set_counters (Project.supportCount p + 1) (Project.totalSignal p + amount) p).
  set (st1 := store_project id p' _).
  assert (Hsig1 : signals st1 = signals st ++ [(uuid e, s)]).
  { unfold st1. cbn [signals store_project with_projects with_signals Signal.id s].
    rewrite ?Hs. now apply JsMapFacts.set_fresh. }
  assert (Hproj1 : projects st1 = JsMap.set id p' (projects st)).
  { unfold st1. rewrite (store_project_same_key _ id p p'); [|exact Hget0|exact Hid].
    cbn [projects with_signals]. now rewrite ?Hp. }
  assert (Hget1 : JsMap.get id (projects st1) = Some p')
    by (rewrite Hproj1; apply JsMapFacts.get_set_same).
  rewrite serve_run. cbn [is_gated handler_of]. unfold delete_signal.
  rewrite Hget1, Hb'.
  assert (Hne' : a' <> "").
  { intros ->. cbn in Hcase. destruct a; [contradiction|discriminate]. }
  rewrite (JsFacts.truthy_of_nonempty _ Hne'), Hcase.
  cbn [p' set_counters Project.id]. rewrite Hid, Hsig1.
  unfold JsMap.values in *. rewrite map_app. cbn [map snd].
  rewrite (find_app_last _ _ s Hfind);
    [|apply is_signal_of_true; split; reflexivity].
  cbn [fst snd s Signal.id Signal.amount p' set_counters Project.supportCount
         Project.totalSignal].
  split; [reflexivity|].
  pose proof (live_count_nonneg id (signals st)).
  pose proof (live_total_nonneg id _ (inv_amount _ Hinv)).
  replace (Z.max 0 (Project.supportCount p + 1 - 1)) with (Project.supportCount p) by lia.
  replace (Z.max 0 (Project.totalSignal p + amount - amount)) with (Project.totalSignal p)
    by lia.
  cbn [signals projects with_signals store_project with_projects].
  split.
  - assert (Hback : set_counters (Project.supportCount p) (Project.totalSignal p) p' = p)
      by (unfold p'; destruct p; reflexivity).
    rewrite Hback, Hid, Hproj1.
    destruct (JsMapFacts.get_split _ _ _ Hget) as (p1 & p2 & Hps & Hp1).
    rewrite Hps. now rewrite !(JsMapFacts.set_split _ _ _ _ _ Hp1).
  - rewrite Hsig1, JsMapFacts.delete_split.
    + apply app_nil_r.
    + now apply JsMapFacts.get_none_iff.
    + intros [].
Qed.

End ProjectRoutes.

Section ReadRoutes.

Context {E : Ethers}.

Lemma in_firstn {A : Type} n (l : list A) x : In x (firstn n l) -> In x l.
Proof.
  intros H. rewrite <- (firstn_skipn n l). apply in_or_app. now left.
Qed.

Lemma in_skipn {A : Type} n (l : list A) x : In x (skipn n l) -> In x l.
Proof.
  intros H. rewrite <- (firstn_skipn n l). apply in_or_app. now right.
Qed.

Lemma slice_in {A : Type} (l : list A) a b x : In x (Js.slice l a b) -> In x l.
Proof.
  unfold Js.slice. intros H.
  apply in_firstn in H. now apply in_skipn in H.
Qed.

(** A slice with non-negative bounds, as a segment of the list. *)
Lemma slice_segment {A : Type} (l : list A) start count :
  0 <= start -> 0 <= count ->
  Js.slice l start (start + count)
  = firstn (Z.to_nat count) (skipn (Z.to_nat start) l).
Proof.
  intros Hs Hc. unfold Js.slice, Js.relative_index.
  destruct (Z.ltb_spec start 0); [lia|].
  destruct (Z.ltb_spec (start + count) 0); [lia|].
  set (len := List.length l).
  destruct (Z.le_gt_cases start (Z.of_nat len)) as [Hin|Hout].
  - rewrite (Z.min_l start) by lia.
    destruct (Z.le_gt_cases (start + count) (Z.of_nat len)).
    + rewrite Z.min_l by lia. f_equal. lia.
    + rewrite Z.min_r by lia.
      rewrite !firstn_all2; [reflexivity| |]; rewrite length_skipn; fold len; lia.
  - rewrite !Z.min_r by lia. rewrite Nat2Z.id. subst len.
    rewrite skipn_all. rewrite (skipn_all2 l) by lia.
    now rewrite !firstn_nil.
Qed.

Lemma sort_ext {A : Type} (cmp cmp' : A -> A -> Z) l :
  (forall a b, cmp a b = cmp' a b) -> Js.sort cmp l = Js.sort cmp' l.
Proof.
  intros Hext. induction l as [|x l IH]; simpl; [reflexivity|].
  rewrite IH. generalize (Js.sort cmp' l). intros r.
  induction r as [|y r IHr]; simpl; [reflexivity|].
  now rewrite Hext, IHr.
Qed.

Lemma list_sort_by_key sort results :
  list_sort sort results
  = Js.sort (fun a b => sort_key sort b - sort_key sort a) results.
Proof.
  unfold list_sort, sort_key.
  repeat match goal with
         | |- context [match ?x with _ => _ end] => destruct x
         end; apply sort_ext; intros; lia.
Qed.

Lemma descending_app {A : Type} (key : A -> Z) l1 l2 :
  descending key (l1 ++ l2) ->
  descending key l1 /\ descending key l2
  /\ forall a b, In a l1 -> In b l2 -> key b <= key a.
Proof.
  unfold descending. induction l1 as [|x l1 IH]; simpl; intros Hs.
  - repeat split; [constructor|exact Hs|intros a b []].
  - inversion Hs as [|? ? Hs' Hall]; subst.
    destruct (IH Hs') as (H1 & H2 & H3).
    apply Forall_app in Hall as [Ha1 Ha2].
    repeat split; [constructor; assumption|exact H2|].
    intros a b [<-|Ha] Hb; [|now apply H3].
    rewrite Forall_forall in Ha2. now apply Ha2.
Qed.

Lemma filter_option_iff {A B : Type} (o : option B) (f : B -> A -> bool)
    (P : B -> A -> Prop) (l : list A) (p : A) :
  (forall b a, f b a = true <-> P b a) ->
  In p (match o with Some b => filter (f b) l | None => l end)
  <-> In p l /\ forall b, o = Some b -> P b p.
Proof.
  intros Hf. destruct o as [b|].
  - rewrite filter_In, Hf. split.
    + intros [Hin Hp]. split; [exact Hin|]. now intros b' [= <-].
    + intros [Hin Hp]. auto.
  - split; [intros Hin; split; [exact Hin|discriminate]|tauto].
Qed.

Lemma list_filter_iff qs l p :
  In p (list_filter qs l) <-> In p l /\ passes_filters qs p.
Proof.
  unfold list_filter, passes_filters. cbv zeta.
  rewrite (filter_option_iff (Js.truthy (Query.minSupport qs))
             (fun m q => Js.geb_number (Project.supportCount q) (Js.parseInt_string m))
             (fun m q => exists n, Js.parseInt_string m = Js.Num n
                                   /\ n <= Project.supportCount q)).
  2:{ intros m q. destruct (Js.parseInt_string m) as [|n]; cbn [Js.geb_number].
      - split; [discriminate|]. intros (n & Hn & _). discriminate.
      - rewrite Z.leb_le. split; [intros H; now exists n|].
        intros (n' & [= <-] & H). exact H. }
  rewrite (filter_option_iff (Js.truthy (Query.tag qs))
             (fun t q => has (Project.tags q) (Js.toLowerCase t))
             (fun t q => In (Js.toLowerCase t) (Project.tags q))).
  2:{ intros t q. apply has_iff. }
  rewrite (filter_option_iff (Js.truthy (Query.category qs))
             (fun c q => (Project.category q =? c)%string)
             (fun c q => Project.category q = c)).
  2:{ intros c q. apply String.eqb_eq. }
  tauto.
Qed.

Lemma fold_left_total {A : Type} (f : A -> Z) (l : list A) (a : Z) :
  fold_left (fun sum x => sum + f x) l a = a + total_of f l.
Proof.
  revert a. induction l as [|x l IH]; intros a; simpl; [lia|].
  rewrite IH. unfold total_of. simpl. lia.
Qed.

Lemma total_of_perm {A : Type} (f : A -> Z) (l l' : list A) :
  Permutation l l' -> total_of f l = total_of f l'.
Proof.
  unfold total_of. induction 1; simpl; lia.
Qed.

Lemma list_sort_nil sort : list_sort sort [] = [].
Proof. now rewrite list_sort_by_key. Qed.

(** X14: the filters of the project listing.  Every project on a page is
    stored and passes each filter the query supplies: its category equals
    the category parameter, its tags contain the lowercased tag parameter
    verbatim, and its supportCount is at least the parsed minSupport.  The
    reported total is 0 exactly when no stored project passes; a
    non-empty minSupport that does not parse as an integer filters out
    every project. *)
Theorem X14_list_filters (qs : Query.t) (st : state) :
  exists page total offset limit,
    get_projects qs st = mkResponse 200 (ListJson page total offset limit)
    /\ (forall p, In p page ->
          In p (JsMap.values (projects st)) /\ passes_filters qs p)
    /\ (total = 0 <->
        forall p, In p (JsMap.values (projects st)) -> ~ passes_filters qs p)
    /\ (forall m, Js.truthy (Query.minSupport qs) = Some m ->
                  Js.parseInt_string m = Js.NaN -> total = 0 /\ page = []).
Proof.
  unfold get_projects. do 4 eexists. split; [reflexivity|].
  set (found := list_filter qs (JsMap.values (projects st))).
  assert (Hempty : Z.of_nat (List.length (list_sort (Query.sort qs) found)) = 0
                   <-> forall p, In p (JsMap.values (projects st)) -> ~ passes_filters qs p).
  { rewrite list_sort_length. split.
    - intros Hlen p Hp Hpass.
      assert (Hin : In p found) by (apply list_filter_iff; auto).
      destruct found; [contradiction|simpl in Hlen; lia].
    - intros Hnone. destruct found as [|p l] eqn:Hf; [reflexivity|].
      exfalso. assert (Hin : In p found) by (rewrite Hf; now left).
      apply list_filter_iff in Hin as [Hin Hpass]. exact (Hnone p Hin Hpass). }
  split; [|split; [exact Hempty|]].
  - intros p Hp. apply slice_in in Hp.
    rewrite list_sort_by_key in Hp. apply ArrayFacts.sort_in in Hp.
    now apply list_filter_iff.
  - intros m Hm Hnan.
    assert (Hnone : forall p, In p (JsMap.values (projects st)) -> ~ passes_filters qs p).
    { intros p _ (_ & _ & H). destruct (H m Hm) as (n & Hn & _). congruence. }
    split; [now apply Hempty|].
    apply Hempty in Hnone.
    destruct (list_sort (Query.sort qs) found); [apply slice_nil|simpl in Hnone; lia].
Qed.

(** X15: a page of the listing is a segment of the ranking.  For an
    offset and a limit that do not parse to negative numbers, the projects
    that pass the filters are ranked in descending order of the sort key
    (supportCount, totalSignal, creation time, or its negative for
    "oldest"); the page is the segment of that ranking that starts at the
    offset and has the limit as its length (less at the end), so no
    project ranked after the page has a larger key than one on it. *)
Theorem X15_page_is_a_ranked_segment (qs : Query.t) (st : state) :
  0 <= Js.or_default (Js.parseInt (Query.offset qs)) 0 ->
  0 <= Js.or_default (Js.parseInt (Query.limit qs)) 50 ->
  exists before page after total offset limit,
    get_projects qs st = mkResponse 200 (ListJson page total offset limit)
    /\ (forall p, In p (before ++ page ++ after) <->
                  In p (JsMap.values (projects st)) /\ passes_filters qs p)
    /\ Z.of_nat (List.length (before ++ page ++ after)) = total
    /\ descending (sort_key (Query.sort qs)) (before ++ page ++ after)
    /\ Z.of_nat (List.length before) = Z.min offset total
    /\ Z.of_nat (List.length page) = Z.min limit (total - Z.min offset total)
    /\ (forall p c, In p page -> In c after ->
                    sort_key (Query.sort qs) c <= sort_key (Query.sort qs) p).
Proof.
  intros Hoffset Hlimit. unfold get_projects.
  set (ranked := list_sort (Query.sort qs) _).
  set (start := Js.or_default (Js.parseInt (Query.offset qs)) 0) in *.
  set (count := Z.min (Js.or_default (Js.parseInt (Query.limit qs)) 50) 100).
  assert (Hcount : 0 <= count) by (unfold count; lia).
  rewrite (slice_segment ranked start count Hoffset Hcount).
  set (rest := skipn (Z.to_nat start) ranked).
  exists (firstn (Z.to_nat start) ranked), (firstn (Z.to_nat count) rest),
    (skipn (Z.to_nat count) rest).
  do 3 eexists. split; [reflexivity|].
  assert (Hwhole : firstn (Z.to_nat start) ranked
                   ++ firstn (Z.to_nat count) rest ++ skipn (Z.to_nat count) rest
                   = ranked)
    by (unfold rest; now rewrite !firstn_skipn).
  assert (Hdesc : descending (sort_key (Query.sort qs)) ranked)
    by (unfold ranked; rewrite list_sort_by_key; apply ArrayFacts.sort_descending).
  rewrite Hwhole. split; [|split; [reflexivity|split; [exact Hdesc|]]].
  - intros p. unfold ranked. rewrite list_sort_by_key, ArrayFacts.sort_in.
    apply list_filter_iff.
  - rewrite <- Hwhole in Hdesc.
    apply descending_app in Hdesc as (_ & Hdesc & _).
    apply descending_app in Hdesc as (_ & _ & Hafter).
    split; [|split; [|exact Hafter]].
    + rewrite length_firstn. lia.
    + rewrite length_firstn. unfold rest. rewrite length_skipn. lia.
Qed.

(** X16: the landing page.  [topProjects] holds min(5, number of
    projects) stored projects in descending order of supportCount, and no
    project left out has a larger supportCount than one shown. *)
Theorem X16_top_projects (st : state) :
  exists rest,
    Permutation (topProjects st ++ rest) (JsMap.values (projects st))
    /\ List.length (topProjects st)
       = Nat.min 5 (List.length (JsMap.values (projects st)))
    /\ descending Project.supportCount (topProjects st)
    /\ forall p q, In p (topProjects st) -> In q rest ->
                   Project.supportCount q <= Project.supportCount p.
Proof.
  unfold topProjects.
  set (ranked := Js.sort _ (JsMap.values (projects st))).
  rewrite (ArrayFacts.slice_prefix ranked 5) by lia.
  exists (skipn (Z.to_nat 5) ranked).
  assert (Hdesc : descending Project.supportCount ranked)
    by apply ArrayFacts.sort_descending.
  rewrite <- (firstn_skipn (Z.to_nat 5) ranked) in Hdesc.
  apply descending_app in Hdesc as (Htop & _ & Hrest).
  repeat split; auto.
  - rewrite firstn_skipn. symmetry. apply ArrayFacts.sort_perm.
  - rewrite length_firstn. unfold ranked. now rewrite ArrayFacts.sort_length.
Qed.

(** X17: the detail view of a project.  For a stored project, get-by-id
    returns the stored record together with min(20, supportCount) of its
    live signals, every one referencing that project, in descending order
    of creation time, so that no live signal of the project left out is
    more recent than one listed. *)
Theorem X17_project_detail (id : string) (st : state) (p : Project.t) :
  reachable st ->
  JsMap.get id (projects st) = Some p ->
  exists recent older,
    get_project id st = mkResponse 200 (DetailJson p recent)
    /\ Z.of_nat (List.length recent) = Z.min 20 (Project.supportCount p)
    /\ Permutation (recent ++ older) (signals_of id (signals st))
    /\ descending Signal.createdAt recent
    /\ forall s s', In s recent -> In s' older ->
                    Signal.createdAt s' <= Signal.createdAt s.
Proof.
  intros Hreach Hget. pose proof (reachable_invariant _ Hreach) as Hinv.
  destruct (counters_at _ _ _ Hinv Hget) as (Hid & Hcount & _).
  unfold get_project. rewrite Hget, Hid.
  fold (signals_of id (signals st)).
  set (ranked := Js.sort _ (signals_of id (signals st))).
  rewrite (ArrayFacts.slice_prefix ranked 20) by lia.
  exists (firstn (Z.to_nat 20) ranked), (skipn (Z.to_nat 20) ranked).
  assert (Hdesc : descending Signal.createdAt ranked)
    by apply ArrayFacts.sort_descending.
  rewrite <- (firstn_skipn (Z.to_nat 20) ranked) in Hdesc.
  apply descending_app in Hdesc as (Htop & _ & Hrest).
  repeat split; auto.
  - rewrite length_firstn. unfold ranked. rewrite ArrayFacts.sort_length.
    rewrite Hcount. unfold live_count. lia.
  - rewrite firstn_skipn. symmetry. apply ArrayFacts.sort_perm.
Qed.

Lemma filter_one {A : Type} (f : A -> bool) (l : list A) x :
  In x l -> f x = true -> (1 <= List.length (filter f l))%nat.
Proof.
  induction l as [|y l IH]; simpl; [intros []|].
  intros [->|Hin] Hx.
  - rewrite Hx. simpl. lia.
  - specialize (IH Hin Hx). destruct (f y); simpl; lia.
Qed.

Lemma distinct_projects (l : list Signal.t) (a : string) :
  (forall pid, (List.length (filter (is_signal_of pid a) l) <= 1)%nat) ->
  NoDup (map Signal.projectId (filter (fun s => (Signal.address s =? a)%string) l)).
Proof.
  induction l as [|s l IH]; intros Hone; simpl; [constructor|].
  assert (Hone' : forall pid, (List.length (filter (is_signal_of pid a) l) <= 1)%nat).
  { intros pid. specialize (Hone pid). simpl in Hone.
    destruct (is_signal_of pid a s); simpl in Hone; lia. }
  destruct (String.eqb_spec (Signal.address s) a) as [Ha|Ha]; [|auto].
  simpl. constructor; [|auto].
  intros Hin. apply in_map_iff in Hin as (s' & Hpid & Hs').
  apply filter_In in Hs' as [Hs' Ha']. apply String.eqb_eq in Ha'.
  specialize (Hone (Signal.projectId s)). simpl in Hone.
  assert (Hs : is_signal_of (Signal.projectId s) a s = true)
    by (apply is_signal_of_true; auto).
  rewrite Hs in Hone. simpl in Hone.
  assert (Hs2 : is_signal_of (Signal.projectId s) a s' = true)
    by (apply is_signal_of_true; auto).
  pose proof (filter_one _ _ _ Hs' Hs2). lia.
Qed.

(** X18: the signals of a supporter.  For a well-formed address, in any
    letter case, the aggregation lists exactly the live signals whose
    address is its lowercase form, most recent first; they belong to
    pairwise different projects, each is annotated with the name and
    category of its stored project (the annotation is never missing), and
    the reported count and total are the number of listed signals and the
    sum of their amounts. *)
Theorem X18_supporter_aggregation (address : string) (st : state) :
  reachable st ->
  isAddress address = true ->
  exists sigs,
    get_supporters address st
    = mkResponse 200
        (SupporterJson (Js.toLowerCase address) (Z.of_nat (List.length sigs))
           (total_of (fun x => Signal.amount (SupporterSignal.signal x)) sigs) sigs)
    /\ (forall s, In s (map SupporterSignal.signal sigs) <->
                  In s (JsMap.values (signals st))
                  /\ Signal.address s = Js.toLowerCase address)
    /\ NoDup (map (fun x => Signal.projectId (SupporterSignal.signal x)) sigs)
    /\ descending (fun x => Signal.createdAt (SupporterSignal.signal x)) sigs
    /\ (forall x, In x sigs ->
          exists p,
            JsMap.get (Signal.projectId (SupporterSignal.signal x)) (projects st) = Some p
            /\ SupporterSignal.projectName x = Some (Project.name p)
            /\ SupporterSignal.projectCategory x = Some (Project.category p)).
Proof.
  intros Hreach Hvalid. pose proof (reachable_invariant _ Hreach) as Hinv.
  unfold get_supporters. rewrite Hvalid. cbn [negb].
  set (addr := Js.toLowerCase address).
  set (mine := filter (fun s => (Signal.address s =? addr)%string)
                 (JsMap.values (signals st))).
  set (annotate := fun s : Signal.t => SupporterSignal.mk s _ _).
  set (sigs := Js.sort _ (map annotate mine)).
  assert (Hperm : Permutation (map annotate mine) sigs) by apply ArrayFacts.sort_perm.
  assert (Hsignal : forall l, map SupporterSignal.signal (map annotate l) = l).
  { intros l. rewrite map_map. cbn [annotate SupporterSignal.signal]. apply map_id. }
  exists sigs. rewrite fold_left_total. split; [reflexivity|].
  split; [|split; [|split]].
  - intros s.
    rewrite <- (Permutation_in' (eq_refl s) (Permutation_map SupporterSignal.signal Hperm)).
    rewrite Hsignal. unfold mine. rewrite filter_In, String.eqb_eq. reflexivity.
  - apply (Permutation_NoDup
             (Permutation_map (fun x => Signal.projectId (SupporterSignal.signal x)) Hperm)).
    rewrite map_map. cbn [annotate SupporterSignal.signal].
    apply distinct_projects. intros pid. apply (inv_unique _ Hinv pid addr).
  - apply ArrayFacts.sort_descending.
  - intros x Hx. apply (Permutation_in _ (Permutation_sym Hperm)) in Hx.
    apply in_map_iff in Hx as (s & <- & Hs). apply filter_In in Hs as [Hs _].
    cbn [annotate SupporterSignal.signal SupporterSignal.projectName
           SupporterSignal.projectCategory].
    pose proof (inv_reference _ Hinv) as Href. rewrite Forall_forall in Href.
    specialize (Href _ Hs).
    destruct (JsMap.get (Signal.projectId s) (projects st)) as [p|]; [|contradiction].
    now exists p.
Qed.

End ReadRoutes.

Section Discovery.

Context {E : Ethers}.

Lemma keys_snoc {V : Type} (m : JsMap.t V) k v :
  JsMap.keys (m ++ [(k, v)]) = JsMap.keys m ++ [k].
Proof. unfold JsMap.keys. now rewrite map_app. Qed.

Lemma keys_bump k m :
  JsMap.keys (bump k m)
  = if in_dec string_dec k (JsMap.keys m) then JsMap.keys m else JsMap.keys m ++ [k].
Proof.
  unfold bump. destruct (in_dec string_dec k (JsMap.keys m)) as [Hin|Hout].
  - now apply keys_set_present.
  - rewrite JsMapFacts.set_fresh by now apply JsMapFacts.get_none_iff.
    apply keys_snoc.
Qed.

Lemma nodup_bump k m : NoDup (JsMap.keys m) -> NoDup (JsMap.keys (bump k m)).
Proof.
  intros Hnd. rewrite keys_bump.
  destruct (in_dec string_dec k (JsMap.keys m)); [exact Hnd|].
  apply (Permutation_NoDup (Permutation_cons_append _ _)). now constructor.
Qed.

Lemma or_default_zero n : Js.or_default (Js.Num n) 0 = n.
Proof. unfold Js.or_default. destruct (Z.eqb_spec n 0); congruence. Qed.

Lemma get_bump_same k m :
  JsMap.get k (bump k m)
  = Some (match JsMap.get k m with Some n => n | None => 0 end + 1).
Proof.
  unfold bump. rewrite JsMapFacts.get_set_same.
  destruct (JsMap.get k m); [now rewrite or_default_zero|reflexivity].
Qed.

Lemma get_bump_other k k' m : k' <> k -> JsMap.get k' (bump k m) = JsMap.get k' m.
Proof. intros H. unfold bump. now apply get_set_other. Qed.

Lemma occurrences_cons k k0 ks :
  occurrences k (k0 :: ks) = indicator (k =? k0)%string + occurrences k ks.
Proof.
  unfold occurrences. cbn [filter].
  destruct (k =? k0)%string; cbn [indicator List.length]; lia.
Qed.

Lemma occurrences_nonneg k ks : 0 <= occurrences k ks.
Proof. unfold occurrences. lia. Qed.

Lemma occurrences_in k ks : 0 < occurrences k ks <-> In k ks.
Proof.
  induction ks as [|k0 ks IH]; [cbn; split; [lia|intros []]|].
  rewrite occurrences_cons. cbn [In].
  pose proof (occurrences_nonneg k ks).
  destruct (String.eqb_spec k k0) as [->|Hne]; cbn [indicator].
  - split; [now left|lia].
  - rewrite <- IH. split; [intros; right; lia|intros [Heq|Hpos]; [congruence|lia]].
Qed.

Lemma bump_all_counted ks : forall m k n,
  JsMap.get k m = Some n ->
  JsMap.get k (bump_all ks m) = Some (n + occurrences k ks).
Proof.
  induction ks as [|k0 ks IH]; intros m k n Hget; cbn [bump_all fold_left].
  - rewrite Hget. f_equal. unfold occurrences. cbn. lia.
  - fold (bump_all ks (bump k0 m)). rewrite occurrences_cons.
    destruct (String.eqb_spec k k0) as [->|Hne]; cbn [indicator].
    + rewrite (IH _ k0 (n + 1)); [f_equal; lia|].
      now rewrite get_bump_same, Hget.
    + rewrite (IH _ k n); [f_equal; lia|].
      now rewrite get_bump_other.
Qed.

Lemma bump_all_new ks : forall m k,
  JsMap.get k m = None ->
  JsMap.get k (bump_all ks m)
  = if occurrences k ks =? 0 then None else Some (occurrences k ks).
Proof.
  induction ks as [|k0 ks IH]; intros m k Hget; cbn [bump_all fold_left].
  - now rewrite Hget.
  - fold (bump_all ks (bump k0 m)). rewrite occurrences_cons.
    pose proof (occurrences_nonneg k ks).
    destruct (String.eqb_spec k k0) as [->|Hne]; cbn [indicator].
    + rewrite (bump_all_counted ks _ k0 1); [|now rewrite get_bump_same, Hget].
      destruct (Z.eqb_spec (1 + occurrences k0 ks) 0); [lia|reflexivity].
    + rewrite (IH _ k); [reflexivity|now rewrite get_bump_other].
Qed.

Lemma bump_all_nodup ks : forall m,
  NoDup (JsMap.keys m) -> NoDup (JsMap.keys (bump_all ks m)).
Proof.
  induction ks as [|k0 ks IH]; intros m Hnd; cbn [bump_all fold_left]; [exact Hnd|].
  apply IH. now apply nodup_bump.
Qed.

Lemma bump_all_keys_known ks : forall m,
  (forall k, In k ks -> In k (JsMap.keys m)) ->
  JsMap.keys (bump_all ks m) = JsMap.keys m.
Proof.
  induction ks as [|k0 ks IH]; intros m Hknown; cbn [bump_all fold_left]; [reflexivity|].
  fold (bump_all ks (bump k0 m)).
  assert (Hk : JsMap.keys (bump k0 m) = JsMap.keys m).
  { rewrite keys_bump. destruct (in_dec string_dec k0 (JsMap.keys m)) as [_|Hout];
      [reflexivity|]. exfalso. apply Hout, Hknown. now left. }
  rewrite IH; [exact Hk|]. intros k Hin. rewrite Hk. apply Hknown. now right.
Qed.

Lemma category_counts_eq st :
  category_counts st
  = bump_all (map Project.category (JsMap.values (projects st)))
      (map (fun c => (c, 0)) categories).
Proof.
  unfold category_counts, bump_all.
  change (fold_left (fun counts c => JsMap.set c 0 counts) categories JsMap.empty)
    with (map (fun c : string => (c, 0)) categories).
  generalize (map (fun c : string => (c, 0)) categories).
  induction (JsMap.values (projects st)) as [|p l IH]; intros m; simpl; [reflexivity|].
  apply IH.
Qed.

Lemma tag_counts_eq st :
  tag_counts st
  = bump_all (flat_map Project.tags (JsMap.values (projects st))) JsMap.empty.
Proof.
  unfold tag_counts. generalize (@JsMap.empty Z).
  induction (JsMap.values (projects st)) as [|p l IH]; intros m; simpl; [reflexivity|].
  rewrite IH. unfold bump_all. now rewrite fold_left_app.
Qed.

Lemma occurrences_map (c : string) (l : list Project.t) :
  occurrences c (map Project.category l)
  = Z.of_nat (List.length (filter (fun p => (Project.category p =? c)%string) l)).
Proof.
  unfold occurrences. f_equal.
  induction l as [|p l IH]; simpl; [reflexivity|].
  rewrite (String.eqb_sym c). destruct (Project.category p =? c)%string; simpl; now rewrite IH.
Qed.

Lemma count_entries_in counts entry :
  NoDup (JsMap.keys counts) ->
  (In entry (count_entries counts)
   <-> JsMap.get (Count.name entry) counts = Some (Count.count entry)).
Proof.
  intros Hnd. unfold count_entries. rewrite in_map_iff. split.
  - intros ([k v] & <- & Hin). cbn. now apply in_get.
  - intros Hget. apply JsMapFacts.get_in in Hget.
    exists (Count.name entry, Count.count entry). split; [now destruct entry|exact Hget].
Qed.

Lemma count_entries_names counts :
  map Count.name (count_entries counts) = JsMap.keys counts.
Proof. unfold count_entries, JsMap.keys. rewrite map_map. reflexivity. Qed.

Lemma sum_indicator (k : string) (l : list string) :
  NoDup l -> In k l ->
  total_of (fun c => indicator (c =? k)%string) l = 1.
Proof.
  unfold total_of. induction l as [|c l IH]; intros Hnd Hin; [contradiction|].
  inversion Hnd as [|? ? Hc Hnd']; subst. cbn [fold_right].
  destruct Hin as [->|Hin].
  - rewrite String.eqb_refl. cbn [indicator].
    assert (Hzero : fold_right (fun x acc => indicator (x =? k)%string + acc) 0 l = 0).
    { clear IH Hnd Hnd'. induction l as [|d l IHl]; [reflexivity|].
      cbn [fold_right]. destruct (String.eqb_spec d k) as [->|_].
      - exfalso. apply Hc. now left.
      - cbn [indicator]. rewrite IHl; [reflexivity|]. intros H. apply Hc. now right. }
    lia.
  - destruct (String.eqb_spec c k) as [->|_]; [contradiction|].
    cbn [indicator]. now rewrite IH.
Qed.

Lemma total_of_ext {A : Type} (f g : A -> Z) (l : list A) :
  (forall x, In x l -> f x = g x) -> total_of f l = total_of g l.
Proof.
  unfold total_of. induction l as [|x l IH]; intros H; [reflexivity|].
  cbn [fold_right]. rewrite (H x) by now left.
  rewrite IH; [reflexivity|]. intros y Hy. apply H. now right.
Qed.

Lemma total_of_map {A B : Type} (f : B -> Z) (g : A -> B) (l : list A) :
  total_of f (map g l) = total_of (fun x => f (g x)) l.
Proof.
  unfold total_of. induction l as [|x l IH]; cbn [map fold_right]; congruence.
Qed.

Lemma total_of_plus {A : Type} (f g : A -> Z) (l : list A) :
  total_of (fun x => f x + g x) l = total_of f l + total_of g l.
Proof.
  unfold total_of. induction l as [|x l IH]; cbn [fold_right]; [|rewrite IH]; lia.
Qed.

Lemma total_of_zero {A : Type} (l : list A) : total_of (fun _ => 0) l = 0.
Proof.
  unfold total_of. induction l as [|x l IH]; cbn [fold_right]; [|rewrite IH]; lia.
Qed.

Lemma total_of_one {A : Type} (l : list A) :
  total_of (fun _ => 1) l = Z.of_nat (List.length l).
Proof.
  unfold total_of.
  induction l as [|x l IH]; cbn [fold_right List.length]; [|rewrite IH]; lia.
Qed.

Lemma occurrences_total (cs ks : list string) :
  NoDup cs -> (forall k, In k ks -> In k cs) ->
  total_of (fun c => occurrences c ks) cs = Z.of_nat (List.length ks).
Proof.
  intros Hnd. induction ks as [|k ks IH]; intros Hin.
  - unfold occurrences. cbn. apply total_of_zero.
  - rewrite (total_of_ext _ (fun c => indicator (c =? k)%string + occurrences c ks)).
    + rewrite total_of_plus, sum_indicator, IH; auto.
      * cbn [List.length]. lia.
      * intros k' Hk'. apply Hin. now right.
      * apply Hin. now left.
    + intros c _. apply occurrences_cons.
Qed.

(** X19: the category listing.  In every reachable state [GET /categories]
    lists each of the seven fixed categories exactly once, with the number
    of stored projects of that category (0 included), in descending order
    of count; the counts add up to the number of stored projects. *)
Theorem X19_category_counts (st : state) :
  reachable st ->
  Permutation (map Count.name (get_categories st)) categories
  /\ (forall entry, In entry (get_categories st) ->
        Count.count entry = projects_in (Count.name entry) st)
  /\ descending Count.count (get_categories st)
  /\ total_of Count.count (get_categories st)
     = Z.of_nat (List.length (JsMap.values (projects st))).
Proof.
  intros Hreach. destruct (reachable_records_ok _ Hreach) as [Hok _].
  rewrite Forall_forall in Hok.
  set (ks := map Project.category (JsMap.values (projects st))).
  set (m0 := map (fun c : string => (c, 0)) categories).
  assert (Hknown : forall k, In k ks -> In k (JsMap.keys m0)).
  { intros k Hk. apply in_map_iff in Hk as (p & <- & Hp).
    destruct (Hok _ Hp) as [_ Hcat _ _ _]. exact Hcat. }
  assert (Hkeys : JsMap.keys (category_counts st) = categories).
  { rewrite category_counts_eq. fold ks m0. now rewrite bump_all_keys_known. }
  assert (Hnd : NoDup (JsMap.keys (category_counts st))).
  { rewrite Hkeys. unfold categories.
    repeat (constructor; [cbn; intuition discriminate|]). constructor. }
  assert (Hcount : forall c n, JsMap.get c (category_counts st) = Some n ->
                               n = projects_in c st).
  { intros c n Hget.
    assert (Hc : In c categories).
    { rewrite <- Hkeys. apply JsMapFacts.get_some_in_keys. congruence. }
    rewrite category_counts_eq in Hget. fold ks m0 in Hget.
    rewrite (bump_all_counted ks m0 c 0) in Hget.
    - injection Hget as <-. unfold ks. rewrite occurrences_map. reflexivity.
    - apply in_get.
      + change (NoDup categories). rewrite <- Hkeys. exact Hnd.
      + unfold m0. apply in_map_iff. now exists c. }
  unfold get_categories.
  assert (Hperm : Permutation (count_entries (category_counts st))
                    (Js.sort by_count (count_entries (category_counts st))))
    by apply ArrayFacts.sort_perm.
  split; [|split; [|split]].
  - rewrite <- (Permutation_map Count.name Hperm), count_entries_names. now rewrite Hkeys.
  - intros entry Hin. apply ArrayFacts.sort_in in Hin.
    apply (count_entries_in _ _ Hnd) in Hin. now apply Hcount.
  - apply ArrayFacts.sort_descending.
  - rewrite <- (total_of_perm Count.count _ _ Hperm).
    rewrite (total_of_ext _ (fun entry => occurrences (Count.name entry) ks)).
    + rewrite <- (total_of_map (fun c => occurrences c ks) Count.name).
      rewrite count_entries_names, Hkeys.
      rewrite occurrences_total; [unfold ks; now rewrite length_map| |exact Hknown].
      rewrite <- Hkeys. exact Hnd.
    + intros entry Hin. apply (count_entries_in _ _ Hnd) in Hin.
      apply Hcount in Hin. rewrite Hin. unfold ks. now rewrite occurrences_map.
Qed.

Lemma nodup_firstn {A : Type} n (l : list A) : NoDup l -> NoDup (firstn n l).
Proof.
  intros Hnd. rewrite <- (firstn_skipn n l) in Hnd.
  now apply NoDup_app_remove_r in Hnd.
Qed.

(** X20: the tag listing.  [GET /tags] lists at most fifty tags, each once,
    each with the number of times it occurs in the tag lists of the stored
    projects (at least 1), in descending order of count; a tag in use is
    left out only when fifty tags are listed, each with at least as many
    uses. *)
Theorem X20_tag_counts (st : state) :
  (List.length (get_tags st) <= 50)%nat
  /\ NoDup (map Count.name (get_tags st))
  /\ (forall entry, In entry (get_tags st) ->
        Count.count entry = tag_uses (Count.name entry) st
        /\ 1 <= Count.count entry)
  /\ descending Count.count (get_tags st)
  /\ (forall t, 0 < tag_uses t st ->
        In t (map Count.name (get_tags st))
        \/ (List.length (get_tags st) = 50%nat
            /\ forall entry, In entry (get_tags st) ->
                             tag_uses t st <= Count.count entry)).
Proof.
  set (ks := flat_map Project.tags (JsMap.values (projects st))).
  assert (Huses : forall t, tag_uses t st = occurrences t ks) by reflexivity.
  assert (Hnd : NoDup (JsMap.keys (tag_counts st))).
  { rewrite tag_counts_eq. apply bump_all_nodup. constructor. }
  assert (Hget : forall t, JsMap.get t (tag_counts st)
                           = if occurrences t ks =? 0 then None else Some (occurrences t ks)).
  { intros t. rewrite tag_counts_eq. now apply bump_all_new. }
  unfold get_tags.
  set (ranked := Js.sort by_count (count_entries (tag_counts st))).
  rewrite (ArrayFacts.slice_prefix ranked 50) by lia.
  assert (Hperm : Permutation (count_entries (tag_counts st)) ranked)
    by apply ArrayFacts.sort_perm.
  assert (Hentry : forall entry, In entry ranked ->
                                 Count.count entry = tag_uses (Count.name entry) st
                                 /\ 1 <= Count.count entry).
  { intros entry Hin. apply ArrayFacts.sort_in in Hin.
    apply (count_entries_in _ _ Hnd) in Hin. rewrite Hget in Hin.
    pose proof (occurrences_nonneg (Count.name entry) ks).
    destruct (Z.eqb_spec (occurrences (Count.name entry) ks) 0); [discriminate|].
    injection Hin as <-. rewrite Huses. lia. }
  assert (Hdesc : descending Count.count ranked) by apply ArrayFacts.sort_descending.
  rewrite <- (firstn_skipn (Z.to_nat 50) ranked) in Hdesc.
  apply descending_app in Hdesc as (Htop & _ & Hrest).
  split; [rewrite length_firstn; lia|].
  split; [|split; [|split; [exact Htop|]]].
  - rewrite <- firstn_map. apply nodup_firstn.
    apply (Permutation_NoDup (Permutation_map Count.name Hperm)).
    now rewrite count_entries_names.
  - intros entry Hin. apply Hentry. now apply in_firstn in Hin.
  - intros t Hused.
    assert (Hin : In (Count.mk t (tag_uses t st)) ranked).
    { apply ArrayFacts.sort_in. apply (count_entries_in _ _ Hnd). cbn.
      rewrite Hget, <- Huses.
      destruct (Z.eqb_spec (tag_uses t st) 0); [lia|reflexivity]. }
    rewrite <- (firstn_skipn (Z.to_nat 50) ranked) in Hin.
    apply in_app_or in Hin as [Hin|Hin].
    + left. apply in_map_iff. now exists (Count.mk t (tag_uses t st)).
    + right. split.
      * rewrite length_firstn.
        assert (Hlong : (Z.to_nat 50 < List.length ranked)%nat).
        { destruct (Nat.lt_ge_cases (Z.to_nat 50) (List.length ranked)) as [H|H];
            [exact H|]. rewrite skipn_all2 in Hin by exact H. contradiction. }
        lia.
      * intros entry Hentry'. exact (Hrest _ _ Hentry' Hin).
Qed.

Lemma set_of_step (l : list string) : forall acc,
  NoDup acc ->
  let set := fold_left (fun set x => if has set x then set else set ++ [x]) l acc in
  NoDup set
  /\ (forall x, In x set <-> In x acc \/ In x l)
  /\ (List.length set <= List.length acc + List.length l)%nat.
Proof.
  induction l as [|y l IH]; intros acc Hnd; cbn [fold_left].
  - split; [exact Hnd|]. split; [intros x; cbn [In]; tauto|lia].
  - destruct (has acc y) eqn:Hy.
    + destruct (IH acc Hnd) as (H1 & H2 & H3). apply has_iff in Hy.
      split; [exact H1|]. split; [|cbn [List.length]; lia].
      intros x. rewrite H2. cbn [In]. split; [tauto|].
      intros [H|[<-|H]]; auto.
    + assert (Hnd' : NoDup (acc ++ [y])).
      { apply (Permutation_NoDup (Permutation_cons_append _ _)). constructor; [|exact Hnd].
        intros Hin. apply has_iff in Hin. congruence. }
      destruct (IH _ Hnd') as (H1 & H2 & H3).
      split; [exact H1|]. split.
      * intros x. rewrite H2, in_app_iff. cbn [In]. tauto.
      * rewrite length_app in H3. cbn [List.length] in *. lia.
Qed.

Lemma indicator_one (ps : JsMap.t Project.t) (k : string) :
  keyed Project.id ps -> In k (JsMap.keys ps) ->
  total_of (fun p => indicator (k =? Project.id p)%string) (JsMap.values ps) = 1.
Proof.
  intros [Hnd Hall] Hin.
  rewrite (total_of_ext _ (fun p => indicator (Project.id p =? k)%string))
    by (intros; now rewrite String.eqb_sym).
  unfold JsMap.values. rewrite total_of_map.
  rewrite (total_of_ext _ (fun e => indicator (fst e =? k)%string)).
  - rewrite <- (total_of_map (fun c => indicator (c =? k)%string) fst).
    now apply sum_indicator.
  - intros e He. rewrite Forall_forall in Hall. now rewrite (Hall _ He).
Qed.

(** The sum of a weight over the signals of every stored project is its
    sum over all signals, when each signal references one stored project. *)
Lemma total_by_project (w : Signal.t -> Z) (ps : JsMap.t Project.t)
    (ss : JsMap.t Signal.t) :
  keyed Project.id ps ->
  Forall (fun s => In (Signal.projectId s) (JsMap.keys ps)) (JsMap.values ss) ->
  total_of (fun p => total_of w (signals_of (Project.id p) ss)) (JsMap.values ps)
  = total_of w (JsMap.values ss).
Proof.
  intros Hk. induction ss as [|[k s] ss IH]; intros Href.
  - cbn. apply total_of_zero.
  - unfold JsMap.values in Href. cbn [map snd] in Href.
    inversion Href as [|? ? Hs Href']; subst.
    rewrite (total_of_ext _
               (fun p => indicator (Signal.projectId s =? Project.id p)%string * w s
                         + total_of w (signals_of (Project.id p) ss))).
    + rewrite total_of_plus, IH by exact Href'.
      rewrite (total_of_ext _
                 (fun p => w s * indicator (Signal.projectId s =? Project.id p)%string))
        by (intros; lia).
      assert (Hscale : forall (l : list Project.t) (f : Project.t -> Z),
                 total_of (fun p => w s * f p) l = w s * total_of f l).
      { intros l f. unfold total_of.
        induction l as [|x l IHl]; cbn [fold_right]; [|rewrite IHl]; lia. }
      rewrite Hscale, (indicator_one ps _ Hk Hs).
      unfold JsMap.values, total_of. cbn [map snd fold_right]. lia.
    + intros p _. unfold signals_of, JsMap.values. cbn [map snd filter].
      destruct (Signal.projectId s =? Project.id p)%string;
        unfold total_of; cbn [fold_right indicator]; lia.
Qed.

(** X21: the statistics agree with the counters.  In every reachable
    state [GET /stats] reports the number of stored projects, the number
    of live signals, which is the sum of the projects' supportCount, the
    sum of the signal amounts, which is the sum of the projects'
    totalSignal, the number of distinct signaling addresses, which never
    exceeds the number of signals, and 7 categories. *)
Theorem X21_stats_agree_with_counters (st : state) :
  reachable st ->
  let stats := get_stats st in
  Stats.totalProjects stats = Z.of_nat (List.length (projects st))
  /\ Stats.totalSignals stats = Z.of_nat (List.length (signals st))
  /\ Stats.totalSignals stats = total_of Project.supportCount (JsMap.values (projects st))
  /\ Stats.totalSignalAmount stats = total_of Signal.amount (JsMap.values (signals st))
  /\ Stats.totalSignalAmount stats
     = total_of Project.totalSignal (JsMap.values (projects st))
  /\ (exists supporters,
        NoDup supporters
        /\ (forall a, In a supporters <->
                      exists s, In s (JsMap.values (signals st)) /\ Signal.address s = a)
        /\ Stats.uniqueSupporters stats = Z.of_nat (List.length supporters))
  /\ Stats.uniqueSupporters stats <= Stats.totalSignals stats
  /\ Stats.categories stats = 7.
Proof.
  intros Hreach stats. pose proof (reachable_invariant _ Hreach) as Hinv.
  pose proof (reference_keys _ Hinv) as Href.
  pose proof (inv_projects _ Hinv) as Hk.
  assert (Hcounters : forall p, In p (JsMap.values (projects st)) ->
            Project.supportCount p
            = total_of (fun _ => 1) (signals_of (Project.id p) (signals st))
            /\ Project.totalSignal p
               = total_of Signal.amount (signals_of (Project.id p) (signals st))).
  { intros p Hp. destruct (inv_counters _ Hinv p Hp) as [-> ->].
    split; [unfold live_count; now rewrite total_of_one|reflexivity]. }
  destruct (set_of_step (map Signal.address (JsMap.values (signals st))) [] (NoDup_nil _))
    as (Hnd & Hin & Hlen).
  fold (set_of (map Signal.address (JsMap.values (signals st)))) in Hnd, Hin, Hlen.
  unfold stats, get_stats.
  cbn [Stats.totalProjects Stats.totalSignals Stats.totalSignalAmount
         Stats.uniqueSupporters Stats.categories].
  unfold JsMap.values at 1 2. rewrite !length_map.
  split; [reflexivity|]. split; [reflexivity|].
  split; [|split; [|split; [|split; [|split; [|reflexivity]]]]].
  - rewrite (total_of_ext _ _ _ (fun p Hp => proj1 (Hcounters p Hp))).
    rewrite (total_by_project (fun _ => 1) _ _ Hk Href), total_of_one.
    unfold JsMap.values. now rewrite length_map.
  - rewrite fold_left_total. lia.
  - rewrite fold_left_total.
    rewrite (total_of_ext _ _ _ (fun p Hp => proj2 (Hcounters p Hp))).
    rewrite (total_by_project Signal.amount _ _ Hk Href). lia.
  - exists (set_of (map Signal.address (JsMap.values (signals st)))).
    split; [exact Hnd|]. split; [|reflexivity].
    intros a. rewrite Hin, in_map_iff. cbn [In]. split.
    + intros [[]|(s & Hs & Hin')]. now exists s.
    + intros (s & Hs & Ha). right. now exists s.
  - rewrite length_map in Hlen. cbn [List.length] in Hlen. lia.
Qed.

End Discovery.

Section MoreRoutes.

Context {E : Ethers}.

(** X22: who may update.  An update is answered with 200 exactly when the
    first non-empty of the body fields [address], [creator],
    [participant], [sender] and [from] (the gate does not read [owner]) is
    an allow-listed address, the project exists, and the body carries no
    owner, an empty one, or one whose lowercase form is the stored owner;
    the allow-listed address need not be the owner. *)
Theorem X22_update_outcomes (id : string) (b : Body.t) (e : env) (st : state) :
  status (fst (serve (PutProject id b) e st)) = 200
  <-> exists addr p,
        first_nonempty (gate_fields Body.address b) = Some addr
        /\ has (fst (snapshot e st)) (Js.toLowerCase addr) = true
        /\ JsMap.get id (projects st) = Some p
        /\ forall o, Js.truthy (Body.owner b) = Some o ->
                     Js.toLowerCase o = Project.owner p.
Proof.
  rewrite serve_run. cbn [is_gated body_of handler_of].
  destruct (snapshot_stores e st) as [Hp _].
  destruct (first_nonempty _) as [addr|].
  2:{ split; [discriminate|]. intros (? & ? & H & _). discriminate. }
  destruct (has _ _) eqn:Hhas.
  2:{ split; [discriminate|]. intros (a & ? & [= <-] & H & _). congruence. }
  unfold put_project, owner_mismatch. rewrite Hp.
  destruct (JsMap.get id (projects st)) as [p|].
  2:{ split; [discriminate|]. intros (? & ? & _ & _ & H & _). discriminate. }
  destruct (Js.truthy (Body.owner b)) as [o|].
  - destruct (String.eqb_spec (Js.toLowerCase o) (Project.owner p)) as [Heq|Hne];
      cbn [negb fst status error].
    + split; [|reflexivity]. intros _. exists addr, p. repeat split; auto.
      now intros o' [= <-].
    + split; [discriminate|]. intros (? & p' & _ & _ & [= <-] & H).
      specialize (H o eq_refl). contradiction.
  - cbn [fst status]. split; [|reflexivity]. intros _. exists addr, p.
    repeat split; auto. discriminate.
Qed.

Lemma find_in_values (ss : JsMap.t Signal.t) (sel : Signal.t -> bool) ex :
  keyed Signal.id ss -> find sel (JsMap.values ss) = Some ex ->
  JsMap.get (Signal.id ex) ss = Some ex /\ sel ex = true.
Proof.
  intros Hk Hfind.
  destruct (existing_split _ _ _ (fun s => s) Hk Hfind eq_refl)
    as (s1 & s2 & -> & Hsel & _ & _ & _).
  split; [|exact Hsel].
  apply in_get; [apply Hk|]. apply in_elt.
Qed.

(** X23: a signal touches one project and one signal.  After a signal
    request answered with 200 or 201, the project stored under the
    identifier is the previous record with only its counters changed:
    totalSignal has grown by the clamped amount and supportCount by 1 for a
    first signal (201) and by 0 for a repeated one (200).  Every other
    project is unchanged, and so is every signal except the one of this
    address on this project. *)
Theorem X23_signal_touches_one_project (id : string) (b : Body.t) (e : env) (st : state) :
  reachable st ->
  fresh (uuid e) st ->
  status (fst (serve (PostSignal id b) e st)) < 400 ->
  let st' := snd (serve (PostSignal id b) e st) in
  exists p a,
    JsMap.get id (projects st) = Some p
    /\ Body.address b = Some a
    /\ JsMap.get id (projects st')
       = Some (set_counters
                 (Project.supportCount p
                  + (if status (fst (serve (PostSignal id b) e st)) =? 201 then 1 else 0))
                 (Project.totalSignal p + signalAmount (Body.amount b)) p)
    /\ (forall k, k <> id -> JsMap.get k (projects st') = JsMap.get k (projects st))
    /\ JsMap.keys (projects st') = JsMap.keys (projects st)
    /\ (forall k s, JsMap.get k (signals st) = Some s ->
                    JsMap.get k (signals st') = Some s
                    \/ (Signal.projectId s = id
                        /\ Signal.address s = Js.toLowerCase a)).
Proof.
  intros Hreach Hfresh Hok.
  pose proof (reachable_invariant _ Hreach) as Hinv.
  destruct Hfresh as [Hfp Hfs].
  rewrite serve_run in *. cbn [is_gated body_of handler_of] in *.
  destruct (snapshot_stores e st) as [Hp Hs].
  destruct (first_nonempty _) as [cand|]; [|cbn in Hok; lia].
  destruct (has _ _); [|cbn in Hok; lia].
  set (st0 := snd (snapshot e st)) in *.
  unfold post_signal in *. rewrite Hp in *.
  destruct (JsMap.get id (projects st)) as [p|] eqn:Hget; [|cbn in Hok; lia].
  assert (Hget0 : JsMap.get id (projects st0) = Some p) by now rewrite Hp.
  destruct (Js.truthy (Body.address b)) as [a|] eqn:Ha; [|cbn in Hok; lia].
  apply JsFacts.truthy_some in Ha as [Ha Hne].
  destruct (isAddress a); [|cbn in Hok; lia]. cbn [negb] in *.
  destruct (counters_at _ _ _ Hinv Hget) as (Hid & _ & _).
  rewrite Hid, Hs in *.
  assert (Hin : In id (JsMap.keys (projects st)))
    by (apply JsMapFacts.get_some_in_keys; congruence).
  exists p, a. split; [reflexivity|]. split; [exact Ha|].
  destruct (find _ (JsMap.values (signals st))) as [ex|] eqn:Hfind;
    cbn [fst snd status Z.eqb Pos.eqb];
    match goal with
    | |- context [store_project id ?q ?s] =>
        rewrite (store_project_same_key s id p q Hget0 Hid)
    end;
    cbn [projects signals with_signals]; rewrite ?Hp.
  - split; [rewrite Z.add_0_r; apply JsMapFacts.get_set_same|].
    split; [intros k Hk; now apply get_set_other|].
    split; [now apply keys_set_present|].
    intros k s Hks.
    destruct (find_in_values _ _ _ (inv_signals _ Hinv) Hfind) as [Hex Hsel].
    set (f := accumulate _ _ _).
    destruct (existing_split _ _ _ f (inv_signals _ Hinv) Hfind eq_refl)
      as (s1 & s2 & Hss & _ & _ & Hset & _).
    cbn [store_project with_projects signals with_signals] in *.
    destruct (String.eqb_spec k (Signal.id ex)) as [->|Hk].
    + right. rewrite Hex in Hks. injection Hks as <-.
      now apply is_signal_of_true in Hsel.
    + left. rewrite Hset.
      pose proof (inv_signals _ Hinv) as Hkeyed. rewrite Hss in Hkeyed, Hks.
      apply JsMapFacts.get_in in Hks.
      apply in_get.
      * apply (JsMapFacts.keyed_replace Signal.id s1 (Signal.id ex) ex (f ex) s2 Hkeyed eq_refl).
      * apply in_app_or in Hks as [Hks|[Hks|Hks]].
        -- apply in_or_app. now left.
        -- injection Hks as Hk' _. congruence.
        -- apply in_or_app. right. now right.
  - split; [apply JsMapFacts.get_set_same|].
    split; [intros k Hk; now apply get_set_other|].
    split; [now apply keys_set_present|].
    intros k s Hks. left.
    cbn [store_project with_projects signals with_signals Signal.id].
    rewrite get_set_other; [exact Hks|]. intros ->. congruence.
Qed.

(** X24: removing a signal takes exactly its share off the counters.  In
    a reachable state a removal answered with 200 deletes the one live
    signal of that address on the project and lowers the project's
    supportCount by exactly 1 and its totalSignal by exactly the amount of
    that signal (the floor at 0 never applies); every other project and
    every other signal is unchanged. *)
Theorem X24_removal_takes_exact_share (id : string) (b : Body.t) (e : env) (st : state) :
  reachable st ->
  status (fst (serve (DeleteSignal id b) e st)) = 200 ->
  let st' := snd (serve (DeleteSignal id b) e st) in
  exists p a ex,
    JsMap.get id (projects st) = Some p
    /\ Body.address b = Some a
    /\ JsMap.get (Signal.id ex) (signals st) = Some ex
    /\ Signal.projectId ex = id
    /\ Signal.address ex = Js.toLowerCase a
    /\ fst (serve (DeleteSignal id b) e st) = mkResponse 200 (RemovedJson (Signal.id ex))
    /\ JsMap.get (Signal.id ex) (signals st') = None
    /\ (forall k, k <> Signal.id ex ->
                  JsMap.get k (signals st') = JsMap.get k (signals st))
    /\ JsMap.get id (projects st')
       = Some (set_counters (Project.supportCount p - 1)
                 (Project.totalSignal p - Signal.amount ex) p)
    /\ 0 <= Project.supportCount p - 1
    /\ 0 <= Project.totalSignal p - Signal.amount ex
    /\ (forall k, k <> id -> JsMap.get k (projects st') = JsMap.get k (projects st)).
Proof.
  intros Hreach Hok. pose proof (reachable_invariant _ Hreach) as Hinv.
  rewrite serve_run in *. cbn [is_gated handler_of] in *.
  unfold delete_signal in *.
  destruct (JsMap.get id (projects st)) as [p|] eqn:Hget; [|discriminate].
  destruct (Js.truthy (Body.address b)) as [a|] eqn:Ha; [|discriminate].
  apply JsFacts.truthy_some in Ha as [Ha Hne].
  destruct (counters_at _ _ _ Hinv Hget) as (Hid & Hcount & Htotal).
  rewrite Hid in *.
  destruct (find _ (JsMap.values (signals st))) as [ex|] eqn:Hfind; [|discriminate].
  destruct (find_in_values _ _ _ (inv_signals _ Hinv) Hfind) as [Hex Hsel].
  apply is_signal_of_true in Hsel as [Hpid Haddr].
  destruct (existing_split _ _ _ (fun s => s) (inv_signals _ Hinv) Hfind eq_refl)
    as (s1 & s2 & Hss & _ & _ & _ & Hdel).
  pose proof (inv_amount _ Hinv) as Hamt. rewrite Hss in Hamt.
  apply Forall_values_split in Hamt as [_ Hamt].
  assert (Hc : 0 <= Project.supportCount p - 1).
  { rewrite Hcount, Hss, !live_count_app, !live_count_cons, Hpid, String.eqb_refl.
    cbn [indicator]. pose proof (live_count_nonneg id s1).
    pose proof (live_count_nonneg id s2). lia. }
  assert (Ht : 0 <= Project.totalSignal p - Signal.amount ex).
  { rewrite Htotal, Hss, !live_total_app, !live_total_cons, Hpid, String.eqb_refl.
    cbn [indicator]. pose proof (live_total_nonneg id _ Hamt) as H.
    rewrite live_total_app in H. lia. }
  rewrite (Z.max_r 0 _ Hc), (Z.max_r 0 _ Ht).
  cbn [fst snd projects signals with_signals].
  set (p' := set_counters (Project.supportCount p - 1)
               (Project.totalSignal p - Signal.amount ex) p).
  rewrite (store_project_same_key st id p p' Hget Hid).
  cbn [store_project signals with_projects].
  exists p, a, ex. repeat split; auto.
  - apply JsMapFacts.get_delete.
  - intros k Hk. unfold JsMap.delete. apply get_filter_other.
    intros v. unfold JsMap.has_key. cbn [fst].
    apply negb_true_iff. now apply String.eqb_neq.
  - apply JsMapFacts.get_set_same.
  - intros k Hk. now apply get_set_other.
Qed.

(** X25: one unusable entry spoils a refresh.  When the decoded remote
    list contains an object without a non-empty [address], normalising it
    throws, and the refresh counts as failed: the cache and its time are
    left as they were and the previous set (or the empty set) is
    returned. *)
Theorem X25_unusable_entry_spoils_refresh (now : Z) (st : state) (data : list entry) :
  needs_refresh now st ->
  In (EntryObject None) data \/ In (EntryObject (Some "")) data ->
  run (FetchOk data) (fetchWhitelist now st)
  = (match _whitelistCache st with Some cache => cache | None => [] end, st)
  /\ console (FetchOk data) (fetchWhitelist now st) = ["Whitelist fetch failed:"].
Proof.
  intros Hneed Hbad.
  assert (Hfail : map_entries data = None).
  { induction data as [|entry data IH]; [destruct Hbad as [[]|[]]|].
    cbn [map_entries].
    destruct (entry_address entry) as [x|] eqn:Hx; [|reflexivity].
    rewrite IH; [reflexivity|].
    destruct Hbad as [[->|H]|[->|H]]; auto; discriminate. }
  split; [now apply fetch_failure|].
  unfold needs_refresh, fetchWhitelist, refresh, fetch_failed in *.
  destruct (_whitelistCache st) as [cache|].
  - destruct (Z.ltb_spec (now - _whitelistCacheTime st) WHITELIST_CACHE_TTL); [lia|].
    cbn [console]. now rewrite Hfail.
  - cbn [console]. now rewrite Hfail.
Qed.

(** X26: a negative limit.  When the limit parses to a negative number
    -k and the offset is absent, does not parse or is 0, the page is the
    ranking of the projects that pass the filters without its last k
    entries: it holds max(0, total - k) projects, which may exceed 100. *)
Theorem X26_negative_limit_drops_the_tail (qs : Query.t) (st : state) (k : Z) :
  Js.parseInt (Query.limit qs) = Js.Num (- k) ->
  0 < k ->
  Js.or_default (Js.parseInt (Query.offset qs)) 0 = 0 ->
  exists page tail total,
    get_projects qs st = mkResponse 200 (ListJson page total 0 (- k))
    /\ (forall p, In p (page ++ tail) <->
                  In p (JsMap.values (projects st)) /\ passes_filters qs p)
    /\ descending (sort_key (Query.sort qs)) (page ++ tail)
    /\ Z.of_nat (List.length (page ++ tail)) = total
    /\ Z.of_nat (List.length page) = Z.max 0 (total - k)
    /\ Z.of_nat (List.length tail) = Z.min k total.
Proof.
  intros Hlimit Hk Hoffset. unfold get_projects.
  rewrite Hoffset, Hlimit. unfold Js.or_default.
  destruct (Z.eqb_spec (- k) 0) as [|_]; [lia|].
  rewrite (Z.min_l (- k) 100) by lia.
  set (ranked := list_sort (Query.sort qs) _).
  set (n := Z.to_nat (Z.max (Z.of_nat (List.length ranked) + - k) 0)).
  assert (Hslice : Js.slice ranked 0 (0 + - k) = firstn n ranked).
  { unfold Js.slice, Js.relative_index.
    change (0 <? 0) with false. cbv iota.
    destruct (Z.ltb_spec (0 + - k) 0); [|lia].
    rewrite (Z.min_l 0) by lia. change (Z.to_nat 0) with 0%nat. cbn [skipn].
    unfold n. f_equal. lia. }
  rewrite Hslice.
  exists (firstn n ranked), (skipn n ranked). eexists.
  split; [reflexivity|]. rewrite firstn_skipn.
  split; [|split; [|split; [reflexivity|]]].
  - intros p. unfold ranked. rewrite list_sort_by_key, ArrayFacts.sort_in.
    apply list_filter_iff.
  - unfold ranked. rewrite list_sort_by_key. apply ArrayFacts.sort_descending.
  - rewrite length_firstn, length_skipn. unfold n. split; lia.
Qed.

End MoreRoutes.

(* ------------------------------------------------------------------ *)
(** * The further properties on the concrete run *)

Section RunMore.

#[local] Existing Instance plainEthers.

Ltac reach :=
  unfold two_projects, signaled_twice, signaled_once, registered;
  repeat first
    [ exact reachable_initial
    | apply reachable_serve
    | split; reflexivity ].

Lemma X2_witness :
  exists addr,
    first_nonempty (gate_fields Body.address (project_body "Bar" carol alice []))
    = Some addr
    /\ has (fst (snapshot (at_time 5000 "p-2") registered)) (Js.toLowerCase addr) = true.
Proof.
  apply (X2_gated_routes_need_listed_candidate
           (PostProjects (project_body "Bar" carol alice [])) (at_time 5000 "p-2")
           registered eq_refl).
  left. vm_compute. reflexivity.
Defined.

Lemma X3_witness :
  snd (serve_json (JsonPostSignal "p-1" numeric_address) (offline 1000 "s-1") initial)
  = initial
  /\ match fst (serve_json (JsonPostSignal "p-1" numeric_address)
                  (offline 1000 "s-1") initial) with
     | Normal resp =>
         resp = error 400 "Address required"
         \/ resp = error 403 "Invite-only. Tag @owockibot on X to request access."
     | TypeError =>
         throws_toLowerCase
           (candidate_json RawBody.address
              (json_body_of (JsonPostSignal "p-1" numeric_address))) = true
     end.
Proof.
  apply (X3_gate_fails_closed (JsonPostSignal "p-1" numeric_address)
           (offline 1000 "s-1") initial eq_refl eq_refl I).
Defined.

Lemma X4_witness :
  fetches (FetchOk [EntryString alice_upper; EntryObject (Some bob)])
    (fetchWhitelist 1000 initial) = 1%nat
  /\ fetches FetchError
       (fetchWhitelist 2000
          (snd (run (FetchOk [EntryString alice_upper; EntryObject (Some bob)])
                  (fetchWhitelist 1000 initial)))) = 0%nat.
Proof.
  destruct (X4_refresh_then_reuse 1000 initial
              [EntryString alice_upper; EntryObject (Some bob)] [alice; bob] I eq_refl)
    as (_ & Hcalls & _ & _ & _ & _ & Hlater).
  split; [exact Hcalls|].
  apply (Hlater 2000 FetchError). vm_compute. reflexivity.
Defined.

Lemma X5_witness :
  fst (run (FetchOk [EntryString alice_upper])
         (requireWhitelist Body.address (signal_body alice Undefined) 1000 initial))
  = Next.
Proof.
  apply (X5_allow_list_ignores_case Body.address (signal_body alice Undefined) 1000
           initial [EntryString alice_upper] [alice] alice I eq_refl eq_refl).
  exists alice_upper. split; [left; left; reflexivity|reflexivity].
Defined.

Lemma X6_witness :
  exists a,
    Body.address (signal_body bob (Number 200)) = Some a
    /\ a <> ""
    /\ isAddress a = true
    /\ has (fst (snapshot (at_time 3000 "s-2") signaled_once)) (Js.toLowerCase a) = true.
Proof.
  apply (X6_signaller_is_allow_listed "p-1" (signal_body bob (Number 200))
           (at_time 3000 "s-2") signaled_once).
  vm_compute. reflexivity.
Defined.

Lemma X7_witness :
  NoDup (JsMap.keys (projects two_projects))
  /\ NoDup (JsMap.keys (signals two_projects)).
Proof.
  assert (Hreach : reachable two_projects) by reach.
  destruct (X7_store_integrity two_projects Hreach) as (H1 & H2 & _).
  split; [exact H1|exact H2].
Defined.

Lemma X8_witness :
  Forall (fun p => In (Project.category p) categories
                   /\ 0 <= Project.supportCount p <= Project.totalSignal p)
    (JsMap.values (projects two_projects)).
Proof.
  assert (Hreach : reachable two_projects) by reach.
  apply Forall_forall. intros p Hp.
  destruct (X8_stored_project_shape two_projects p Hreach Hp) as (_ & H2 & _ & _ & _ & H6).
  split; [exact H2|exact H6].
Defined.

Lemma X9_witness :
  exists p,
    get_project "p-2"
      (snd (serve (PostProjects (project_body "Bar" carol alice [])) (at_time 5000 "p-2")
              registered))
    = mkResponse 200 (DetailJson p []).
Proof.
  assert (Hreach : reachable registered) by reach.
  assert (Hfresh : fresh (uuid (at_time 5000 "p-2")) registered) by (split; reflexivity).
  destruct (X9_created_project_is_retrievable (project_body "Bar" carol alice [])
              (at_time 5000 "p-2") registered Hreach Hfresh eq_refl)
    as (p & _ & _ & _ & _ & _ & _ & H).
  exists p. exact H.
Defined.

Lemma X10_witness :
  exists p',
    JsMap.get "p-1"
      (projects (snd (serve (PutProject "p-1" (update_body "Bar" None (Some alice)))
                        (at_time 4000 "u-4") registered)))
    = Some p'
    /\ Project.owner p' = alice
    /\ Project.updatedAt p' = 4000.
Proof.
  assert (Hreach : reachable registered) by reach.
  destruct (X10_update_touches_one_record "p-1" (update_body "Bar" None (Some alice))
              (at_time 4000 "u-4") registered Hreach eq_refl)
    as (p & p' & Hget & _ & _ & Howner & _ & _ & _ & Hupdated & _ & _ & _ & _ & _ & _
        & _ & _ & Hget' & _).
  exists p'. split; [exact Hget'|]. split; [|exact Hupdated].
  rewrite Howner. vm_compute in Hget. injection Hget as <-. reflexivity.
Defined.

Lemma X12_witness :
  exists p,
    JsMap.get "p-1" (projects signaled_twice) = Some p
    /\ Z.of_nat (List.length (signals signaled_twice))
       = Z.of_nat
           (List.length
              (signals
                 (snd (serve (DeleteProject "p-1" (update_body "Foo" (Some alice) None))
                         (at_time 4000 "u-4") signaled_twice))))
         + Project.supportCount p.
Proof.
  assert (Hreach : reachable signaled_twice) by reach.
  destruct (X12_delete_removes_exactly_its_signals "p-1"
              (update_body "Foo" (Some alice) None) (at_time 4000 "u-4") signaled_twice
              Hreach eq_refl) as (p & Hget & _ & Hlen & _).
  exists p. split; [exact Hget|exact Hlen].
Defined.

Lemma X13_witness :
  projects
    (snd (serve (DeleteSignal "p-1" (signal_body alice_upper Undefined))
            (at_time 2500 "u-3") signaled_once))
  = projects registered
  /\ signals
       (snd (serve (DeleteSignal "p-1" (signal_body alice_upper Undefined))
               (at_time 2500 "u-3") signaled_once))
     = signals registered.
Proof.
  assert (Hreach : reachable registered) by reach.
  assert (Hfresh : fresh (uuid (at_time 2000 "s-1")) registered) by (split; reflexivity).
  destruct (X13_signal_then_remove_restores_stores "p-1"
              (signal_body alice (Number 5)) (signal_body alice_upper Undefined)
              (at_time 2000 "s-1") (at_time 2500 "u-3") registered alice alice_upper
              Hreach Hfresh eq_refl eq_refl eq_refl eq_refl) as (_ & Hp & Hs).
  split; [exact Hp|exact Hs].
Defined.

Lemma X15_witness :
  exists page total offset limit,
    get_projects (list_query (Some "support") (Some "1") None) two_projects
    = mkResponse 200 (ListJson page total offset limit)
    /\ Z.of_nat (List.length page) = 1.
Proof.
  assert (Hoffset : 0 <= Js.or_default
                             (Js.parseInt (Query.offset (list_query (Some "support") (Some "1") None)))
                             0)
    by (vm_compute; discriminate).
  assert (Hlimit : 0 <= Js.or_default
                            (Js.parseInt (Query.limit (list_query (Some "support") (Some "1") None)))
                            50)
    by (vm_compute; discriminate).
  destruct (X15_page_is_a_ranked_segment (list_query (Some "support") (Some "1") None)
              two_projects Hoffset Hlimit)
    as (before & page & after & total & offset & limit & Hresp & _ & _ & _ & _ & Hlen & _).
  exists page, total, offset, limit. split; [exact Hresp|].
  vm_compute in Hresp. injection Hresp as _ <- <- <-. exact Hlen.
Defined.

Lemma X17_witness :
  exists recent,
    get_project "p-1" signaled_twice
    = mkResponse 200
        (DetailJson
           (Project.mk "p-1" "Foo" "" None None "other" ["DeFi"] alice 1 8 1000 1000)
           recent)
    /\ Z.of_nat (List.length recent) = 1.
Proof.
  assert (Hreach : reachable signaled_twice) by reach.
  destruct (X17_project_detail "p-1" signaled_twice
              (Project.mk "p-1" "Foo" "" None None "other" ["DeFi"] alice 1 8 1000 1000)
              Hreach eq_refl) as (recent & older & Hresp & Hlen & _).
  exists recent. split; [exact Hresp|exact Hlen].
Defined.

Lemma X18_witness :
  exists sigs,
    get_supporters alice signaled_twice
    = mkResponse 200
        (SupporterJson alice (Z.of_nat (List.length sigs))
           (total_of (fun x => Signal.amount (SupporterSignal.signal x)) sigs) sigs)
    /\ NoDup (map (fun x => Signal.projectId (SupporterSignal.signal x)) sigs).
Proof.
  assert (Hreach : reachable signaled_twice) by reach.
  destruct (X18_supporter_aggregation alice signaled_twice Hreach eq_refl)
    as (sigs & Hresp & _ & Hnd & _).
  exists sigs. split; [exact Hresp|exact Hnd].
Defined.

Lemma X19_witness :
  Permutation (map Count.name (get_categories two_projects)) categories
  /\ total_of Count.count (get_categories two_projects) = 2.
Proof.
  assert (Hreach : reachable two_projects) by reach.
  destruct (X19_category_counts two_projects Hreach) as (Hperm & _ & _ & Htotal).
  split; [exact Hperm|exact Htotal].
Defined.

Lemma X21_witness :
  Stats.totalSignalAmount (get_stats two_projects)
  = total_of Project.totalSignal (JsMap.values (projects two_projects))
  /\ Stats.uniqueSupporters (get_stats two_projects)
     <= Stats.totalSignals (get_stats two_projects).
Proof.
  assert (Hreach : reachable two_projects) by reach.
  destruct (X21_stats_agree_with_counters two_projects Hreach)
    as (_ & _ & _ & _ & Hamount & _ & Hunique & _).
  split; [exact Hamount|exact Hunique].
Defined.

Lemma X23_witness :
  exists p,
    JsMap.get "p-1"
      (projects (snd (serve (PostSignal "p-1" (signal_body bob (Number 200)))
                        (at_time 3000 "s-2") signaled_once)))
    = Some p
    /\ Project.supportCount p = 2
    /\ Project.totalSignal p = 105.
Proof.
  assert (Hreach : reachable signaled_once) by reach.
  assert (Hfresh : fresh (uuid (at_time 3000 "s-2")) signaled_once) by (split; reflexivity).
  assert (Hok : status (fst (serve (PostSignal "p-1" (signal_body bob (Number 200)))
                               (at_time 3000 "s-2") signaled_once)) < 400)
    by (vm_compute; reflexivity).
  destruct (X23_signal_touches_one_project "p-1" (signal_body bob (Number 200))
              (at_time 3000 "s-2") signaled_once Hreach Hfresh Hok)
    as (p & a & Hget & _ & Hget' & _).
  eexists. split; [exact Hget'|].
  vm_compute in Hget. injection Hget as <-. split; reflexivity.
Defined.

Lemma X24_witness :
  exists ex,
    fst (serve (DeleteSignal "p-1" (signal_body alice Undefined)) (at_time 4000 "u-4")
           signaled_twice)
    = mkResponse 200 (RemovedJson (Signal.id ex))
    /\ Signal.address ex = alice.
Proof.
  assert (Hreach : reachable signaled_twice) by reach.
  destruct (X24_removal_takes_exact_share "p-1" (signal_body alice Undefined)
              (at_time 4000 "u-4") signaled_twice Hreach eq_refl)
    as (p & a & ex & _ & Ha & _ & _ & Haddr & Hresp & _).
  exists ex. split; [exact Hresp|].
  rewrite Haddr. injection Ha as <-. reflexivity.
Defined.

Lemma X25_witness :
  run (FetchOk [EntryString alice; EntryObject None]) (fetchWhitelist 1000 initial)
  = ([], initial).
Proof.
  destruct (X25_unusable_entry_spoils_refresh 1000 initial
              [EntryString alice; EntryObject None] I
              (or_introl (or_intror (or_introl eq_refl)))) as [H _].
  exact H.
Defined.

Lemma X26_witness :
  exists (page tail : list Project.t) (total : Z),
    get_projects (list_query (Some "support") (Some "-1") None) two_projects
    = mkResponse 200 (ListJson page total 0 (- 1))
    /\ Z.of_nat (List.length page) = Z.max 0 (total - 1)
    /\ Z.of_nat (List.length tail) = Z.min 1 total.
Proof.
  assert (Hk : 0 < 1) by reflexivity.
  destruct (X26_negative_limit_drops_the_tail
              (list_query (Some "support") (Some "-1") None) two_projects 1
              eq_refl Hk eq_refl)
    as (page & tail & total & Hresp & _ & _ & _ & Hpage & Htail).
  exists page, tail, total. split; [exact Hresp|]. split; [exact Hpage|exact Htail].
Defined.

Lemma X27_witness :
  serve_json (JsonPostSignal "p-1" falsy_address) (at_time 5000 "s-3") signaled_twice
  = normal (serve (typed_request (JsonPostSignal "p-1" falsy_address))
              (at_time 5000 "s-3") signaled_twice).
Proof.
  apply (X27_typed_frame (JsonPostSignal "p-1" falsy_address)
           (at_time 5000 "s-3") signaled_twice).
  repeat constructor.
Defined.

(** Requests with an address field that is no string, run on the stores
    of the concrete run: the gate throws on a numeric [address]; a
    project deletion throws on an [owner] that is an array and leaves the
    project stored; a signal removal throws on a numeric [address] when
    the project has a signal, and answers 404 when it has none. *)
Remark untyped_runs :
  serve_json (JsonPostSignal "p-1" numeric_address) (at_time 5000 "s-3") signaled_twice
  = (TypeError, signaled_twice)
  /\ serve_json (JsonDeleteProject "p-1" array_owner) (at_time 5000 "s-3") signaled_twice
     = (TypeError, signaled_twice)
  /\ serve_json (JsonDeleteSignal "p-1" numeric_address) (at_time 5000 "s-3") signaled_twice
     = (TypeError, signaled_twice)
  /\ serve_json (JsonDeleteSignal "p-1" numeric_address) (at_time 5000 "s-3") registered
     = (Normal (error 404 "Signal not found"), registered).
Proof. repeat split; vm_compute; reflexivity. Qed.

End RunMore.
